(** * tough-cookie: cookie dates, canonicalisation, validation and the jar

    A shallow embedding of [src/cookie.js] (RFC 6265 cookie engine) and the
    properties of it that the specification states.

    Conventions of the embedding.
    - A JavaScript string is a [string]; one [ascii] is one code unit, so the
      model covers the strings whose code units are below 256.
    - A JavaScript integer is a [Z]; [-1] is the "not found" index.
    - [null]/[undefined] is [None].
    - A [Date] is its time value, the milliseconds since the epoch, in [Z].
    - Objects that the code mutates and shares (the cookies) live in a heap
      and are passed around by location. *)

From Stdlib Require Import ZArith Lia Bool Ascii String List Sorted.
From stdpp Require Import base option list strings gmap.

Local Open Scope Z_scope.

(** String concatenation computes under [simpl], as the other string
    functions do. *)
#[local] Arguments String.append !_ _ : simpl nomatch.

(** ** Strings as the built-in [String] methods see them *)

Module Js.

Definition code (c : ascii) : nat := nat_of_ascii c.

(** [lo <= c <= hi] on code units, the ranges of a character class. *)
Definition in_range (lo hi : nat) (c : ascii) : bool :=
  (lo <=? code c)%nat && (code c <=? hi)%nat.

Definition is_char (x : ascii) (c : ascii) : bool := Ascii.eqb x c.

(** [\d] *)
Definition is_digit (c : ascii) : bool := in_range 48 57 c.

(** White space and line terminators below 256: what [trim] strips and
    what [\s] matches. *)
Definition is_space (c : ascii) : bool :=
  in_range 9 13 c || (code c =? 32)%nat || (code c =? 160)%nat.

Fixpoint trimStart (s : string) : string :=
  match s with
  | String c s' => if is_space c then trimStart s' else s
  | EmptyString => EmptyString
  end.

Fixpoint trimEnd (s : string) : string :=
  match s with
  | String c s' =>
      match trimEnd s' with
      | EmptyString => if is_space c then EmptyString else String c EmptyString
      | t => String c t
      end
  | EmptyString => EmptyString
  end.

Definition trim (s : string) : string := trimEnd (trimStart s).

Definition lower_char (c : ascii) : ascii :=
  if in_range 65 90 c || in_range 192 214 c || in_range 216 222 c
  then ascii_of_nat (code c + 32) else c.

Fixpoint toLowerCase (s : string) : string :=
  match s with
  | String c s' => String (lower_char c) (toLowerCase s')
  | EmptyString => EmptyString
  end.

Definition len (s : string) : Z := Z.of_nat (String.length s).

(** [s.indexOf(t)]: the first position at which [t] occurs, else [-1]. *)
Fixpoint indexOf_from (i : nat) (s t : string) : Z :=
  if String.prefix t s then Z.of_nat i
  else match s with
       | String _ s' => indexOf_from (S i) s' t
       | EmptyString => -1
       end.

Definition indexOf (s t : string) : Z := indexOf_from 0 s t.

(** [s.lastIndexOf(t)]: the last position at which [t] occurs, else [-1]. *)
Fixpoint lastIndexOf_from (i : nat) (s t : string) : Z :=
  match s with
  | String _ s' =>
      let r := lastIndexOf_from (S i) s' t in
      if 0 <=? r then r
      else if String.prefix t s then Z.of_nat i else -1
  | EmptyString => if String.prefix t s then Z.of_nat i else -1
  end.

Definition lastIndexOf (s t : string) : Z := lastIndexOf_from 0 s t.

(** [s.substr(start, n)] for [start >= 0]. *)
Definition substr (s : string) (start n : Z) : string :=
  if (start <? 0) || (n <? 0) then EmptyString
  else String.substring (Z.to_nat start) (Z.to_nat n) s.

Fixpoint drop (n : nat) (s : string) : string :=
  match n, s with
  | O, _ => s
  | S n', String _ s' => drop n' s'
  | S _, EmptyString => EmptyString
  end.

(** [s.slice(start)] and [s.slice(start, stop)] for non-negative indices. *)
Definition slice_from (s : string) (start : Z) : string :=
  drop (Z.to_nat start) s.

Definition slice (s : string) (start stop : Z) : string :=
  String.substring (Z.to_nat start) (Z.to_nat (stop - start)) s.

(** [s[0]] *)
Definition first_char (s : string) : option ascii :=
  match s with String c _ => Some c | EmptyString => None end.

(** [s.split(re)] where [re] is a single character class: the pieces
    between the separators, empty pieces included. *)
Fixpoint split (sep : ascii -> bool) (s : string) : list string :=
  match s with
  | EmptyString => [EmptyString]
  | String c s' =>
      if sep c then EmptyString :: split sep s'
      else match split sep s' with
           | t :: ts => String c t :: ts
           | [] => [String c EmptyString]
           end
  end.

Definition digit_val (c : ascii) : Z := Z.of_nat (code c) - 48.

Fixpoint digits_from (acc : Z) (s : string) : Z :=
  match s with
  | String c s' => if is_digit c then digits_from (10 * acc + digit_val c) s' else acc
  | EmptyString => acc
  end.

(** [parseInt(s, 10)]: leading white space, an optional sign, then the
    longest run of digits; [None] is [NaN]. *)
Definition parseInt (s : string) : option Z :=
  let t := trimStart s in
  let '(sign, u) :=
    match t with
    | String c t' =>
        if is_char "-" c then (-1, t')
        else if is_char "+" c then (1, t')
        else (1, t)
    | EmptyString => (1, t)
    end in
  match u with
  | String c _ => if is_digit c then Some (sign * digits_from 0 u) else None
  | EmptyString => None
  end.

(** The decimal rendering of a non-negative integer in a template. *)
Fixpoint show_nat_fuel (fuel : nat) (n : nat) (acc : string) : string :=
  match fuel with
  | O => acc
  | S fuel' =>
      let acc' := String (ascii_of_nat (48 + n mod 10)) acc in
      if (n <? 10)%nat then acc' else show_nat_fuel fuel' (n / 10) acc'
  end.

Definition show_Z (z : Z) : string :=
  if z <? 0 then String "-" (show_nat_fuel (S (Z.to_nat (- z))) (Z.to_nat (- z)) EmptyString)
  else show_nat_fuel (S (Z.to_nat z)) (Z.to_nat z) EmptyString.

(** Truthiness of a string-or-null value. *)
Definition truthy (s : option string) : bool :=
  match s with
  | Some (String _ _) => true
  | _ => false
  end.

End Js.

(** ** Regular expressions

    The patterns of the source only put [*], [+] and [{1,2}] on character
    classes, so the syntax below has the class star as a primitive.  The
    matcher is the backtracking one of the language: alternatives in order,
    greedy quantifiers, first match wins. *)

Module Re.

Inductive t : Type :=
| Eps
| Cls (p : ascii -> bool)
| Star (p : ascii -> bool)
| Seq (r1 r2 : t)
| Alt (r1 r2 : t)
| Opt (r : t)
| Grp (n : nat) (r : t)
| Eos.

Definition Plus (p : ascii -> bool) : t := Seq (Cls p) (Star p).
Definition Lit (c : ascii) : t := Cls (Js.is_char c).
(** [p{1,2}] *)
Definition OneTwo (p : ascii -> bool) : t := Seq (Cls p) (Opt (Cls p)).

(** Case-insensitive literal word, for the [i] flag. *)
Definition ci_char (x : ascii) (c : ascii) : bool :=
  Ascii.eqb (Js.lower_char x) (Js.lower_char c) && (Js.code c <? 128)%nat.

Fixpoint Word_ci (w : string) : t :=
  match w with
  | EmptyString => Eps
  | String c w' => Seq (Cls (ci_char c)) (Word_ci w')
  end.

Definition captures := list (nat * string).

Fixpoint get (n : nat) (cs : captures) : option string :=
  match cs with
  | [] => None
  | (m, s) :: cs' => if (n =? m)%nat then Some s else get n cs'
  end.

Definition consumed (s s' : string) : string :=
  String.substring 0 (String.length s - String.length s') s.

Section Matcher.
Context {A : Type}.

Fixpoint star (p : ascii -> bool) (s : string)
         (k : string -> option A) : option A :=
  match s with
  | String c s' =>
      if p c then
        match star p s' k with
        | Some r => Some r
        | None => k s
        end
      else k s
  | EmptyString => k s
  end.
End Matcher.

Fixpoint run (r : t) (s : string) (cs : captures)
         (k : string -> captures -> option captures) : option captures :=
  match r with
  | Eps => k s cs
  | Cls p =>
      match s with
      | String c s' => if p c then k s' cs else None
      | EmptyString => None
      end
  | Star p => star p s (fun s' => k s' cs)
  | Seq r1 r2 => run r1 s cs (fun s' cs' => run r2 s' cs' k)
  | Alt r1 r2 =>
      match run r1 s cs k with
      | Some res => Some res
      | None => run r2 s cs k
      end
  | Opt r1 =>
      match run r1 s cs (fun s' cs' =>
              if (String.length s' =? String.length s)%nat then None
              else k s' cs') with
      | Some res => Some res
      | None => k s cs
      end
  | Grp n r1 => run r1 s cs (fun s' cs' => k s' ((n, consumed s s') :: cs'))
  | Eos => match s with EmptyString => k s cs | _ => None end
  end.

(** [re.exec(s)] for a pattern that starts with [^]: group 0 is the whole
    match. *)
Definition exec (r : t) (s : string) : option captures :=
  run (Grp 0 r) s [] (fun _ cs => Some cs).

(** [re.test(s)] for a pattern without [^]: a match may start anywhere. *)
Fixpoint test (r : t) (s : string) : bool :=
  match exec r s with
  | Some _ => true
  | None => match s with
            | String _ s' => test r s'
            | EmptyString => false
            end
  end.

End Re.


(** ** Time values

    The built-in [Date] of the language (ECMA-262, "Time Values and Time
    Range"): a date is a count of milliseconds since the epoch, and its
    calendar fields are arithmetic on that count.  These are the language's
    definitions, which [parseDate] and [formatDate] call. *)

Module JsDate.

Definition msPerDay : Z := 86400000.
Definition msPerHour : Z := 3600000.
Definition msPerMinute : Z := 60000.
Definition msPerSecond : Z := 1000.

Definition Day (t : Z) : Z := t / msPerDay.
Definition TimeWithinDay (t : Z) : Z := t mod msPerDay.

Definition DaysInYear (y : Z) : Z :=
  if negb (y mod 4 =? 0) then 365
  else if negb (y mod 100 =? 0) then 366
  else if negb (y mod 400 =? 0) then 365
  else 366.

Definition DayFromYear (y : Z) : Z :=
  365 * (y - 1970) + (y - 1969) / 4 - (y - 1901) / 100 + (y - 1601) / 400.

Definition TimeFromYear (y : Z) : Z := msPerDay * DayFromYear y.

(** The largest [y] with [TimeFromYear y <= t]: an estimate from the mean
    length of a year, corrected by at most one. *)
Definition YearFromTime (t : Z) : Z :=
  let d := Day t in
  let y := 1970 + (d * 400) / 146097 in
  if DayFromYear (y + 1) <=? d then y + 1
  else if DayFromYear y <=? d then y
  else y - 1.

Definition InLeapYear (t : Z) : Z :=
  if DaysInYear (YearFromTime t) =? 366 then 1 else 0.

Definition DayWithinYear (t : Z) : Z := Day t - DayFromYear (YearFromTime t).

Definition MonthFromTime (t : Z) : Z :=
  let d := DayWithinYear t in
  let leap := InLeapYear t in
  if d <? 31 then 0
  else if d <? 59 + leap then 1
  else if d <? 90 + leap then 2
  else if d <? 120 + leap then 3
  else if d <? 151 + leap then 4
  else if d <? 181 + leap then 5
  else if d <? 212 + leap then 6
  else if d <? 243 + leap then 7
  else if d <? 273 + leap then 8
  else if d <? 304 + leap then 9
  else if d <? 334 + leap then 10
  else 11.

Definition DateFromTime (t : Z) : Z :=
  let d := DayWithinYear t in
  let leap := InLeapYear t in
  match MonthFromTime t with
  | 0 => d + 1
  | 1 => d - 30
  | 2 => d - 58 - leap
  | 3 => d - 89 - leap
  | 4 => d - 119 - leap
  | 5 => d - 150 - leap
  | 6 => d - 180 - leap
  | 7 => d - 211 - leap
  | 8 => d - 242 - leap
  | 9 => d - 272 - leap
  | 10 => d - 303 - leap
  | _ => d - 333 - leap
  end.

Definition WeekDay (t : Z) : Z := (Day t + 4) mod 7.
Definition HourFromTime (t : Z) : Z := (t / msPerHour) mod 24.
Definition MinFromTime (t : Z) : Z := (t / msPerMinute) mod 60.
Definition SecFromTime (t : Z) : Z := (t / msPerSecond) mod 60.

Definition MakeTime (hour min sec ms : Z) : Z :=
  hour * msPerHour + min * msPerMinute + sec * msPerSecond + ms.

(** Days of the year before the first of month [mn] (0-based). *)
Definition DaysBeforeMonth (leap : Z) (mn : Z) : Z :=
  match mn with
  | 0 => 0
  | 1 => 31
  | 2 => 59 + leap
  | 3 => 90 + leap
  | 4 => 120 + leap
  | 5 => 151 + leap
  | 6 => 181 + leap
  | 7 => 212 + leap
  | 8 => 243 + leap
  | 9 => 273 + leap
  | 10 => 304 + leap
  | _ => 334 + leap
  end.

Definition MakeDay (year month date : Z) : Z :=
  let ym := year + month / 12 in
  let mn := month mod 12 in
  let leap := if DaysInYear ym =? 366 then 1 else 0 in
  DayFromYear ym + DaysBeforeMonth leap mn + date - 1.

Definition MakeDate (day time : Z) : Z := day * msPerDay + time.

(** [Date.UTC(year, month, date, hours, minutes, seconds)] on integers
    within the time range. *)
Definition UTC (year month date hours minutes seconds : Z) : Z :=
  let yr := if (0 <=? year) && (year <=? 99) then 1900 + year else year in
  MakeDate (MakeDay yr month date) (MakeTime hours minutes seconds 0).

Definition getUTCFullYear := YearFromTime.
Definition getUTCMonth := MonthFromTime.
Definition getUTCDate := DateFromTime.
Definition getUTCDay := WeekDay.
Definition getUTCHours := HourFromTime.
Definition getUTCMinutes := MinFromTime.
Definition getUTCSeconds := SecFromTime.

End JsDate.

(** ** The cookie date codec (RFC 6265 S5.1.1) *)

(** [[\x09\x20-\x2F\x3B-\x40\x5B-\x60\x7B-\x7E]] *)
Definition DATE_DELIM (c : ascii) : bool :=
  (Js.code c =? 9)%nat || Js.in_range 32 47 c || Js.in_range 59 64 c
  || Js.in_range 91 96 c || Js.in_range 123 126 c.

Definition not_digit (c : ascii) : bool := negb (Js.is_digit c).

(** [/^(\d{1,2})[^\d]*$/] *)
Definition DAY_OF_MONTH : Re.t :=
  Re.Seq (Re.Grp 1 (Re.OneTwo Js.is_digit)) (Re.Seq (Re.Star not_digit) Re.Eos).

(** [/^(\d{1,2})[^\d]*:(\d{1,2})[^\d]*:(\d{1,2})[^\d]*$/] *)
Definition TIME : Re.t :=
  Re.Seq (Re.Grp 1 (Re.OneTwo Js.is_digit))
 (Re.Seq (Re.Star not_digit)
 (Re.Seq (Re.Lit ":")
 (Re.Seq (Re.Grp 2 (Re.OneTwo Js.is_digit))
 (Re.Seq (Re.Star not_digit)
 (Re.Seq (Re.Lit ":")
 (Re.Seq (Re.Grp 3 (Re.OneTwo Js.is_digit))
 (Re.Seq (Re.Star not_digit) Re.Eos))))))).

Definition month_names : list string :=
  ["Jan"; "Feb"; "Mar"; "Apr"; "May"; "Jun";
   "Jul"; "Aug"; "Sep"; "Oct"; "Nov"; "Dec"]%string.

(** [/^(Jan|Feb|Mar|Apr|May|Jun|Jul|Aug|Sep|Oct|Nov|Dec)/i] *)
Definition MONTH : Re.t :=
  Re.Grp 1 (fold_right (fun w r => Re.Alt (Re.Word_ci w) r)
                       (Re.Cls (fun _ => false)) month_names).

Definition MONTH_TO_NUM : list (string * Z) :=
  [("jan", 0); ("feb", 1); ("mar", 2); ("apr", 3); ("may", 4); ("jun", 5);
   ("jul", 6); ("aug", 7); ("sep", 8); ("oct", 9); ("nov", 10); ("dec", 11)]%string.

Definition NUM_TO_MONTH : list string := month_names.

Definition NUM_TO_DAY : list string :=
  ["Sun"; "Mon"; "Tue"; "Wed"; "Thu"; "Fri"; "Sat"]%string.

Fixpoint assoc (k : string) (l : list (string * Z)) : option Z :=
  match l with
  | [] => None
  | (k', v) :: l' => if String.eqb k k' then Some v else assoc k l'
  end.

(** [/^(\d{2}|\d{4})$/] *)
Definition YEAR : Re.t :=
  Re.Seq (Re.Grp 1 (Re.Alt
            (Re.Seq (Re.Cls Js.is_digit) (Re.Cls Js.is_digit))
            (Re.Seq (Re.Cls Js.is_digit) (Re.Seq (Re.Cls Js.is_digit)
               (Re.Seq (Re.Cls Js.is_digit) (Re.Cls Js.is_digit))))))
         Re.Eos.

Definition MAX_TIME : Z := 2147483647000.
Definition MIN_TIME : Z := 0.

(** The six locals of [parseDate]; [None] is [null]. *)
Record DateFields : Type := mkDateFields {
  f_hour : option Z;
  f_minutes : option Z;
  f_seconds : option Z;
  f_day : option Z;
  f_month : option Z;
  f_year : option Z
}.

Definition no_fields : DateFields := mkDateFields None None None None None None.

(** What one turn of the token loop does: go on with new locals, or leave
    [parseDate] with no result. *)
Inductive Step : Type :=
| Next (f : DateFields)
| Return_undefined.

Definition is_null {A} (o : option A) : bool :=
  match o with None => true | Some _ => false end.

(** S5.1.1 steps 3 and 4 on the year-value. *)
Definition adjust_year (year : Z) : Z :=
  if (70 <=? year) && (year <=? 99) then year + 1900
  else if (0 <=? year) && (year <=? 69) then year + 2000
  else year.

(** [String(result)] for the result array of [DAY_OF_MONTH.exec]: the whole
    match and the group, joined by a comma. *)
Definition result_to_string (cs : Re.captures) : string :=
  (default EmptyString (Re.get 0 cs) ++ "," ++ default EmptyString (Re.get 1 cs))%string.

Definition with_year (year : Z) (f : DateFields) : DateFields :=
  mkDateFields (f_hour f) (f_minutes f) (f_seconds f) (f_day f) (f_month f) (Some year).

Definition try_year (f : DateFields) (token : string) : Step :=
  if is_null (f_year f) then
    match Re.exec YEAR token with
    | Some result =>
        match Js.parseInt (default EmptyString (Re.get 0 result)) with
        | Some y =>
            let year := adjust_year y in
            if year <? 1601 then Return_undefined
            else Next (with_year year f)
        | None => Return_undefined
        end
    | None => Next f
    end
  else Next f.

Definition try_month (f : DateFields) (token : string) : Step :=
  match (if is_null (f_month f) then Re.exec MONTH token else None) with
  | Some result =>
      match assoc (Js.toLowerCase (default EmptyString (Re.get 1 result))) MONTH_TO_NUM with
      | Some m => Next (mkDateFields (f_hour f) (f_minutes f) (f_seconds f)
                                     (f_day f) (Some m) (f_year f))
      | None => Return_undefined
      end
  | None => try_year f token
  end.

Definition try_day (f : DateFields) (token : string) : Step :=
  match (if is_null (f_day f) then Re.exec DAY_OF_MONTH token else None) with
  | Some result =>
      match Js.parseInt (result_to_string result) with
      | Some day =>
          if (day <? 1) || (31 <? day) then Return_undefined
          else Next (mkDateFields (f_hour f) (f_minutes f) (f_seconds f)
                                  (Some day) (f_month f) (f_year f))
      | None => Return_undefined
      end
  | None => try_month f token
  end.

Definition try_time (f : DateFields) (token : string) : Step :=
  match (if is_null (f_seconds f) then Re.exec TIME token else None) with
  | Some result =>
      match Js.parseInt (default EmptyString (Re.get 1 result)),
            Js.parseInt (default EmptyString (Re.get 2 result)),
            Js.parseInt (default EmptyString (Re.get 3 result)) with
      | Some hour, Some minutes, Some seconds =>
          if (23 <? hour) || (59 <? minutes) || (59 <? seconds) then Return_undefined
          else Next (mkDateFields (Some hour) (Some minutes) (Some seconds)
                                  (f_day f) (f_month f) (f_year f))
      | _, _, _ => Return_undefined
      end
  | None => try_day f token
  end.

(** The body of the [for] loop on one element of [tokens]. *)
Definition parseDate_token (f : DateFields) (raw : string) : Step :=
  let token := Js.trim raw in
  match token with
  | EmptyString => Next f
  | _ => try_time f token
  end.

Fixpoint parseDate_loop (tokens : list string) (f : DateFields) : option DateFields :=
  match tokens with
  | [] => Some f
  | raw :: rest =>
      match parseDate_token f raw with
      | Next f' => parseDate_loop rest f'
      | Return_undefined => None
      end
  end.

(** The check after the loop and the construction of the date; a [null]
    argument of [Date.UTC] counts as [0]. *)
Definition parseDate_finish (f : DateFields) : option Z :=
  match f_seconds f, f_day f, f_month f, f_year f with
  | Some seconds, Some day, Some month, Some year =>
      Some (JsDate.UTC year month day (default 0 (f_hour f))
                       (default 0 (f_minutes f)) seconds)
  | _, _, _, _ => None
  end.

Definition parseDate (str : string) : option Z :=
  match str with
  | EmptyString => None
  | _ =>
      match parseDate_loop (Js.split DATE_DELIM str) no_fields with
      | Some f => parseDate_finish f
      | None => None
      end
  end.

Definition pad2 (n : Z) : string :=
  if 10 <=? n then Js.show_Z n else String "0" (Js.show_Z n).

Definition nth_string (l : list string) (i : Z) : string :=
  nth (Z.to_nat i) l "undefined"%string.

Definition newline : ascii := ascii_of_nat 10.

(** The template literal of [formatDate] runs over two source lines: the
    line break and the four blanks of indentation after the year are part
    of the string it builds. *)
Definition formatDate (date : Z) : string :=
  let uDate := pad2 (JsDate.getUTCDate date) in
  let hours := pad2 (JsDate.getUTCHours date) in
  let minutes := pad2 (JsDate.getUTCMinutes date) in
  let seconds := pad2 (JsDate.getUTCSeconds date) in
  (nth_string NUM_TO_DAY (JsDate.getUTCDay date) ++ ", " ++ uDate ++ " "
   ++ nth_string NUM_TO_MONTH (JsDate.getUTCMonth date) ++ " "
   ++ Js.show_Z (JsDate.getUTCFullYear date)
   ++ String newline "    "
   ++ hours ++ ":" ++ minutes ++ ":" ++ seconds ++ " GMT")%string.

(** ** What [cookie.js] imports

    The public-suffix oracle, the IP test, the IDN encoder and [pathMatch]
    live in other files; the engine is stated for any of them.  The clock is
    what [new Date()] and [Date.now()] read during one call. *)

Class Imports : Type := {
  isIP : string -> bool;
  getPublicSuffix : string -> option string;
  punycode_toASCII : string -> string;
  pathMatch : string -> option string -> bool
}.

(** ** Canonicalisation and matching (RFC 6265 S5.1.2 to S5.1.4) *)

(** [s.replace(/^\./, '')] *)
Definition strip_leading_dot (s : string) : string :=
  match s with
  | String c s' => if Js.is_char "." c then s' else s
  | EmptyString => s
  end.

(** [/[^\u0001-\u007f]/] *)
Definition NON_ASCII : Re.t := Re.Cls (fun c => negb (Js.in_range 1 127 c)).

Definition canonicalDomain `{Imports} (str : option string) : option string :=
  match str with
  | None => None
  | Some str =>
      let str := strip_leading_dot (Js.trim str) in
      let str := if Re.test NON_ASCII str then punycode_toASCII str else str in
      Some (Js.toLowerCase str)
  end.

(** The result is [None] for the [null] the function returns on a missing
    argument.  [canonicalize] is [false] only when the caller passes the
    literal [false]. *)
Definition domainMatch `{Imports} (str domStr : option string) (canonicalize : bool)
  : option bool :=
  match str, domStr with
  | Some str0, Some domStr0 =>
      let str := if canonicalize then default EmptyString (canonicalDomain (Some str0)) else str0 in
      let domStr := if canonicalize then default EmptyString (canonicalDomain (Some domStr0)) else domStr0 in
      if String.eqb str domStr then Some true
      else if isIP str then Some false
      else
        let idx := Js.indexOf str domStr in
        if idx <=? 0 then Some false
        else if negb (Js.len str =? Js.len domStr + idx) then Some false
        else if negb (String.eqb (Js.substr str (idx - 1) 1) ".") then Some false
        else Some true
  | _, _ => None
  end.

Definition defaultPath (path : option string) : string :=
  match path with
  | None | Some EmptyString => "/"
  | Some path =>
      if negb (String.eqb (Js.substr path 0 1) "/") then "/"
      else if String.eqb path "/" then path
      else
        let rightSlash := Js.lastIndexOf path "/" in
        if rightSlash =? 0 then "/"
        else Js.slice path 0 rightSlash
  end.

Fixpoint permutePath_loop (fuel : nat) (path : string) (permutations : list string)
  : list string :=
  match fuel with
  | O => permutations
  | S fuel' =>
      if 1 <? Js.len path then
        let lindex := Js.lastIndexOf path "/" in
        if lindex =? 0 then permutations
        else
          let path := Js.substr path 0 lindex in
          permutePath_loop fuel' path (permutations ++ [path])
      else permutations
  end.

Definition permutePath (path : string) : list string :=
  if String.eqb path "/" then ["/"%string]
  else
    let path :=
      if Js.lastIndexOf path "/" =? Js.len path - 1
      then Js.substr path 0 (Js.len path - 1) else path in
    permutePath_loop (String.length path) path [path] ++ ["/"%string].

(** ** The cookie record *)

(** [expires]: the prototype's ['Infinity'], a [Date], or any other string a
    caller assigned (one that does not read as the number [Infinity]). *)
Inductive Expires : Type :=
| Forever
| At (time : Z)
| Text (s : string).

(** [maxAge] when it is not [null]: a number of seconds, or one of the
    infinities (kept as the strings ['Infinity'] and ['-Infinity']). *)
Inductive MaxAge : Type :=
| Seconds (n : Z)
| PlusInfinity
| MinusInfinity.

Record Cookie : Type := mkCookie {
  key : string;
  value : string;
  expires : Expires;
  maxAge : option MaxAge;
  domain : option string;
  path : option string;
  secure : bool;
  httpOnly : bool;
  extensions : option (list string);
  hostOnly : option bool;
  pathIsDefault : option bool;
  creation : option Z;
  lastAccessed : option Z;
  creationIndex : Z
}.

(** The prototype's defaults. *)
Definition Cookie_prototype : Cookie :=
  mkCookie EmptyString EmptyString Forever None None None false false None
           None None None None 0.

Definition set_key (v : string) (c : Cookie) : Cookie :=
  mkCookie v (value c) (expires c) (maxAge c) (domain c) (path c) (secure c)
           (httpOnly c) (extensions c) (hostOnly c) (pathIsDefault c)
           (creation c) (lastAccessed c) (creationIndex c).
Definition set_value (v : string) (c : Cookie) : Cookie :=
  mkCookie (key c) v (expires c) (maxAge c) (domain c) (path c) (secure c)
           (httpOnly c) (extensions c) (hostOnly c) (pathIsDefault c)
           (creation c) (lastAccessed c) (creationIndex c).
Definition set_expires (v : Expires) (c : Cookie) : Cookie :=
  mkCookie (key c) (value c) v (maxAge c) (domain c) (path c) (secure c)
           (httpOnly c) (extensions c) (hostOnly c) (pathIsDefault c)
           (creation c) (lastAccessed c) (creationIndex c).
Definition set_maxAge (v : option MaxAge) (c : Cookie) : Cookie :=
  mkCookie (key c) (value c) (expires c) v (domain c) (path c) (secure c)
           (httpOnly c) (extensions c) (hostOnly c) (pathIsDefault c)
           (creation c) (lastAccessed c) (creationIndex c).
Definition set_domain (v : option string) (c : Cookie) : Cookie :=
  mkCookie (key c) (value c) (expires c) (maxAge c) v (path c) (secure c)
           (httpOnly c) (extensions c) (hostOnly c) (pathIsDefault c)
           (creation c) (lastAccessed c) (creationIndex c).
Definition set_path (v : option string) (c : Cookie) : Cookie :=
  mkCookie (key c) (value c) (expires c) (maxAge c) (domain c) v (secure c)
           (httpOnly c) (extensions c) (hostOnly c) (pathIsDefault c)
           (creation c) (lastAccessed c) (creationIndex c).
Definition set_secure (v : bool) (c : Cookie) : Cookie :=
  mkCookie (key c) (value c) (expires c) (maxAge c) (domain c) (path c) v
           (httpOnly c) (extensions c) (hostOnly c) (pathIsDefault c)
           (creation c) (lastAccessed c) (creationIndex c).
Definition set_httpOnly (v : bool) (c : Cookie) : Cookie :=
  mkCookie (key c) (value c) (expires c) (maxAge c) (domain c) (path c) (secure c)
           v (extensions c) (hostOnly c) (pathIsDefault c)
           (creation c) (lastAccessed c) (creationIndex c).
Definition set_extensions (v : option (list string)) (c : Cookie) : Cookie :=
  mkCookie (key c) (value c) (expires c) (maxAge c) (domain c) (path c) (secure c)
           (httpOnly c) v (hostOnly c) (pathIsDefault c)
           (creation c) (lastAccessed c) (creationIndex c).
Definition set_hostOnly (v : option bool) (c : Cookie) : Cookie :=
  mkCookie (key c) (value c) (expires c) (maxAge c) (domain c) (path c) (secure c)
           (httpOnly c) (extensions c) v (pathIsDefault c)
           (creation c) (lastAccessed c) (creationIndex c).
Definition set_pathIsDefault (v : option bool) (c : Cookie) : Cookie :=
  mkCookie (key c) (value c) (expires c) (maxAge c) (domain c) (path c) (secure c)
           (httpOnly c) (extensions c) (hostOnly c) v
           (creation c) (lastAccessed c) (creationIndex c).
Definition set_creation (v : option Z) (c : Cookie) : Cookie :=
  mkCookie (key c) (value c) (expires c) (maxAge c) (domain c) (path c) (secure c)
           (httpOnly c) (extensions c) (hostOnly c) (pathIsDefault c)
           v (lastAccessed c) (creationIndex c).
Definition set_lastAccessed (v : option Z) (c : Cookie) : Cookie :=
  mkCookie (key c) (value c) (expires c) (maxAge c) (domain c) (path c) (secure c)
           (httpOnly c) (extensions c) (hostOnly c) (pathIsDefault c)
           (creation c) v (creationIndex c).
Definition set_creationIndex (v : Z) (c : Cookie) : Cookie :=
  mkCookie (key c) (value c) (expires c) (maxAge c) (domain c) (path c) (secure c)
           (httpOnly c) (extensions c) (hostOnly c) (pathIsDefault c)
           (creation c) (lastAccessed c) v.

(** *** Patterns of the cookie grammar *)

(** [[\x21\x23-\x2B\x2D-\x3A\x3C-\x5B\x5D-\x7E]] *)
Definition COOKIE_OCTET (c : ascii) : bool :=
  (Js.code c =? 33)%nat || Js.in_range 35 43 c || Js.in_range 45 58 c
  || Js.in_range 60 91 c || Js.in_range 93 126 c.

(** [^COOKIE_OCTET+$] *)
Definition COOKIE_OCTETS : Re.t := Re.Seq (Re.Plus COOKIE_OCTET) Re.Eos.

(** [/[\x00-\x1F]/] *)
Definition CONTROL_CHARS : Re.t := Re.Cls (Js.in_range 0 31).

Definition path_value_char (c : ascii) : bool :=
  Js.in_range 32 58 c || Js.in_range 60 126 c.

(** [/[\x20-\x3A\x3C-\x7E]+/]: no anchor on either side. *)
Definition PATH_VALUE : Re.t := Re.Plus path_value_char.

(** [/\.$/] *)
Definition TRAILING_DOT : Re.t := Re.Seq (Re.Lit ".") Re.Eos.

Definition not_eq_semi (c : ascii) : bool :=
  negb (Js.is_char "=" c) && negb (Js.is_char ";" c).

Definition not_terminator (c : ascii) : bool :=
  negb ((Js.code c =? 10)%nat || (Js.code c =? 13)%nat || (Js.code c =? 0)%nat).

(** At the start of the input: groups 1 and 2 hold [[^=;]+], then comes
    [\s*=\s*], and group 3 holds [[^\n\r\0]*]. *)
Definition COOKIE_PAIR : Re.t :=
  Re.Seq (Re.Grp 1 (Re.Grp 2 (Re.Plus not_eq_semi)))
 (Re.Seq (Re.Star Js.is_space)
 (Re.Seq (Re.Lit "=")
 (Re.Seq (Re.Star Js.is_space)
         (Re.Grp 3 (Re.Star not_terminator))))).

(** At the start of the input: an optional group 1 made of an optional
    [=], group 2 holding [[^=;]*], and [\s*=\s*]; then group 3 holds
    [[^\n\r\0]*]. *)
Definition LOOSE_COOKIE_PAIR : Re.t :=
  Re.Seq (Re.Opt (Re.Grp 1
            (Re.Seq (Re.Opt (Re.Lit "="))
            (Re.Seq (Re.Grp 2 (Re.Star not_eq_semi))
            (Re.Seq (Re.Star Js.is_space)
            (Re.Seq (Re.Lit "=") (Re.Star Js.is_space)))))))
         (Re.Grp 3 (Re.Star not_terminator)).

(** [/^-?[0-9]+$/] *)
Definition MAX_AGE_VALUE : Re.t :=
  Re.Seq (Re.Opt (Re.Lit "-")) (Re.Seq (Re.Plus (Js.in_range 48 57)) Re.Eos).

Definition matches (r : Re.t) (s : string) : bool :=
  match Re.exec r s with Some _ => true | None => false end.

(** *** Methods of [Cookie.prototype] *)

(** A JavaScript number that may be infinite. *)
Inductive Num : Type :=
| NegInfinity
| Finite (z : Z)
| PosInfinity.

Definition num_le (a b : Num) : bool :=
  match a, b with
  | NegInfinity, _ => true
  | _, PosInfinity => true
  | Finite x, Finite y => x <=? y
  | _, _ => false
  end.

Definition cdomain `{Imports} (c : Cookie) : option string :=
  match domain c with
  | None => None
  | Some d => canonicalDomain (Some d)
  end.

(** [this.maxAge <= 0], for a [maxAge] that is not [null]. *)
Definition maxAge_le_0 (m : MaxAge) : bool :=
  match m with
  | Seconds n => n <=? 0
  | PlusInfinity => false
  | MinusInfinity => true
  end.

Definition validate `{Imports} (c : Cookie) : bool :=
  if negb (matches COOKIE_OCTETS (value c)) then false
  else if (match expires c with
           | Forever | At _ => false
           | Text s => is_null (parseDate s)
           end) then false
  else if (match maxAge c with
           | Some m => maxAge_le_0 m
           | None => false
           end) then false
  else if (match path c with
           | Some p => negb (Re.test PATH_VALUE p)
           | None => false
           end) then false
  else
    match cdomain c with
    | Some (String _ _ as cd) =>
        if Re.test TRAILING_DOT cd then false
        else if is_null (getPublicSuffix cd) then false
        else true
    | _ => true
    end.

(** [setExpires] with a [Date] ([inl]) or with a string ([inr]). *)
Definition setExpires (exp : Z + string) (c : Cookie) : Cookie :=
  match exp with
  | inl t => set_expires (At t) c
  | inr s => set_expires (match parseDate s with Some t => At t | None => Forever end) c
  end.

Definition setMaxAge (age : Num) (c : Cookie) : Cookie :=
  match age with
  | PosInfinity => set_maxAge (Some PlusInfinity) c
  | NegInfinity => set_maxAge (Some MinusInfinity) c
  | Finite n => set_maxAge (Some (Seconds n)) c
  end.

Definition cookieString (c : Cookie) : string :=
  match key c with
  | EmptyString => value c
  | k => (k ++ "=" ++ value c)%string
  end.

(** [expiryTime(now)]; [clock] is what [new Date()] would read.  [None]
    stands for the [TypeError] of calling [getTime] on a string. *)
Definition expiryTime (now : option Z) (clock : Z) (c : Cookie) : option Num :=
  match maxAge c with
  | Some m =>
      let relativeTo :=
        match now with
        | Some t => t
        | None => match creation c with Some t => t | None => clock end
        end in
      Some (if maxAge_le_0 m then NegInfinity
            else match m with
                 | Seconds n => Finite (relativeTo + n * 1000)
                 | _ => PosInfinity
                 end)
  | None =>
      match expires c with
      | Forever => Some PosInfinity
      | At t => Some (Finite t)
      | Text _ => None
      end
  end.

Definition isPersistent (c : Cookie) : bool :=
  negb (is_null (maxAge c)) || (match expires c with Forever => false | _ => true end).

Definition cookieCompare (objA objB : Cookie) : Z :=
  let aPathLen := match path objA with Some p => Js.len p | None => 0 end in
  let bPathLen := match path objB with Some p => Js.len p | None => 0 end in
  let cmp := bPathLen - aPathLen in
  if negb (cmp =? 0) then cmp
  else
    let aTime := default MAX_TIME (creation objA) in
    let bTime := default MAX_TIME (creation objB) in
    let cmp := aTime - bTime in
    if negb (cmp =? 0) then cmp
    else creationIndex objA - creationIndex objB.

(** [TTL(now)]: the time to live in milliseconds.  [now] is a number of
    milliseconds, as [Date.now()] is: the code computes [now || Date.now()],
    so that no argument and an argument of 0 both give [clock], the
    reading of [Date.now()]. *)
Definition TTL (now : option Z) (clock : Z) (c : Cookie) : Num :=
  let now := match now with
             | Some n => if n =? 0 then clock else n
             | None => clock
             end in
  match maxAge c with
  | Some m =>
      if maxAge_le_0 m then Finite 0
      else match m with
           | Seconds n => Finite (n * 1000)
           | _ => PosInfinity
           end
  | None =>
      match expires c with
      | Forever => PosInfinity
      | At t => Finite (t - now)
      | Text s =>
          match parseDate s with
          | Some t => Finite (t - now)
          | None => PosInfinity
          end
      end
  end.

(** [expiryDate(now)]: the time value of the date it returns; [None] when
    [expiryTime] throws. *)
Definition expiryDate (now : option Z) (clock : Z) (c : Cookie) : option Z :=
  match expiryTime now clock c with
  | None => None
  | Some PosInfinity => Some MAX_TIME
  | Some NegInfinity => Some MIN_TIME
  | Some (Finite millisec) => Some millisec
  end.

(** [toString()]: the format of a [Set-Cookie] header.  A [maxAge] that is
    a number goes through the template as its decimal digits; the
    ['-Infinity'] of [setMaxAge] is printed as it is, the ['Infinity'] is
    left out. *)
Definition toString (c : Cookie) : string :=
  let str := cookieString c in
  let str := match expires c with
             | Forever => str
             | At t => (str ++ "; Expires=" ++ formatDate t)%string
             | Text s => (str ++ "; Expires=" ++ s)%string
             end in
  let str := match maxAge c with
             | Some (Seconds n) => (str ++ "; Max-Age=" ++ Js.show_Z n)%string
             | Some MinusInfinity => (str ++ "; Max-Age=-Infinity")%string
             | Some PlusInfinity | None => str
             end in
  let str := if Js.truthy (domain c) && negb (default false (hostOnly c))
             then (str ++ "; Domain=" ++ default EmptyString (domain c))%string
             else str in
  let str := if Js.truthy (path c)
             then (str ++ "; Path=" ++ default EmptyString (path c))%string
             else str in
  let str := if secure c then (str ++ "; Secure")%string else str in
  let str := if httpOnly c then (str ++ "; HttpOnly")%string else str in
  fold_left (fun str ext => (str ++ "; " ++ ext)%string) (default [] (extensions c)) str.

(** ** The runtime: the heap of cookie objects, the counter of
    [Cookie.cookiesCreated] and the clock *)

Definition loc : Type := nat.

Record Runtime : Type := mkRuntime {
  heap : list Cookie;
  cookiesCreated : Z;
  clock : Z
}.

(** Reading through a reference; a reference to no object reads the
    prototype's defaults. *)
Definition deref (h : list Cookie) (l : loc) : Cookie :=
  default Cookie_prototype (h !! l).

Definition with_heap (h : list Cookie) (rt : Runtime) : Runtime :=
  mkRuntime h (cookiesCreated rt) (clock rt).

(** [new Cookie()] *)
Definition new_Cookie (rt : Runtime) : loc * Runtime :=
  let index := cookiesCreated rt + 1 in
  let c := set_creationIndex index (set_creation (Some (clock rt)) Cookie_prototype) in
  (length (heap rt), mkRuntime (heap rt ++ [c]) index (clock rt)).

(** *** [Cookie.parse] *)

(** The name-value pair of S5.2 step 1: [None] when the pattern does not
    match, else the key and the value before the test on control
    characters. *)
Definition parse_pair (head : string) (loose : bool) : option (string * string) :=
  let pairRe := if loose then LOOSE_COOKIE_PAIR else COOKIE_PAIR in
  match Re.exec pairRe head with
  | None => None
  | Some result =>
      let k := if Js.truthy (Re.get 1 result)
               then Js.trim (default EmptyString (Re.get 2 result))
               else EmptyString in
      Some (k, Js.trim (default EmptyString (Re.get 3 result)))
  end.

(** One turn of the [while] loop over the attributes. *)
Definition parse_av (raw : string) (cookie : Cookie) : Cookie :=
  let av := Js.trim raw in
  match av with
  | EmptyString => cookie
  | _ =>
      let avSep := Js.indexOf av "=" in
      let '(avKey, avValue) :=
        if avSep =? -1 then (av, None)
        else (Js.substr av 0 avSep, Some (Js.slice_from av (avSep + 1))) in
      let avKey := Js.toLowerCase (Js.trim avKey) in
      let avValue := if Js.truthy avValue then option_map Js.trim avValue else avValue in
      if String.eqb avKey "expires" then
        if Js.truthy avValue then
          match parseDate (default EmptyString avValue) with
          | Some exp => set_expires (At exp) cookie
          | None => cookie
          end
        else cookie
      else if String.eqb avKey "max-age" then
        if Js.truthy avValue && matches MAX_AGE_VALUE (default EmptyString avValue) then
          match Js.parseInt (default EmptyString avValue) with
          | Some delta => setMaxAge (Finite delta) cookie
          | None => cookie
          end
        else cookie
      else if String.eqb avKey "domain" then
        if Js.truthy avValue then
          match strip_leading_dot (Js.trim (default EmptyString avValue)) with
          | EmptyString => cookie
          | d => set_domain (Some (Js.toLowerCase d)) cookie
          end
        else cookie
      else if String.eqb avKey "path" then
        set_path (match avValue with
                  | Some (String c _ as v) => if Js.is_char "/" c then Some v else None
                  | _ => None
                  end) cookie
      else if String.eqb avKey "secure" then set_secure true cookie
      else if String.eqb avKey "httponly" then set_httpOnly true cookie
      else set_extensions (Some (default [] (extensions cookie) ++ [av])) cookie
  end.

Definition parse (str : string) (loose : bool) (rt : Runtime) : option loc * Runtime :=
  let str := Js.trim str in
  let firstSemi := Js.indexOf str ";" in
  match parse_pair (if firstSemi =? -1 then str else Js.substr str 0 firstSemi) loose with
  | None => (None, rt)
  | Some (k, v) =>
      let '(l, rt) := new_Cookie rt in
      let cookie := set_value v (set_key k (deref (heap rt) l)) in
      let rt := with_heap (<[l := cookie]> (heap rt)) rt in
      if Re.test CONTROL_CHARS k || Re.test CONTROL_CHARS v then (None, rt)
      else if firstSemi =? -1 then (Some l, rt)
      else
        match Js.trim (Js.slice_from str (firstSemi + 1)) with
        | EmptyString => (Some l, rt)
        | unparsed =>
            let cookieAvs := Js.split (Js.is_char ";") unparsed in
            let cookie := fold_left (fun c av => parse_av av c) cookieAvs cookie in
            (Some l, with_heap (<[l := cookie]> (heap rt)) rt)
        end
  end.

(** ** The jar *)

Inductive Error : Type :=
| ParseError              (* 'Cookie failed to parse' *)
| PublicSuffixError       (* 'Cookie has domain set to a public suffix' *)
| DomainMismatchError     (* 'Cookie not in this host's domain' *)
| HttpOnlyError           (* 'Cookie is HttpOnly and this isn't an HTTP API' *)
| OldHttpOnlyError        (* 'old Cookie is HttpOnly and this isn't an HTTP API' *)
| StoreError (msg : string).

(** The store the jar is given, in its synchronous form: every operation
    has called its completion when it returns.  An operation reads the
    cookie objects through the heap.  [updateCookie] is optional. *)
Class Store (St : Type) : Type := {
  findCookie : list Cookie -> St -> option string -> option string -> string
               -> Error + option loc;
  findCookies : list Cookie -> St -> option string -> option string
                -> Error + list loc;
  putCookie : list Cookie -> St -> loc -> St * option Error;
  updateCookie : option (list Cookie -> St -> loc -> loc -> St * option Error);
  removeCookie : list Cookie -> St -> option string -> option string -> string -> St
}.

Record CookieJar (St : Type) : Type := mkCookieJar {
  store : St;
  rejectPublicSuffixes : bool;
  enableLooseMode : bool
}.
Arguments mkCookieJar {St} _ _ _.
Arguments store {St} _.
Arguments rejectPublicSuffixes {St} _.
Arguments enableLooseMode {St} _.

Definition with_store {St} (s : St) (jar : CookieJar St) : CookieJar St :=
  mkCookieJar s (rejectPublicSuffixes jar) (enableLooseMode jar).

(** The request context: the object [getCookieContext] returns. *)
Record Context : Type := mkContext {
  hostname : option string;
  pathname : option string;
  protocol : option string
}.

Record SetOptions : Type := mkSetOptions {
  so_loose : option bool;
  so_now : option Z;
  so_ignoreError : bool;
  so_http : option bool
}.

Record GetOptions : Type := mkGetOptions {
  go_secure : option bool;
  go_http : option bool;
  go_now : option Z;
  go_expire : option bool;
  go_allPaths : bool;
  go_sort : option bool
}.

(** What [setCookie] passes to its completion: an error, or a [null] error
    with the cookie, or with nothing. *)
Inductive SetResult : Type :=
| SetError (e : Error)
| SetDone (cookie : option loc).

(** [cb(options.ignoreError ? null : err)] *)
Definition reject (options : SetOptions) (err : Error) : SetResult :=
  if so_ignoreError options then SetDone None else SetError err.

(** [options.http === false] *)
Definition http_is_false (http : option bool) : bool :=
  match http with Some false => true | _ => false end.

(** The shim of [setCookie]: a store without [updateCookie] gets one that
    puts the new cookie. *)
Definition store_update {St : Type} `{!Store St} (h : list Cookie) (s : St) (oldCookie newCookie : loc)
  : St * option Error :=
  match updateCookie with
  | Some update => update h s oldCookie newCookie
  | None => putCookie h s newCookie
  end.

(** S5.3 step 6 and the default path of S5.2.4, on the cookie object:
    [None] when the domain does not match. *)
Definition scope_cookie `{Imports} (host : option string) (context : Context) (cookie : Cookie)
  : option Cookie :=
  let scoped :=
    if Js.truthy (domain cookie) then
      if negb (default false (domainMatch host (cdomain cookie) false)) then None
      else Some (if is_null (hostOnly cookie) then set_hostOnly (Some false) cookie
                 else cookie)
    else Some (set_domain host (set_hostOnly (Some true) cookie)) in
  match scoped with
  | None => None
  | Some cookie =>
      Some (if negb (Js.truthy (path cookie))
               || negb (match path cookie with
                        | Some p => match Js.first_char p with
                                    | Some c => Js.is_char "/" c
                                    | None => false
                                    end
                        | None => false
                        end)
            then set_pathIsDefault (Some true)
                   (set_path (Some (defaultPath (pathname context))) cookie)
            else cookie)
  end.

(** The closure [withCookie] of [setCookie], called by [findCookie]. *)
Definition withCookie {St : Type} `{!Store St} (jar : CookieJar St) (rt : Runtime)
           (options : SetOptions) (now : Z) (l : loc)
           (found : Error + option loc) : SetResult * CookieJar St * Runtime :=
  match found with
  | inl error => (SetError error, jar, rt)
  | inr (Some oldLoc) =>
      let oldCookie := deref (heap rt) oldLoc in
      if http_is_false (so_http options) && httpOnly oldCookie
      then (reject options OldHttpOnlyError, jar, rt)
      else
        let cookie := deref (heap rt) l in
        let cookie := set_creation (creation oldCookie) cookie in
        let cookie := set_creationIndex (creationIndex oldCookie) cookie in
        let cookie := set_lastAccessed (Some now) cookie in
        let h := <[l := cookie]> (heap rt) in
        let '(s, er) := store_update h (store jar) oldLoc l in
        (match er with Some e => SetError e | None => SetDone (Some l) end,
         with_store s jar, with_heap h rt)
  | inr None =>
      let cookie := deref (heap rt) l in
      let cookie := set_lastAccessed (Some now) (set_creation (Some now) cookie) in
      let h := <[l := cookie]> (heap rt) in
      let '(s, er) := putCookie h (store jar) l in
      (match er with Some e => SetError e | None => SetDone (Some l) end,
       with_store s jar, with_heap h rt)
  end.

(** S5.3 step 1: a string is parsed, in the loose mode of the options or
    else of the jar; a [Cookie] instance is taken as it is.  A location
    that holds no object is no value of the program: the call fails on it
    as on a string that does not parse, so that every call has a result. *)
Definition incoming {St : Type} (jar : CookieJar St) (rt : Runtime)
           (cookie : string + loc) (options : SetOptions) : option loc * Runtime :=
  let loose := match so_loose options with
               | Some b => b
               | None => enableLooseMode jar
               end in
  match cookie with
  | inl str => parse str loose rt
  | inr l => (match heap rt !! l with Some _ => Some l | None => None end, rt)
  end.

(** [setCookie(cookie, url, options, cb)] with a string ([inl]) or a
    [Cookie] instance ([inr]), the request context and the options; the
    result is what the completion receives, with the jar and the runtime
    after the call. *)
Definition setCookie `{Imports} {St : Type} `{!Store St} (jar : CookieJar St) (rt : Runtime)
           (cookie : string + loc) (context : Context) (options : SetOptions)
  : SetResult * CookieJar St * Runtime :=
  let host := canonicalDomain (hostname context) in
  let '(parsed, rt) := incoming jar rt cookie options in
  match parsed with
  | None => (reject options ParseError, jar, rt)
  | Some l =>
      let now := default (clock rt) (so_now options) in
      let cookie := deref (heap rt) l in
      if rejectPublicSuffixes jar && Js.truthy (domain cookie)
         && is_null (getPublicSuffix (default EmptyString (cdomain cookie)))
      then (reject options PublicSuffixError, jar, rt)
      else
        match scope_cookie host context cookie with
        | None => (reject options DomainMismatchError, jar, rt)
        | Some cookie =>
            let rt := with_heap (<[l := cookie]> (heap rt)) rt in
            if http_is_false (so_http options) && httpOnly cookie
            then (reject options HttpOnlyError, jar, rt)
            else
              withCookie jar rt options now l
                (findCookie (heap rt) (store jar) (domain cookie) (path cookie) (key cookie))
        end
  end.

(** What [matchingCookie] does with one candidate: keep it, drop it, drop
    it and ask the store to remove it, or throw. *)
Inductive Verdict : Type :=
| Keep
| Drop
| Evict
| Throw.

Record Request : Type := mkRequest {
  rq_host : option string;
  rq_path : string;
  rq_secure : bool;
  rq_http : bool;
  rq_now : Z;
  rq_expireCheck : bool;
  rq_allPaths : bool
}.

Definition option_string_eqb (a b : option string) : bool :=
  match a, b with
  | Some x, Some y => String.eqb x y
  | None, None => true
  | _, _ => false
  end.

Definition matchingCookie `{Imports} (rq : Request) (clock : Z) (cookie : Cookie) : Verdict :=
  if (if default false (hostOnly cookie)
      then negb (option_string_eqb (domain cookie) (rq_host rq))
      else negb (default false (domainMatch (rq_host rq) (domain cookie) false)))
  then Drop
  else if negb (rq_allPaths rq) && negb (pathMatch (rq_path rq) (path cookie)) then Drop
  else if secure cookie && negb (rq_secure rq) then Drop
  else if httpOnly cookie && negb (rq_http rq) then Drop
  else if rq_expireCheck rq then
    match expiryTime None clock cookie with
    | None => Throw
    | Some t => if num_le t (Finite (rq_now rq)) then Evict else Keep
    end
  else Keep.

(** [cookies.filter(matchingCookie)]: the kept cookies and the store after
    the removals, or [None] when a call threw. *)
Fixpoint filter_cookies `{Imports} {St : Type} `{!Store St} (rq : Request) (rt : Runtime) (s : St)
         (cookies : list loc) : option (list loc) * St :=
  match cookies with
  | [] => (Some [], s)
  | l :: rest =>
      let cookie := deref (heap rt) l in
      match matchingCookie rq (clock rt) cookie with
      | Throw => (None, s)
      | Evict =>
          filter_cookies rq rt
            (removeCookie (heap rt) s (domain cookie) (path cookie) (key cookie)) rest
      | Drop => filter_cookies rq rt s rest
      | Keep =>
          let '(kept, s') := filter_cookies rq rt s rest in
          (option_map (cons l) kept, s')
      end
  end.

(** [Array.prototype.sort] with a comparison function: a stable sort. *)
Fixpoint sort_insert (h : list Cookie) (l : loc) (sorted : list loc) : list loc :=
  match sorted with
  | [] => [l]
  | x :: rest =>
      if cookieCompare (deref h l) (deref h x) <=? 0
      then l :: sorted
      else x :: sort_insert h l rest
  end.

Definition sort_cookies (h : list Cookie) (cookies : list loc) : list loc :=
  fold_right (sort_insert h) [] cookies.

Definition touch (t : Z) (h : list Cookie) (cookies : list loc) : list Cookie :=
  fold_left (fun h l => <[l := set_lastAccessed (Some t) (deref h l)]> h) cookies h.

Inductive GetResult : Type :=
| GetThrows
| GetError (e : Error)
| GetDone (cookies : list loc).

Definition request_of (context : Context) (options : GetOptions) (host : option string)
           (clock : Z) : Request :=
  mkRequest host
    (match pathname context with
     | Some (String _ _ as p) => p
     | _ => "/"%string
     end)
    (match go_secure options with
     | Some b => b
     | None => match protocol context with
               | Some p => String.eqb p "https:" || String.eqb p "wss:"
               | None => false
               end
     end)
    (default true (go_http options))
    (default clock (go_now options))
    (negb (match go_expire options with Some false => true | _ => false end))
    (go_allPaths options).

Definition getCookies `{Imports} {St : Type} `{!Store St} (jar : CookieJar St) (rt : Runtime)
           (context : Context) (options : GetOptions)
  : GetResult * CookieJar St * Runtime :=
  let host := canonicalDomain (hostname context) in
  let rq := request_of context options host (clock rt) in
  match findCookies (heap rt) (store jar) host
          (if rq_allPaths rq then None else Some (rq_path rq)) with
  | inl err => (GetError err, jar, rt)
  | inr cookies =>
      match filter_cookies rq rt (store jar) cookies with
      | (None, s) => (GetThrows, with_store s jar, rt)
      | (Some cookies, s) =>
          let cookies :=
            if negb (match go_sort options with Some false => true | _ => false end)
            then sort_cookies (heap rt) cookies else cookies in
          (GetDone cookies, with_store s jar,
           with_heap (touch (clock rt) (heap rt) cookies) rt)
      end
  end.

(** ** [getCookieString] *)

(** What [getCookieString] passes to its completion. *)
Inductive StringResult : Type :=
| StringThrows
| StringError (e : Error)
| StringDone (s : string).

(** [list.join(sep)] *)
Fixpoint join (sep : string) (l : list string) : string :=
  match l with
  | [] => EmptyString
  | [x] => x
  | x :: rest => (x ++ sep ++ join sep rest)%string
  end.

(** [getCookieString(url, options, cb)]: the cookies of [getCookies],
    sorted once more, each as [cookieString()], joined by ["; "]. *)
Definition getCookieString `{Imports} {St : Type} `{!Store St} (jar : CookieJar St)
           (rt : Runtime) (context : Context) (options : GetOptions)
  : StringResult * CookieJar St * Runtime :=
  let '(r, jar', rt') := getCookies jar rt context options in
  (match r with
   | GetThrows => StringThrows
   | GetError err => StringError err
   | GetDone cookies =>
       StringDone (join "; " (map (fun l => cookieString (deref (heap rt') l))
                                  (sort_cookies (heap rt') cookies)))
   end, jar', rt').

(** ** The collaborators that are not in [cookie.js] *)

(** Modelled from the spec: [pathMatch] (its file is not part of the
    sources).  "true iff [req_path == cookie_path], OR ([cookie_path] is a
    prefix of [req_path] AND ([cookie_path] ends in [/] OR the next character
    of [req_path] after the prefix is [/]))". *)
Definition spec_pathMatch (reqPath : string) (cookiePath : option string) : bool :=
  match cookiePath with
  | None => false
  | Some cookiePath =>
      String.eqb reqPath cookiePath
      || (String.prefix cookiePath reqPath
          && (String.eqb (Js.substr cookiePath (Js.len cookiePath - 1) 1) "/"
              || String.eqb (Js.substr reqPath (Js.len cookiePath) 1) "/"))
  end.

(** A small stand-in for the IP test of the platform, enough for the worked
    examples: four dot-separated groups of one to three digits. *)
Definition sample_isIP (s : string) : bool :=
  match Js.split (Js.is_char ".") s with
  | [a; b; c; d] =>
      forallb (fun g => matches (Re.Seq (Re.Plus Js.is_digit) Re.Eos) g
                        && (String.length g <=? 3)%nat) [a; b; c; d]
  | _ => false
  end.

(** The suffixes of a host name that start after one of its dots, the
    host itself first. *)
Fixpoint all_suffixes_at_dots (fuel : nat) (d : string) : list string :=
  match fuel with
  | O => []
  | S fuel' =>
      d :: match Js.indexOf d "." with
           | Zneg _ => []
           | i => all_suffixes_at_dots fuel' (Js.slice_from d (i + 1))
           end
  end.

(** A small stand-in for the public-suffix oracle, enough for the worked
    examples: [com], [org], [uk] and [co.uk] are public suffixes, and the
    registrable parent of a name is the suffix with one more label. *)
Definition sample_public_suffixes : list string :=
  ["com"; "org"; "uk"; "co.uk"]%string.

Definition is_sample_suffix (d : string) : bool :=
  existsb (String.eqb d) sample_public_suffixes.

Definition sample_getPublicSuffix (d : string) : option string :=
  let candidates := all_suffixes_at_dots (String.length d + 1) d in
  last (filter (fun x => negb (is_sample_suffix x)
                         && is_sample_suffix (Js.slice_from x (Js.indexOf x "." + 1)))
               candidates).

#[export] Instance sample_imports : Imports := {
  isIP := sample_isIP;
  getPublicSuffix := sample_getPublicSuffix;
  punycode_toASCII := fun s => s;
  pathMatch := spec_pathMatch
}.

(** Modelled from the spec: [permuteDomain] (its file is not part of the
    sources).  "list of [d] and every parent domain up to (but not including)
    the public suffix". *)
Definition permuteDomain `{Imports} (d : string) : list string :=
  match getPublicSuffix d with
  | None => [d]
  | Some registrable =>
      filter (fun x => (String.length registrable <=? String.length x)%nat)
             (all_suffixes_at_dots (String.length d + 1) d)
  end.

(** Modelled from the spec: the in-memory store (its file is not part of the
    sources).  "The in-memory implementation uses a three-level index
    [domain -> path -> key -> Cookie]"; [find] gives "the matching cookie or
    absent", [put] stores under the cookie's identity, [update] is
    "[put(new)]", [remove] is "delete if present", and [find_cookies] gives
    the cookies of every domain in [permute_domain(host)] whose stored path
    is one of [permute_path(request_path)], or of any path when no path is
    asked for. *)
Definition MemoryCookieStore : Type :=
  gmap (option string) (gmap (option string) (gmap string loc)).

Definition mem_find (idx : MemoryCookieStore) (d p : option string) (k : string)
  : option loc :=
  idx !! d ≫= (fun paths => paths !! p ≫= (fun keys => keys !! k)).

Definition mem_put (h : list Cookie) (idx : MemoryCookieStore) (l : loc)
  : MemoryCookieStore :=
  let c := deref h l in
  let paths := default ∅ (idx !! domain c) in
  let keys := default ∅ (paths !! path c) in
  <[domain c := <[path c := <[key c := l]> keys]> paths]> idx.

Definition mem_remove (idx : MemoryCookieStore) (d p : option string) (k : string)
  : MemoryCookieStore :=
  match idx !! d with
  | None => idx
  | Some paths =>
      match paths !! p with
      | None => idx
      | Some keys => <[d := <[p := delete k keys]> paths]> idx
      end
  end.

Definition mem_all_of_domain (paths : gmap (option string) (gmap string loc))
           (wanted : option (list string)) : list loc :=
  flat_map (fun '(p, keys) =>
              if match wanted, p with
                 | None, _ => true
                 | Some ps, Some p => existsb (String.eqb p) ps
                 | Some _, None => false
                 end
              then map snd (map_to_list keys) else [])
           (map_to_list paths).

Definition mem_findCookies `{Imports} (idx : MemoryCookieStore)
           (host p : option string) : list loc :=
  match host with
  | None => []
  | Some host =>
      flat_map (fun d => match idx !! Some d with
                         | Some paths => mem_all_of_domain paths (option_map permutePath p)
                         | None => []
                         end)
               (permuteDomain host)
  end.

#[export] Instance memory_store `{Imports} : Store MemoryCookieStore := {
  findCookie := fun _ idx d p k => inr (mem_find idx d p k);
  findCookies := fun _ idx host p => inr (mem_findCookies idx host p);
  putCookie := fun h idx l => (mem_put h idx l, None);
  updateCookie := Some (fun h idx _ l => (mem_put h idx l, None));
  removeCookie := fun _ idx d p k => mem_remove idx d p k
}.

Definition empty_jar : CookieJar MemoryCookieStore := mkCookieJar ∅ true false.
Definition start : Runtime := mkRuntime [] 0 1000.
Definition no_options : SetOptions := mkSetOptions None None false None.
Definition get_defaults : GetOptions := mkGetOptions None None None None false None.
Definition example_com (p : string) : Context :=
  mkContext (Some "example.com"%string) (Some p) (Some "http:"%string).

(** * The vocabulary of the statements *)

(** ** Domain matching *)

(** [dom] is a proper suffix of [host] and the character of [host] just
    before it is a dot. *)
Definition dot_suffix (host dom : string) : Prop :=
  exists pre, host = (pre ++ "." ++ dom)%string.

(** [dom] occurs in [host] nowhere but at its end. *)
Definition only_at_end (host dom : string) : Prop :=
  forall a b, host = (a ++ dom ++ b)%string -> b = EmptyString.

(** ** What a pattern matches *)

(** [Matches r s s' cs cs']: [r] matches at the start of [s], leaving [s'],
    and extends the captures [cs] to [cs'].  The matcher commits to the
    first such match in its order of preference; what holds of every match
    holds of the one it returns. *)
Inductive Matches : Re.t -> string -> string -> Re.captures -> Re.captures -> Prop :=
| M_Eps s cs : Matches Re.Eps s s cs cs
| M_Cls p c s cs : p c = true -> Matches (Re.Cls p) (String c s) s cs cs
| M_Star_stop p s cs : Matches (Re.Star p) s s cs cs
| M_Star_more p c s s' cs :
    p c = true -> Matches (Re.Star p) s s' cs cs ->
    Matches (Re.Star p) (String c s) s' cs cs
| M_Seq r1 r2 s s1 s2 cs cs1 cs2 :
    Matches r1 s s1 cs cs1 -> Matches r2 s1 s2 cs1 cs2 ->
    Matches (Re.Seq r1 r2) s s2 cs cs2
| M_Alt_l r1 r2 s s' cs cs' : Matches r1 s s' cs cs' -> Matches (Re.Alt r1 r2) s s' cs cs'
| M_Alt_r r1 r2 s s' cs cs' : Matches r2 s s' cs cs' -> Matches (Re.Alt r1 r2) s s' cs cs'
| M_Opt_skip r s cs : Matches (Re.Opt r) s s cs cs
| M_Opt_take r s s' cs cs' : Matches r s s' cs cs' -> Matches (Re.Opt r) s s' cs cs'
| M_Grp n r s s' cs cs' :
    Matches r s s' cs cs' ->
    Matches (Re.Grp n r) s s' cs ((n, Re.consumed s s') :: cs')
| M_Eos cs : Matches Re.Eos EmptyString EmptyString cs cs.

(** ** Tokens of a date *)

Definition digits : list ascii :=
  ["0"; "1"; "2"; "3"; "4"; "5"; "6"; "7"; "8"; "9"]%char.

Definition digit_value (d : ascii) : Z := Js.digit_val d.

Definition two_digits (d1 d2 : ascii) : string := String d1 (String d2 EmptyString).

Definition four_digits (d1 d2 d3 d4 : ascii) : string :=
  String d1 (String d2 (String d3 (String d4 EmptyString))).

Definition whole_match (token : string) : option Re.captures :=
  Some [(0%nat, token); (1%nat, token)].

Definition month_initials : list ascii := ["J"; "F"; "M"; "A"; "S"; "O"; "N"; "D"]%char.

(** What the patterns see of a digit. *)
Record digit_seen (d : ascii) : Prop := {
  seen_digit : Js.is_digit d = true;
  seen_not_digit : not_digit d = false;
  seen_space : Js.is_space d = false;
  seen_colon : Js.is_char ":" d = false;
  seen_letter : forall x, In x month_initials -> Re.ci_char x d = false
}.

Ltac use_digits :=
  repeat match goal with
         | H : digit_seen ?d |- _ =>
             rewrite ?(seen_digit d H), ?(seen_not_digit d H), ?(seen_space d H),
               ?(seen_colon d H);
             rewrite ?(seen_letter d H "J"%char), ?(seen_letter d H "F"%char),
               ?(seen_letter d H "M"%char), ?(seen_letter d H "A"%char),
               ?(seen_letter d H "S"%char), ?(seen_letter d H "O"%char),
               ?(seen_letter d H "N"%char), ?(seen_letter d H "D"%char)
               by (simpl; tauto);
             revert H
         end; intros.

Ltac run_pattern :=
  unfold Re.exec, Re.OneTwo, Re.Lit, Re.Plus;
  repeat (cbn [Re.run Re.star Re.Word_ci fold_right month_names]; use_digits);
  cbn [Nat.eqb String.length];
  repeat match goal with
         | |- context [if ?b then None else None] => destruct b
         end.

Definition in_range_opt (lo hi : Z) (o : option Z) : Prop :=
  forall v, o = Some v -> lo <= v <= hi.

(** What holds of the locals whenever they are set. *)
Record fields_checked (f : DateFields) : Prop := {
  fc_year : forall y, f_year f = Some y -> 1601 <= y;
  fc_day : in_range_opt 1 31 (f_day f);
  fc_month : in_range_opt 0 11 (f_month f);
  fc_time : forall s, f_seconds f = Some s ->
                      s <= 59 /\ exists h m, f_hour f = Some h /\ f_minutes f = Some m
                                             /\ h <= 23 /\ m <= 59
}.

(** ** RFC 1123 dates *)

Definition day_names : list string := NUM_TO_DAY.

Fixpoint Word (w : string) : Re.t :=
  match w with
  | EmptyString => Re.Eps
  | String c w' => Re.Seq (Re.Lit c) (Word w')
  end.

Definition one_of (ws : list string) : Re.t :=
  fold_right (fun w r => Re.Alt (Word w) r) (Re.Cls (fun _ => false)) ws.

Definition D2 : Re.t := Re.Seq (Re.Cls Js.is_digit) (Re.Cls Js.is_digit).

(** The RFC 1123 date of the specification, ["Ddd, DD Mon YYYY HH:MM:SS GMT"]
    with every field at its full width. *)
Definition RFC1123_DATE : Re.t :=
  Re.Seq (one_of day_names)
 (Re.Seq (Word ", ")
 (Re.Seq D2
 (Re.Seq (Re.Lit " ")
 (Re.Seq (one_of month_names)
 (Re.Seq (Re.Lit " ")
 (Re.Seq D2 (Re.Seq D2
 (Re.Seq (Re.Lit " ")
 (Re.Seq D2 (Re.Seq (Re.Lit ":")
 (Re.Seq D2 (Re.Seq (Re.Lit ":")
 (Re.Seq D2 (Re.Seq (Word " GMT") Re.Eos)))))))))))))).

Definition is_rfc1123 (s : string) : bool := matches RFC1123_DATE s.

(** No character class of [r] has the character [c]. *)
Fixpoint excludes (c : ascii) (r : Re.t) : bool :=
  match r with
  | Re.Eps | Re.Eos => true
  | Re.Cls p | Re.Star p => negb (p c)
  | Re.Seq r1 r2 | Re.Alt r1 r2 => excludes c r1 && excludes c r2
  | Re.Opt r1 | Re.Grp _ r1 => excludes c r1
  end.

Fixpoint has_char (c : ascii) (s : string) : bool :=
  match s with
  | EmptyString => false
  | String x s' => Ascii.eqb x c || has_char c s'
  end.

(** ** Validation *)

Fixpoint all_chars (p : ascii -> bool) (s : string) : bool :=
  match s with
  | EmptyString => true
  | String c s' => p c && all_chars p s'
  end.

Fixpoint some_char (p : ascii -> bool) (s : string) : bool :=
  match s with
  | EmptyString => false
  | String c s' => p c || some_char p s'
  end.

Fixpoint ends_with_dot (s : string) : bool :=
  match s with
  | EmptyString => false
  | String c EmptyString => Js.is_char "." c
  | String _ s' => ends_with_dot s'
  end.

Definition non_empty (s : string) : bool :=
  match s with EmptyString => false | String _ _ => true end.

(** The sentence of the specification on [validate], word for word:
    "[value] matches cookie-octets" (empty or a run of them); "[expires] is
    the [Forever] sentinel, a timestamp, or parses as a date"; "[maxAge],
    when present, is [> 0] or a sentinel"; "[path], when present, contains
    only [\x20-\x3A] or [\x3C-\x7E]"; "canonical [domain], when present,
    does not end in [.] and is not itself a public suffix". *)
Definition validate_as_specified `{Imports} (c : Cookie) : bool :=
  all_chars COOKIE_OCTET (value c)
  && match expires c with
     | Forever | At _ => true
     | Text s => negb (is_null (parseDate s))
     end
  && match maxAge c with
     | None => true
     | Some (Seconds n) => 0 <? n
     | Some PlusInfinity | Some MinusInfinity => true
     end
  && match path c with
     | None => true
     | Some p => all_chars path_value_char p
     end
  && match cdomain c with
     | None => true
     | Some cd => negb (ends_with_dot cd) && negb (is_null (getPublicSuffix cd))
     end.

(** What the code asks of each field. *)
Definition value_valid (c : Cookie) : bool :=
  non_empty (value c) && all_chars COOKIE_OCTET (value c).

Definition expires_valid (c : Cookie) : bool :=
  match expires c with
  | Forever | At _ => true
  | Text s => negb (is_null (parseDate s))
  end.

Definition maxAge_valid (c : Cookie) : bool :=
  match maxAge c with
  | None => true
  | Some (Seconds n) => 0 <? n
  | Some PlusInfinity => true
  | Some MinusInfinity => false
  end.

Definition domain_valid `{Imports} (c : Cookie) : bool :=
  match cdomain c with
  | None | Some EmptyString => true
  | Some cd => negb (ends_with_dot cd) && negb (is_null (getPublicSuffix cd))
  end.

(** The path is absent or made of the characters of the path value only:
    the cookies on which the unanchored pattern of the code and the
    anchored one agree. *)
Definition path_chars_only (c : Cookie) : Prop :=
  match path c with
  | None => True
  | Some p => all_chars path_value_char p = true
  end.

(** ** Cookie strings *)

(** The name of an attribute, as the loop of [parse] reads it: what stands
    before the first [=], trimmed and in lower case. *)
Definition av_name (raw : string) : string :=
  let av := Js.trim raw in
  let avSep := Js.indexOf av "=" in
  Js.toLowerCase (Js.trim (if avSep =? -1 then av else Js.substr av 0 avSep)).

(** The attributes of a cookie string: what follows its first semicolon,
    cut at the semicolons. *)
Definition attributes (str : string) : list string :=
  let str := Js.trim str in
  let firstSemi := Js.indexOf str ";" in
  if firstSemi =? -1 then []
  else match Js.trim (Js.slice_from str (firstSemi + 1)) with
       | EmptyString => []
       | unparsed => Js.split (Js.is_char ";") unparsed
       end.

Definition no_Domain_attribute (str : string) : Prop :=
  Forall (fun av => av_name av <> "domain"%string) (attributes str).

(** ** The jar *)

Section JarVocabulary.
Context `{Imports} {St : Type} `{!Store St}.

(** [cookie.path] is present and starts with a slash. *)
Definition path_is_absolute (c : Cookie) : bool :=
  match path c with
  | Some (String x _) => Js.is_char "/" x
  | _ => false
  end.

(** What S5.3 step 6 and S5.2.4 make of the cookie's scope. *)
Definition scoped_hostOnly (c : Cookie) : option bool :=
  if Js.truthy (domain c)
  then (if is_null (hostOnly c) then Some false else hostOnly c)
  else Some true.

Definition scoped_domain (host : option string) (c : Cookie) : option string :=
  if Js.truthy (domain c) then domain c else host.

Definition scoped_path (context : Context) (c : Cookie) : option string :=
  if path_is_absolute c then path c else Some (defaultPath (pathname context)).

Definition scoped_pathIsDefault (c : Cookie) : option bool :=
  if path_is_absolute c then pathIsDefault c else Some true.

(** The cookie with the fields that the jar assigns. *)
Definition assigned (hostOnly' : option bool) (domain' path' : option string)
           (pathIsDefault' : option bool) (creation' lastAccessed' : option Z)
           (creationIndex' : Z) (c : Cookie) : Cookie :=
  mkCookie (key c) (value c) (expires c) (maxAge c) domain' path' (secure c)
           (httpOnly c) (extensions c) hostOnly' pathIsDefault'
           creation' lastAccessed' creationIndex'.

(** The successful runs of [setCookie]: the cookie [l] that comes in (as
    it is, or parsed into a new object, which gives the runtime [rt1]) is
    scoped to [c1] and written back; the store is asked for its identity;
    the cookie gets its times and its index, is written back again, and is
    handed to the store, which reports no error. *)
Inductive accepts (jar : CookieJar St) (rt : Runtime) (cookie : string + loc)
          (context : Context) (options : SetOptions)
          (l : loc) (jar' : CookieJar St) (rt' : Runtime) : Prop :=
| accepts_new rt1 c1 c2 s :
    incoming jar rt cookie options = (Some l, rt1) ->
    scope_cookie (canonicalDomain (hostname context)) context (deref (heap rt1) l)
    = Some c1 ->
    findCookie (<[l := c1]> (heap rt1)) (store jar) (domain c1) (path c1) (key c1)
    = inr None ->
    c2 = set_lastAccessed (Some (default (clock rt1) (so_now options)))
           (set_creation (Some (default (clock rt1) (so_now options))) c1) ->
    putCookie (<[l := c2]> (heap rt1)) (store jar) l = (s, None) ->
    jar' = with_store s jar ->
    rt' = with_heap (<[l := c2]> (heap rt1)) rt1 ->
    accepts jar rt cookie context options l jar' rt'
| accepts_replace rt1 c1 c2 s oldLoc oldCookie :
    incoming jar rt cookie options = (Some l, rt1) ->
    scope_cookie (canonicalDomain (hostname context)) context (deref (heap rt1) l)
    = Some c1 ->
    findCookie (<[l := c1]> (heap rt1)) (store jar) (domain c1) (path c1) (key c1)
    = inr (Some oldLoc) ->
    oldCookie = deref (<[l := c1]> (heap rt1)) oldLoc ->
    c2 = set_lastAccessed (Some (default (clock rt1) (so_now options)))
           (set_creationIndex (creationIndex oldCookie)
              (set_creation (creation oldCookie) c1)) ->
    store_update (<[l := c2]> (heap rt1)) (store jar) oldLoc l = (s, None) ->
    jar' = with_store s jar ->
    rt' = with_heap (<[l := c2]> (heap rt1)) rt1 ->
    accepts jar rt cookie context options l jar' rt'.

Definition scoped (host : option string) (context : Context) (c : Cookie) : Cookie :=
  assigned (scoped_hostOnly c) (scoped_domain host c) (scoped_path context c)
           (scoped_pathIsDefault c) (creation c) (lastAccessed c) (creationIndex c) c.

(** The ways in which a call of [setCookie] breaks the policy: the string
    does not parse; the domain is a public suffix and the jar rejects those;
    the domain does not match the request host; the cookie is [httpOnly]
    and the caller is no HTTP API; the cookie that it would replace is
    [httpOnly] and the caller is no HTTP API. *)
Inductive policy_failure (jar : CookieJar St) (rt : Runtime) (cookie : string + loc)
          (context : Context) (options : SetOptions) : Prop :=
| fails_to_parse str rt1 :
    cookie = inl str ->
    incoming jar rt cookie options = (None, rt1) ->
    policy_failure jar rt cookie context options
| domain_is_public_suffix l rt1 cd :
    incoming jar rt cookie options = (Some l, rt1) ->
    rejectPublicSuffixes jar = true ->
    Js.truthy (domain (deref (heap rt1) l)) = true ->
    cdomain (deref (heap rt1) l) = Some cd ->
    getPublicSuffix cd = None ->
    policy_failure jar rt cookie context options
| domain_mismatch l rt1 :
    incoming jar rt cookie options = (Some l, rt1) ->
    Js.truthy (domain (deref (heap rt1) l)) = true ->
    domainMatch (canonicalDomain (hostname context)) (cdomain (deref (heap rt1) l)) false
    <> Some true ->
    policy_failure jar rt cookie context options
| http_only_set l rt1 :
    incoming jar rt cookie options = (Some l, rt1) ->
    so_http options = Some false ->
    httpOnly (deref (heap rt1) l) = true ->
    policy_failure jar rt cookie context options
| http_only_replaced l rt1 c1 oldLoc :
    incoming jar rt cookie options = (Some l, rt1) ->
    scope_cookie (canonicalDomain (hostname context)) context (deref (heap rt1) l)
    = Some c1 ->
    findCookie (<[l := c1]> (heap rt1)) (store jar) (domain c1) (path c1) (key c1)
    = inr (Some oldLoc) ->
    so_http options = Some false ->
    httpOnly (deref (<[l := c1]> (heap rt1)) oldLoc) = true ->
    policy_failure jar rt cookie context options.

Definition is_policy_error (e : Error) : Prop :=
  match e with
  | StoreError _ => False
  | _ => True
  end.

(** The completion got the error [e], or nothing at all when the caller
    asked for errors to be ignored. *)
Definition rejected_with (options : SetOptions) (e : Error) (r : SetResult) : Prop :=
  r = if so_ignoreError options then SetDone None else SetError e.

(** The four tests of scope, each as the specification words it. *)
Definition host_in_scope (rq : Request) (c : Cookie) : bool :=
  if default false (hostOnly c)
  then option_string_eqb (domain c) (rq_host rq)
  else default false (domainMatch (rq_host rq) (domain c) false).

Definition path_in_scope (rq : Request) (c : Cookie) : bool :=
  rq_allPaths rq || pathMatch (rq_path rq) (path c).

Definition secure_in_scope (rq : Request) (c : Cookie) : bool :=
  implb (secure c) (rq_secure rq).

Definition http_in_scope (rq : Request) (c : Cookie) : bool :=
  implb (httpOnly c) (rq_http rq).

Definition in_scope (rq : Request) (c : Cookie) : bool :=
  host_in_scope rq c && path_in_scope rq c && secure_in_scope rq c && http_in_scope rq c.

(** The expiry time of the cookie can be told: it has a [maxAge], or its
    [expires] is [Forever] or a date. *)
Definition expiry_known (c : Cookie) : bool :=
  match maxAge c, expires c with
  | None, Text _ => false
  | _, _ => true
  end.

(** The expiry check is on and [expiryTime() <= now]. *)
Definition expired (rq : Request) (clock : Z) (c : Cookie) : bool :=
  rq_expireCheck rq
  && match expiryTime None clock c with
     | Some t => num_le t (Finite (rq_now rq))
     | None => false
     end.

Definition kept (rq : Request) (rt : Runtime) (l : loc) : bool :=
  in_scope rq (deref (heap rt) l) && negb (expired rq (clock rt) (deref (heap rt) l)).

Definition evicted (rq : Request) (rt : Runtime) (l : loc) : bool :=
  in_scope rq (deref (heap rt) l) && expired rq (clock rt) (deref (heap rt) l).

(** The removals that the store is asked for, in order. *)
Definition remove_all (rt : Runtime) (s : St) (ls : list loc) : St :=
  fold_left (fun s l => removeCookie (heap rt) s (domain (deref (heap rt) l))
                          (path (deref (heap rt) l)) (key (deref (heap rt) l)))
            ls s.

(** What the jar relies on in its store (the store interface of S5.3): a
    cookie is found by what the store holds, whatever the cookie objects
    have become; and a replacement that succeeds leaves the new cookie at
    its identity and every other identity as it was. *)
Record keeps_one_per_identity : Prop := {
  found_by_the_store : forall h h' s d p k,
    findCookie h s d p k = findCookie h' s d p k;
  update_overwrites : forall h s oldCookie newCookie s' d p k,
    store_update h s oldCookie newCookie = (s', None) ->
    findCookie h s' d p k
    = if decide ((d, p, k) = (domain (deref h newCookie), path (deref h newCookie),
                              key (deref h newCookie)))
      then inr (Some newCookie)
      else findCookie h s d p k
}.

End JarVocabulary.

(** ** The order of [cookieCompare] *)

Definition pathLength (c : Cookie) : Z :=
  match path c with Some p => Js.len p | None => 0 end.

Definition creationTime (c : Cookie) : Z := default MAX_TIME (creation c).

(** [a] may stand before [b] in a list sorted with [cookieCompare]. *)
Definition comes_before (h : list Cookie) (a b : loc) : Prop :=
  cookieCompare (deref h a) (deref h b) <= 0.

(** ** Parsed cookies *)

(** The object that [new Cookie()] makes in the runtime [rt]. *)
Definition fresh_cookie (rt : Runtime) : Cookie :=
  set_creationIndex (cookiesCreated rt + 1)
    (set_creation (Some (clock rt)) Cookie_prototype).

(** The head of a cookie string: what stands before its first semicolon. *)
Definition pair_part (str : string) : string :=
  let str := Js.trim str in
  let firstSemi := Js.indexOf str ";" in
  if firstSemi =? -1 then str else Js.substr str 0 firstSemi.

Definition not_control (c : ascii) : bool := negb (Js.in_range 0 31 c).

(** The values that the attributes of a cookie string can leave in a
    cookie: a path that starts with a slash or none, a domain in lower case
    and not empty or none, an expiry date or none, a finite [maxAge] or
    none. *)
Record attributes_normal (c : Cookie) : Prop := {
  path_normal : match path c with
                | Some p => Js.first_char p = Some "/"%char
                | None => True
                end;
  domain_normal : match domain c with
                  | Some d => d <> EmptyString /\ Js.toLowerCase d = d
                  | None => True
                  end;
  expires_normal : match expires c with Text _ => False | _ => True end;
  maxAge_normal : match maxAge c with
                  | Some PlusInfinity | Some MinusInfinity => False
                  | _ => True
                  end
}.

Definition key_char (c : ascii) : bool := not_eq_semi c && not_control c.

Definition value_char (c : ascii) : bool := negb (Js.is_char ";" c) && not_control c.

(** A key and a value that a cookie string can carry as they are: no
    white space at either end, no control character, no semicolon, and a
    key that is not empty and has no [=]. *)
Record plain_pair (k v : string) : Prop := {
  key_not_empty : k <> EmptyString;
  key_trimmed : Js.trim k = k;
  key_chars : all_chars key_char k = true;
  value_trimmed : Js.trim v = v;
  value_chars : all_chars value_char v = true
}.

(** ** Canonical host names *)

(** A string of US-ASCII characters, [\u0001] to [\u007f]. *)
Definition is_ascii (s : string) : bool := all_chars (Js.in_range 1 127) s.

(** ** Dates as the parser reads them and as [formatDate] prints them *)

(** The time of day that the loop of [parseDate] has found is not
    negative. *)
Record time_not_negative (f : DateFields) : Prop := {
  hour_not_negative : forall h, f_hour f = Some h -> 0 <= h;
  minutes_not_negative : forall m, f_minutes f = Some m -> 0 <= m;
  seconds_not_negative : forall s, f_seconds f = Some s -> 0 <= s
}.

(** The digit of [k], for [k] from 0 to 9. *)
Definition digit (k : Z) : ascii := ascii_of_nat (48 + Z.to_nat k).

(** [hh:mm:ss] *)
Definition time_token (h1 h2 m1 m2 s1 s2 : ascii) : string :=
  String h1 (String h2 (String ":" (String m1 (String m2 (String ":"
    (String s1 (String s2 EmptyString))))))).

(** A piece of text with no delimiter of dates in it. *)
Definition delimiter_free (s : string) : bool :=
  all_chars (fun c => negb (DATE_DELIM c)) s.

(** ** Errors of the store *)

(** The store [s] has reported the error [e] on one of the three calls
    that [setCookie] makes. *)
Definition reported_by_store {St : Type} `{!Store St} (s : St) (e : Error) : Prop :=
  (exists h d p k, findCookie h s d p k = inl e)
  \/ (exists h l, (putCookie h s l).2 = Some e)
  \/ (exists h oldCookie l, (store_update h s oldCookie l).2 = Some e).

(** ** Printed cookies *)

(** A piece of text that can stand as an attribute, or as the value of
    one, in a cookie string: no white space at either end and no
    semicolon. *)
Record attribute_text (s : string) : Prop := {
  text_trimmed : Js.trim s = s;
  text_has_no_semicolon : all_chars (fun c => negb (Js.is_char ";" c)) s = true
}.

(** The names of the attributes that [parse] knows. *)
Definition known_attribute (name : string) : bool :=
  String.eqb name "expires" || String.eqb name "max-age" || String.eqb name "domain"
  || String.eqb name "path" || String.eqb name "secure" || String.eqb name "httponly".

(** The domain that [toString] prints: none for a cookie that is bound to
    its host. *)
Definition printed_domain (c : Cookie) : option string :=
  if Js.truthy (domain c) && negb (default false (hostOnly c)) then domain c else None.

(** The instant without its milliseconds. *)
Definition whole_seconds (e : Expires) : Expires :=
  match e with
  | At t => At (t - t mod 1000)
  | _ => e
  end.

(** The attributes that [toString] appends to [key=value], in order. *)
Definition printed_attributes (c : Cookie) : list string :=
  match expires c with
  | Forever => []
  | At t => [("Expires=" ++ formatDate t)%string]
  | Text s => [("Expires=" ++ s)%string]
  end
  ++ match maxAge c with
     | Some (Seconds n) => [("Max-Age=" ++ Js.show_Z n)%string]
     | Some MinusInfinity => ["Max-Age=-Infinity"%string]
     | Some PlusInfinity | None => []
     end
  ++ match printed_domain c with
     | Some d => [("Domain=" ++ d)%string]
     | None => []
     end
  ++ (if Js.truthy (path c) then [("Path=" ++ default EmptyString (path c))%string]
      else [])
  ++ (if secure c then ["Secure"%string] else [])
  ++ (if httpOnly c then ["HttpOnly"%string] else [])
  ++ default [] (extensions c).

(** A cookie that [toString] prints without loss: a key and a value that
    can stand as they are; a date from the year 1601 to the year 9999 or
    none; a [maxAge] that is an integer which the language prints with all
    its digits, or none; a domain to print that is in lower case and does
    not start with a dot; a path that starts with a slash; extensions that
    do not read as one of the known attributes. *)
Record prints_without_loss (c : Cookie) : Prop := {
  pair_printed : plain_pair (key c) (value c);
  expires_printed : match expires c with
                    | Forever => True
                    | At t => 1601 <= JsDate.YearFromTime t <= 9999
                    | Text _ => False
                    end;
  maxAge_printed : match maxAge c with
                   | None => True
                   | Some (Seconds n) => Z.abs n <= 9007199254740992
                   | Some _ => False
                   end;
  domain_printed : match printed_domain c with
                   | Some d => attribute_text d /\ Js.toLowerCase d = d
                               /\ Js.first_char d <> Some "."%char
                   | None => True
                   end;
  path_printed : match path c with
                 | Some p => attribute_text p /\ Js.first_char p = Some "/"%char
                 | None => True
                 end;
  extensions_printed : match extensions c with
                       | Some exts =>
                           exts <> []
                           /\ Forall (fun ext => attribute_text ext /\ ext <> EmptyString
                                                 /\ known_attribute (av_name ext) = false)
                                     exts
                       | None => True
                       end
}.

(** What [parse] makes in the runtime [rt] of the printed form of [c]. *)
Definition read_back (rt : Runtime) (c : Cookie) : Cookie :=
  mkCookie (key c) (value c) (whole_seconds (expires c)) (maxAge c) (printed_domain c)
           (path c) (secure c) (httpOnly c) (extensions c) None None
           (Some (clock rt)) None (cookiesCreated rt + 1).

(** The text of the attributes [avs] after the name-value pair. *)
Fixpoint attributes_text (avs : list string) : string :=
  match avs with
  | [] => EmptyString
  | av :: rest => ("; " ++ av ++ attributes_text rest)%string
  end.

(** The characters of a printed integer. *)
Definition number_char (c : ascii) : bool := Js.is_digit c || Js.is_char "-" c.

(** ** Worked examples *)

Definition at_time (t : Z) (rt : Runtime) : Runtime :=
  mkRuntime (heap rt) (cookiesCreated rt) t.

Definition https_example_com : Context :=
  mkContext (Some "example.com"%string) (Some "/"%string) (Some "https:"%string).

Definition non_http : SetOptions := mkSetOptions None None false (Some false).

(** The jar and the runtime after a call. *)
Definition after {R : Type} (x : R * CookieJar MemoryCookieStore * Runtime)
  : CookieJar MemoryCookieStore * Runtime := (x.1.2, x.2).

(** ["a=1"] set from [http://example.com/] at time 1000. *)
Definition jar_with_a : CookieJar MemoryCookieStore * Runtime :=
  after (setCookie empty_jar start (inl "a=1"%string) (example_com "/") no_options).

(** A secure cookie that expired in 1970, set from [https://example.com/]. *)
Definition jar_with_expired_secure : CookieJar MemoryCookieStore * Runtime :=
  after (setCookie empty_jar start
           (inl "s=1; Secure; Expires=Thu, 01 Jan 1970 00:00:00 GMT"%string)
           https_example_com no_options).

(** ["a=1; Path=/x"], ["b=2"] and an expired ["c=3"], set from
    [http://example.com/]. *)
Definition jar_with_three : CookieJar MemoryCookieStore * Runtime :=
  let '(j, r) := after (setCookie empty_jar start (inl "a=1; Path=/x"%string)
                          (example_com "/") no_options) in
  let '(j, r) := after (setCookie j r (inl "b=2"%string) (example_com "/") no_options) in
  after (setCookie j r (inl "c=3; Max-Age=0"%string) (example_com "/") no_options).

(** A [Cookie] instance made by the caller, alone in the heap. *)
Definition one_instance : Runtime :=
  mkRuntime [set_creationIndex 1 (set_creation (Some 500)
               (set_value "1" (set_key "a" Cookie_prototype)))] 1 1000.

(** ["a=2"] set at time 2000 over the ["a=1"] of time 1000. *)
#[local] Abbreviation replacing :=
  (setCookie jar_with_a.1 (at_time 2000 jar_with_a.2) (inl "a=2"%string)
             (example_com "/") no_options).

(** ["a=1; Secure"] set from [http://example.com/docs/index.html]. *)
#[local] Abbreviation setting_a :=
  (setCookie empty_jar start (inl "a=1; Secure"%string) (example_com "/docs/index.html")
             no_options).

(** The instance of the caller, set from [http://example.com/]. *)
#[local] Abbreviation setting_instance :=
  (setCookie empty_jar one_instance (inr 0%nat) (example_com "/") no_options).

(** ["a=1; Domain=co.uk"] set from [http://example.com/]. *)
#[local] Abbreviation setting_suffix :=
  (setCookie empty_jar start (inl "a=1; Domain=co.uk"%string) (example_com "/")
             no_options).

(** The request for [http://example.com/x/y] on the jar with the three
    cookies. *)
#[local] Abbreviation getting :=
  (getCookies jar_with_three.1 jar_with_three.2 (example_com "/x/y") get_defaults).

(** The options of a caller who wants the expired cookies too. *)
Definition keep_expired : GetOptions :=
  mkGetOptions None None None (Some false) false None.

Definition www_example_com : Context :=
  mkContext (Some "www.example.com"%string) (Some "/"%string) (Some "http:"%string).

(** ["a=1; Domain=example.com"] set from [http://www.example.com/]. *)
#[local] Abbreviation setting_domain :=
  (setCookie empty_jar start (inl "a=1; Domain=example.com"%string) www_example_com
             no_options).

(** A cookie with every attribute that [toString] prints. *)
Definition printed_example : Cookie :=
  mkCookie "SID" "31d4" (At 784111777123) (Some (Seconds 3600))
           (Some "example.com"%string) (Some "/docs"%string) true true
           (Some ["SameSite=Lax"%string]) None None None None 0.

(** * Properties *)

(** ** Strings *)

Lemma prefix_app (t r : string) : String.prefix t (t ++ r) = true.
Proof.
  induction t as [|c t IH]; simpl.
  - destruct r; reflexivity.
  - destruct (ascii_dec c c); [exact IH | congruence].
Qed.

Lemma prefix_split (t s : string) :
  String.prefix t s = true -> exists r, s = (t ++ r)%string.
Proof.
  revert s; induction t as [|c t IH]; intros s Hp.
  - exists s; reflexivity.
  - destruct s as [|d s]; simpl in Hp; [discriminate|].
    destruct (ascii_dec c d) as [->|]; [|discriminate].
    destruct (IH s Hp) as [r ->]. exists r; reflexivity.
Qed.

Lemma app_length (a b : string) :
  String.length (a ++ b) = (String.length a + String.length b)%nat.
Proof. induction a; simpl; [reflexivity | now rewrite IHa]. Qed.

Lemma app_assoc_s (a b c : string) : ((a ++ b) ++ c = a ++ (b ++ c))%string.
Proof. induction a; simpl; [reflexivity | now rewrite IHa]. Qed.

Lemma app_empty_r (a : string) : (a ++ EmptyString)%string = a.
Proof. induction a; simpl; [reflexivity | now rewrite IHa]. Qed.

Lemma app_inv_head_s (a b c : string) : (a ++ b = a ++ c)%string -> b = c.
Proof. induction a; simpl; intros E; [exact E | injection E; auto]. Qed.

Lemma app_same_length (a b c d : string) :
  (a ++ b = c ++ d)%string -> String.length a = String.length c -> a = c /\ b = d.
Proof.
  revert c; induction a as [|x a IH]; intros [|y c]; simpl; intros E L;
    try discriminate.
  - split; [reflexivity | exact E].
  - injection E as -> E. injection L as L.
    destruct (IH c E L) as [-> ->]. split; reflexivity.
Qed.

(** Where [indexOf] finds [t]: at a position where [t] starts, with no
    start of [t] before it; and [-1] only when [t] starts nowhere. *)
Lemma indexOf_from_found (t s : string) (i : nat) :
  (exists a b, s = (a ++ t ++ b)%string
               /\ Js.indexOf_from i s t = Z.of_nat (i + String.length a)
               /\ forall a' b', s = (a' ++ t ++ b')%string ->
                                (String.length a <= String.length a')%nat)
  \/ (Js.indexOf_from i s t = -1
      /\ forall a' b', s <> (a' ++ t ++ b')%string).
Proof.
  revert i; induction s as [|c s IH]; intros i; cbn [Js.indexOf_from].
  - destruct (String.prefix t EmptyString) eqn:Hp.
    + left. apply prefix_split in Hp as [r Hr].
      exists EmptyString, r. repeat split.
      * exact Hr.
      * f_equal; simpl; lia.
      * intros; simpl; lia.
    + right. split; [reflexivity|].
      intros a' b' E. destruct a'; simpl in E; [|discriminate].
      rewrite E, prefix_app in Hp. discriminate.
  - destruct (String.prefix t (String c s)) eqn:Hp.
    + left. apply prefix_split in Hp as [r Hr].
      exists EmptyString, r. repeat split.
      * exact Hr.
      * f_equal; simpl; lia.
      * intros; simpl; lia.
    + destruct (IH (S i)) as [(a & b & E & Hi & Hmin) | [Hi Hno]].
      * left. exists (String c a), b. repeat split.
        -- simpl. now rewrite E.
        -- rewrite Hi. f_equal. simpl. lia.
        -- intros a' b' E'. destruct a' as [|c' a']; simpl in E'.
           ++ rewrite E', prefix_app in Hp. discriminate.
           ++ injection E' as _ E'. apply Hmin in E'. simpl. lia.
      * right. split; [exact Hi|].
        intros a' b' E'. destruct a' as [|c' a']; simpl in E'.
        -- rewrite E', prefix_app in Hp. discriminate.
        -- injection E' as _ E'. exact (Hno _ _ E').
Qed.

Lemma substring_skip (a b : string) (n : nat) :
  String.substring (String.length a) n (a ++ b) = String.substring 0 n b.
Proof. induction a; simpl; [reflexivity | exact IHa]. Qed.

Lemma substring_take (a b : string) :
  String.substring 0 (String.length a) (a ++ b) = a.
Proof.
  induction a; simpl.
  - destruct b; reflexivity.
  - now rewrite IHa.
Qed.

Lemma last_char_dot (a d : string) :
  (0 < String.length a)%nat ->
  String.substring (String.length a - 1) (Z.to_nat 1) (a ++ d) = "."%string ->
  exists pre, a = (pre ++ ".")%string.
Proof.
  change (Z.to_nat 1) with 1%nat.
  induction a as [|c a IH]; [simpl; lia|]. intros _ Hd.
  destruct a as [|c' a].
  - exists EmptyString. simpl in *.
    destruct d; simpl in Hd; injection Hd as ->; reflexivity.
  - destruct IH as [pre Hpre].
    + simpl; lia.
    + simpl in Hd |- *. now rewrite Nat.sub_0_r.
    + exists (String c pre). simpl. now rewrite Hpre.
Qed.

(** ** Domain matching (S5.1.3) *)

Section DomainMatch.

Context `{Imports}.

Lemma domainMatch_same (host : string) :
  domainMatch (Some host) (Some host) false = Some true.
Proof. unfold domainMatch. now rewrite String.eqb_refl. Qed.

Lemma domainMatch_sound (host dom : string) :
  domainMatch (Some host) (Some dom) false = Some true ->
  host = dom \/ (isIP host = false /\ dom <> EmptyString /\ dot_suffix host dom).
Proof.
  unfold domainMatch.
  destruct (String.eqb host dom) eqn:He.
  { intros _. left. now apply String.eqb_eq. }
  destruct (isIP host) eqn:Hip; [discriminate|].
  unfold Js.indexOf.
  destruct (indexOf_from_found dom host 0) as [(a & b & E & Hi & Hmin) | [Hi _]];
    rewrite Hi; [|discriminate].
  destruct (Z.of_nat (0 + String.length a) <=? 0) eqn:H0; [discriminate|].
  destruct (Js.len host =? Js.len dom + Z.of_nat (0 + String.length a)) eqn:Hl;
    [|discriminate]. cbn [negb].
  destruct (String.eqb (Js.substr host (Z.of_nat (0 + String.length a) - 1) 1) ".")
    eqn:Hd; [|discriminate]. intros _. right.
  apply Z.leb_gt in H0. apply Z.eqb_eq in Hl. apply String.eqb_eq in Hd.
  assert (b = EmptyString) as ->.
  { subst host. unfold Js.len in Hl. rewrite !app_length in Hl.
    destruct b; [reflexivity | simpl in Hl; lia]. }
  rewrite app_empty_r in E.
  split; [reflexivity|]. split.
  - intros ->. specialize (Hmin EmptyString host eq_refl). simpl in Hmin. lia.
  - (* the last character of [a] is the dot *)
    assert (exists pre, a = (pre ++ ".")%string) as [pre ->].
    { apply (last_char_dot a dom); [lia|].
      revert Hd. unfold Js.substr.
      replace (Z.of_nat (0 + String.length a) - 1)
        with (Z.of_nat (String.length a - 1)) by lia.
      replace (Z.of_nat (String.length a - 1) <? 0) with false
        by (symmetry; apply Z.ltb_ge; lia).
      cbn [orb Z.ltb Z.compare]. rewrite Nat2Z.id. now subst host. }
    exists pre. rewrite E. now rewrite app_assoc_s.
Qed.

Lemma domainMatch_complete (host dom : string) :
  isIP host = false -> dom <> EmptyString -> dot_suffix host dom ->
  only_at_end host dom ->
  domainMatch (Some host) (Some dom) false = Some true.
Proof.
  intros Hip Hne [pre E] Hend. unfold domainMatch.
  destruct (String.eqb host dom) eqn:He; [reflexivity|].
  rewrite Hip. unfold Js.indexOf.
  destruct (indexOf_from_found dom host 0) as [(a & b & E' & Hi & _) | [_ Hno]].
  2:{ exfalso. apply (Hno (pre ++ ".")%string EmptyString).
      rewrite app_empty_r, app_assoc_s. exact E. }
  rewrite Hi. pose proof (Hend _ _ E') as ->. rewrite app_empty_r in E'.
  assert (a = (pre ++ ".")%string) as ->.
  { rewrite E, <- app_assoc_s in E'.
    assert (String.length (pre ++ ".") = String.length a) as L.
    { apply (f_equal String.length) in E'. rewrite !app_length in E'.
      rewrite app_length. lia. }
    now destruct (app_same_length _ _ _ _ E' L). }
  assert (Z.of_nat (0 + String.length (pre ++ "."))
          = Z.of_nat (String.length pre) + 1) as ->
    by (rewrite app_length; simpl; lia).
  replace (Z.of_nat (String.length pre) + 1 <=? 0) with false
    by (symmetry; apply Z.leb_gt; lia).
  replace (Js.len host =? Js.len dom + (Z.of_nat (String.length pre) + 1))
    with true.
  2:{ symmetry; apply Z.eqb_eq. unfold Js.len.
      rewrite E', !app_length. simpl. lia. }
  cbn [negb].
  replace (Js.substr host (Z.of_nat (String.length pre) + 1 - 1) 1)
    with "."%string; [reflexivity|].
  unfold Js.substr.
  replace (Z.of_nat (String.length pre) + 1 - 1)
    with (Z.of_nat (String.length pre)) by lia.
  replace (Z.of_nat (String.length pre) <? 0) with false
    by (symmetry; apply Z.ltb_ge; lia).
  cbn [orb Z.ltb Z.compare]. rewrite Nat2Z.id, E, substring_skip. simpl.
  destruct dom; reflexivity.
Qed.

End DomainMatch.

(** ** Regular expressions: what a successful run has matched *)

Lemma star_sound {A} (p : ascii -> bool) (s : string) (k : string -> option A) (res : A) :
  Re.star p s k = Some res ->
  exists s', (forall cs, Matches (Re.Star p) s s' cs cs) /\ k s' = Some res.
Proof.
  induction s as [|c s IH]; simpl; intros Hr.
  - exists EmptyString. split; [intros; constructor | exact Hr].
  - destruct (p c) eqn:Hp.
    + destruct (Re.star p s k) eqn:Hs.
      * injection Hr as ->. destruct (IH eq_refl) as (s' & HM & Hk).
        exists s'. split; [intros; now constructor | exact Hk].
      * exists (String c s). split; [intros; constructor | exact Hr].
    + exists (String c s). split; [intros; constructor | exact Hr].
Qed.

Lemma run_sound (r : Re.t) :
  forall s cs k res,
    Re.run r s cs k = Some res ->
    exists s' cs', Matches r s s' cs cs' /\ k s' cs' = Some res.
Proof.
  induction r as [|p|p|r1 IH1 r2 IH2|r1 IH1 r2 IH2|r IH|n r IH|];
    intros s cs k res Hr; simpl in Hr.
  - exists s, cs. split; [constructor | exact Hr].
  - destruct s as [|c s]; [discriminate|].
    destruct (p c) eqn:Hp; [|discriminate].
    exists s, cs. split; [now constructor | exact Hr].
  - apply star_sound in Hr as (s' & HM & Hk).
    exists s', cs. split; [apply HM | exact Hk].
  - apply IH1 in Hr as (s1 & cs1 & HM1 & Hr).
    apply IH2 in Hr as (s2 & cs2 & HM2 & Hk).
    exists s2, cs2. split; [econstructor; eassumption | exact Hk].
  - destruct (Re.run r1 s cs k) eqn:H1.
    + injection Hr as ->. apply IH1 in H1 as (s' & cs' & HM & Hk).
      exists s', cs'. split; [now apply M_Alt_l | exact Hk].
    + apply IH2 in Hr as (s' & cs' & HM & Hk).
      exists s', cs'. split; [now apply M_Alt_r | exact Hk].
  - match type of Hr with match ?x with _ => _ end = _ => destruct x eqn:H1 end.
    + injection Hr as ->. apply IH in H1 as (s' & cs' & HM & Hk).
      destruct (String.length s' =? String.length s)%nat; [discriminate|].
      exists s', cs'. split; [now apply M_Opt_take | exact Hk].
    + exists s, cs. split; [constructor | exact Hr].
  - apply IH in Hr as (s' & cs' & HM & Hk).
    exists s', ((n, Re.consumed s s') :: cs'). split; [now constructor | exact Hk].
  - destruct s; [|discriminate].
    exists EmptyString, cs. split; [constructor | exact Hr].
Qed.

Lemma exec_sound (r : Re.t) (s : string) (cs : Re.captures) :
  Re.exec r s = Some cs ->
  exists s' cs', Matches r s s' [] cs' /\ cs = (0%nat, Re.consumed s s') :: cs'.
Proof.
  unfold Re.exec. intros Hr. apply run_sound in Hr as (s' & cs' & HM & Hk).
  inversion HM; subst. injection Hk as <-. eauto.
Qed.

(** A match consumes a prefix of its input. *)
Lemma Matches_prefix r s s' cs cs' :
  Matches r s s' cs cs' -> exists u, s = (u ++ s')%string.
Proof.
  induction 1; try (exists EmptyString; reflexivity).
  - exists (String c EmptyString). reflexivity.
  - destruct IHMatches as [u ->]. exists (String c u). reflexivity.
  - destruct IHMatches1 as [u ->], IHMatches2 as [v ->].
    exists (u ++ v)%string. now rewrite app_assoc_s.
  - assumption.
  - assumption.
  - assumption.
  - assumption.
Qed.

Lemma consumed_app (u s' : string) : Re.consumed (u ++ s') s' = u.
Proof.
  unfold Re.consumed. rewrite app_length.
  replace (String.length u + String.length s' - String.length s')%nat
    with (String.length u) by lia.
  apply substring_take.
Qed.

Lemma consumed_all (s : string) : Re.consumed s EmptyString = s.
Proof.
  rewrite <- (app_empty_r s) at 1. apply consumed_app.
Qed.

(** ** The date parser *)

Lemma digit_cases (d : ascii) : Js.is_digit d = true -> In d digits.
Proof.
  destruct d as [[] [] [] [] [] [] [] []]; vm_compute; intros Hd;
    try discriminate; tauto.
Qed.

Lemma digit_not_space (d : ascii) : Js.is_digit d = true -> Js.is_space d = false.
Proof.
  intros Hd. apply digit_cases in Hd. simpl in Hd.
  repeat (destruct Hd as [<-|Hd]; [reflexivity|]). contradiction.
Qed.

Lemma digit_not_sign (d : ascii) :
  Js.is_digit d = true -> Js.is_char "-" d = false /\ Js.is_char "+" d = false.
Proof.
  intros Hd. apply digit_cases in Hd. simpl in Hd.
  repeat (destruct Hd as [<-|Hd]; [split; reflexivity|]). contradiction.
Qed.

(** [parseInt] yields a number on a string that starts with a digit. *)
Lemma parseInt_digit (d : ascii) (rest : string) :
  Js.is_digit d = true ->
  Js.parseInt (String d rest) = Some (Js.digits_from 0 (String d rest)).
Proof.
  intros Hd. unfold Js.parseInt. cbn [Js.trimStart].
  rewrite (digit_not_space d Hd).
  destruct (digit_not_sign d Hd) as [-> ->]. rewrite Hd.
  f_equal. destruct (Js.digits_from 0 (String d rest)); reflexivity.
Qed.

Lemma OneTwo_digits s s' cs cs' :
  Matches (Re.OneTwo Js.is_digit) s s' cs cs' ->
  cs' = cs /\ exists d u, Js.is_digit d = true /\ s = (String d u ++ s')%string.
Proof.
  unfold Re.OneTwo. intros HM.
  inversion HM as [| | | |? ? ? ? ? ? ? ? H1 H2| | | | | |]; subst.
  inversion H1; subst.
  inversion H2 as [| | | | | | |? ? ?|? ? ? ? ? H3| |]; subst.
  - split; [reflexivity|]. exists c, EmptyString. split; [assumption | reflexivity].
  - inversion H3; subst. split; [reflexivity|].
    exists c, (String c0 EmptyString). split; [assumption | reflexivity].
Qed.

Lemma Grp_OneTwo_digits n s s' cs cs' :
  Matches (Re.Grp n (Re.OneTwo Js.is_digit)) s s' cs cs' ->
  exists d u, Js.is_digit d = true /\ s = (String d u ++ s')%string
              /\ cs' = (n, String d u) :: cs.
Proof.
  intros HM. inversion HM; subst.
  match goal with H : Matches (Re.OneTwo _) _ _ _ _ |- _ =>
    apply OneTwo_digits in H as (-> & d & u & Hd & ->) end.
  exists d, u. repeat split; [assumption|].
  now rewrite consumed_app.
Qed.

Lemma Star_captures p s s' cs cs' : Matches (Re.Star p) s s' cs cs' -> cs' = cs.
Proof. inversion 1; reflexivity. Qed.

Lemma Cls_captures p s s' cs cs' : Matches (Re.Cls p) s s' cs cs' -> cs' = cs.
Proof. inversion 1; reflexivity. Qed.

(** The three groups of [TIME] are numbers: [parseInt] is never [NaN] on
    them. *)
Lemma TIME_numbers (token : string) (result : Re.captures) :
  Re.exec TIME token = Some result ->
  exists hour minutes seconds,
    Js.parseInt (default EmptyString (Re.get 1 result)) = Some hour
    /\ Js.parseInt (default EmptyString (Re.get 2 result)) = Some minutes
    /\ Js.parseInt (default EmptyString (Re.get 3 result)) = Some seconds.
Proof.
  intros Hx. apply exec_sound in Hx as (s' & cs' & HM & ->).
  unfold TIME, Re.Lit in HM.
  repeat match goal with
         | H : Matches (Re.Seq _ _) _ _ _ _ |- _ => inversion H; subst; clear H
         end.
  repeat match goal with
         | H : Matches (Re.Grp _ (Re.OneTwo _)) _ _ _ _ |- _ =>
             apply Grp_OneTwo_digits in H as (? & ? & ? & ? & ?); subst
         | H : Matches (Re.Star _) _ _ _ _ |- _ => apply Star_captures in H; subst
         | H : Matches (Re.Cls _) _ _ _ _ |- _ => apply Cls_captures in H; subst
         | H : Matches Re.Eos _ _ _ _ |- _ => inversion H; subst; clear H
         end.
  cbn [Re.get Nat.eqb default]. simpl default.
  do 3 eexists. repeat split; apply parseInt_digit; assumption.
Qed.

(** The result of [DAY_OF_MONTH], read as a string, starts with the digits
    of the day. *)
Lemma DAY_OF_MONTH_number (token : string) (result : Re.captures) :
  Re.exec DAY_OF_MONTH token = Some result ->
  exists day, Js.parseInt (result_to_string result) = Some day.
Proof.
  intros Hx. apply exec_sound in Hx as (s' & cs' & HM & ->).
  unfold DAY_OF_MONTH in HM.
  repeat match goal with
         | H : Matches (Re.Seq _ _) _ _ _ _ |- _ => inversion H; subst; clear H
         end.
  repeat match goal with
         | H : Matches (Re.Grp _ (Re.OneTwo _)) _ _ _ _ |- _ =>
             apply Grp_OneTwo_digits in H as (? & ? & ? & ? & ?); subst
         | H : Matches (Re.Star _) _ _ _ _ |- _ =>
             pose proof (Matches_prefix _ _ _ _ _ H) as [? ->];
             apply Star_captures in H; subst
         | H : Matches Re.Eos _ _ _ _ |- _ => inversion H; subst; clear H
         end.
  unfold result_to_string. cbn [Re.get Nat.eqb default]. simpl default.
  rewrite consumed_all. simpl. eexists. apply parseInt_digit. assumption.
Qed.

(** The match of [YEAR] is a number. *)
Lemma YEAR_number (token : string) (result : Re.captures) :
  Re.exec YEAR token = Some result ->
  exists year, Js.parseInt (default EmptyString (Re.get 0 result)) = Some year.
Proof.
  intros Hx. apply exec_sound in Hx as (s' & cs' & HM & ->).
  unfold YEAR in HM.
  inversion HM as [| | | |? ? ? ? ? ? ? ? H1 H2| | | | | |]; subst.
  inversion H2; subst. inversion H1; subst.
  match goal with H : Matches (Re.Alt _ _) _ _ _ _ |- _ =>
    inversion H; subst; clear H end;
    repeat match goal with
           | H : Matches (Re.Seq _ _) _ _ _ _ |- _ => inversion H; subst; clear H
           end;
    repeat match goal with
           | H : Matches (Re.Cls _) _ _ _ _ |- _ => inversion H; subst; clear H
           end;
    cbn [Re.get Nat.eqb default]; simpl default;
    unfold Re.consumed; simpl; eexists; apply parseInt_digit; assumption.
Qed.

Lemma ci_char_lower (x c : ascii) :
  Re.ci_char x c = true -> Js.lower_char c = Js.lower_char x.
Proof.
  unfold Re.ci_char. intros Hc. apply andb_true_iff in Hc as [Hc _].
  symmetry. now apply Ascii.eqb_eq.
Qed.

(** The group of [MONTH] is one of the twelve names, whatever its case, so
    the table has it. *)
Lemma MONTH_in_table (token : string) (result : Re.captures) :
  Re.exec MONTH token = Some result ->
  exists month,
    assoc (Js.toLowerCase (default EmptyString (Re.get 1 result))) MONTH_TO_NUM
    = Some month /\ 0 <= month <= 11.
Proof.
  intros Hx. apply exec_sound in Hx as (s' & cs' & HM & ->).
  unfold MONTH in HM. cbn [fold_right month_names Re.Word_ci] in HM.
  inversion HM as [| | | | | | | | |? ? ? ? ? ? HA|]; subst. clear HM.
  cbn [Re.get Nat.eqb default]. simpl default.
  repeat match goal with
         | H : Matches (Re.Alt _ _) _ _ _ _ |- _ => inversion H; subst; clear H
         end;
    repeat match goal with
           | H : Matches (Re.Seq _ _) _ _ _ _ |- _ => inversion H; subst; clear H
           | H : Matches Re.Eps _ _ _ _ |- _ => inversion H; subst; clear H
           end;
    repeat match goal with
           | H : Matches (Re.Cls _) _ _ _ _ |- _ => inversion H; subst; clear H
           end;
    try discriminate;
    match goal with
    | |- context [Re.consumed (String ?a (String ?b (String ?c ?s))) ?s] =>
        change (String a (String b (String c s)))
          with (String a (String b (String c EmptyString)) ++ s)%string;
        rewrite consumed_app
    end;
    unfold id; cbn [Js.toLowerCase];
    repeat match goal with
           | H : Re.ci_char _ _ = true |- _ =>
               apply ci_char_lower in H; rewrite H; clear H
           end;
    eexists; (split; [vm_compute; reflexivity | lia]).
Qed.

(** *** Tokens made of digits *)

Lemma digit_is_seen (d : ascii) : Js.is_digit d = true -> digit_seen d.
Proof.
  intros Hd. pose proof (digit_cases d Hd) as Hc. simpl in Hc.
  repeat (destruct Hc as [<-|Hc];
          [split; try reflexivity;
           intros x Hx; simpl in Hx;
           repeat (destruct Hx as [<-|Hx]; [reflexivity|]); contradiction|]).
  contradiction.
Qed.

Lemma digits_not_TIME (token : string) :
  all_chars Js.is_digit token = true -> Re.exec TIME token = None.
Proof.
  intros Hall. unfold TIME.
  destruct token as [|d1 token]; [reflexivity|].
  cbn [all_chars] in Hall. apply andb_true_iff in Hall as [H1 Hall].
  apply digit_is_seen in H1.
  destruct token as [|d2 token]; [run_pattern; reflexivity|].
  cbn [all_chars] in Hall. apply andb_true_iff in Hall as [H2 Hall].
  apply digit_is_seen in H2.
  destruct token as [|d3 token]; [run_pattern; reflexivity|].
  cbn [all_chars] in Hall. apply andb_true_iff in Hall as [H3 Hall].
  apply digit_is_seen in H3.
  run_pattern; reflexivity.
Qed.

Lemma digits_not_MONTH (d : ascii) (token : string) :
  Js.is_digit d = true -> Re.exec MONTH (String d token) = None.
Proof.
  intros Hd. apply digit_is_seen in Hd. unfold MONTH. run_pattern; reflexivity.
Qed.

Lemma four_digits_not_DAY_OF_MONTH (d1 d2 d3 : ascii) (token : string) :
  Js.is_digit d1 = true -> Js.is_digit d2 = true -> Js.is_digit d3 = true ->
  Re.exec DAY_OF_MONTH (String d1 (String d2 (String d3 token))) = None.
Proof.
  intros H1 H2 H3. apply digit_is_seen in H1, H2, H3.
  unfold DAY_OF_MONTH. run_pattern; reflexivity.
Qed.

Lemma two_digits_YEAR (d1 d2 : ascii) :
  Js.is_digit d1 = true -> Js.is_digit d2 = true ->
  Re.exec YEAR (two_digits d1 d2) = whole_match (two_digits d1 d2).
Proof.
  intros H1 H2. apply digit_is_seen in H1, H2.
  unfold YEAR, two_digits. run_pattern; reflexivity.
Qed.

Lemma four_digits_YEAR (d1 d2 d3 d4 : ascii) :
  Js.is_digit d1 = true -> Js.is_digit d2 = true ->
  Js.is_digit d3 = true -> Js.is_digit d4 = true ->
  Re.exec YEAR (four_digits d1 d2 d3 d4) = whole_match (four_digits d1 d2 d3 d4).
Proof.
  intros H1 H2 H3 H4. apply digit_is_seen in H1, H2, H3, H4.
  unfold YEAR, four_digits. run_pattern; reflexivity.
Qed.

Lemma digits_trim (token : string) :
  all_chars Js.is_digit token = true -> Js.trim token = token.
Proof.
  intros Hall. unfold Js.trim.
  assert (Hs : Js.trimStart token = token).
  { destruct token as [|d token]; [reflexivity|]. cbn [all_chars] in Hall.
    apply andb_true_iff in Hall as [Hd _]. cbn [Js.trimStart].
    now rewrite (digit_not_space d Hd). }
  rewrite Hs. clear Hs. induction token as [|d token IH]; [reflexivity|].
  cbn [all_chars] in Hall. apply andb_true_iff in Hall as [Hd Hall].
  cbn [Js.trimEnd]. rewrite (IH Hall), (digit_not_space d Hd).
  destruct token; reflexivity.
Qed.

Lemma digit_value_range (d : ascii) : Js.is_digit d = true -> 0 <= digit_value d <= 9.
Proof.
  intros Hd. apply digit_cases in Hd. simpl in Hd.
  repeat (destruct Hd as [<-|Hd]; [vm_compute; split; discriminate|]). contradiction.
Qed.

Lemma two_digits_parseInt (d1 d2 : ascii) :
  Js.is_digit d1 = true -> Js.is_digit d2 = true ->
  Js.parseInt (two_digits d1 d2) = Some (10 * digit_value d1 + digit_value d2).
Proof.
  intros H1 H2. unfold two_digits. rewrite (parseInt_digit d1 _ H1).
  cbn [Js.digits_from]. rewrite H1, H2. unfold digit_value. f_equal; lia.
Qed.

Lemma four_digits_parseInt (d1 d2 d3 d4 : ascii) :
  Js.is_digit d1 = true -> Js.is_digit d2 = true ->
  Js.is_digit d3 = true -> Js.is_digit d4 = true ->
  Js.parseInt (four_digits d1 d2 d3 d4)
  = Some (1000 * digit_value d1 + 100 * digit_value d2
          + 10 * digit_value d3 + digit_value d4).
Proof.
  intros H1 H2 H3 H4. unfold four_digits. rewrite (parseInt_digit d1 _ H1).
  cbn [Js.digits_from]. rewrite H1, H2, H3, H4. unfold digit_value. f_equal; lia.
Qed.

(** A two-digit token, met when the day is already found and the year is
    not, is the year: 70 to 99 count from 1900 and 0 to 69 from 2000. *)
Lemma two_digit_year_token (f : DateFields) (d1 d2 : ascii) :
  Js.is_digit d1 = true -> Js.is_digit d2 = true ->
  f_year f = None -> f_day f <> None ->
  parseDate_token f (two_digits d1 d2)
  = Next (with_year (let v := 10 * digit_value d1 + digit_value d2 in
                     if 70 <=? v then v + 1900 else v + 2000) f).
Proof.
  intros H1 H2 Hy Hd.
  pose proof (digit_value_range d1 H1). pose proof (digit_value_range d2 H2).
  assert (Hall : all_chars Js.is_digit (two_digits d1 d2) = true)
    by (cbn [all_chars two_digits]; now rewrite H1, H2).
  pose proof (digits_trim _ Hall) as Htrim.
  pose proof (digits_not_TIME _ Hall) as HT.
  pose proof (digits_not_MONTH d1 (String d2 EmptyString) H1) as HM.
  pose proof (two_digits_YEAR d1 d2 H1 H2) as HY.
  pose proof (two_digits_parseInt d1 d2 H1 H2) as HP.
  unfold whole_match, two_digits in *.
  unfold parseDate_token. rewrite Htrim. unfold try_time. rewrite HT.
  replace (if is_null (f_seconds f) then None else None) with (@None Re.captures)
    by (destruct (is_null (f_seconds f)); reflexivity).
  unfold try_day. destruct (f_day f) eqn:Hday; [|congruence]. cbn [is_null].
  unfold try_month. rewrite HM.
  replace (if is_null (f_month f) then None else None) with (@None Re.captures)
    by (destruct (is_null (f_month f)); reflexivity).
  unfold try_year. rewrite Hy. cbn [is_null]. rewrite HY.
  cbn [Re.get Nat.eqb]. simpl default. rewrite HP.
  cbv zeta. unfold adjust_year.
  destruct (70 <=? 10 * digit_value d1 + digit_value d2) eqn:H70.
  - apply Z.leb_le in H70.
    replace (10 * digit_value d1 + digit_value d2 <=? 99) with true
      by (symmetry; apply Z.leb_le; lia).
    cbn [andb].
    replace (10 * digit_value d1 + digit_value d2 + 1900 <? 1601) with false
      by (symmetry; apply Z.ltb_ge; lia).
    reflexivity.
  - apply Z.leb_gt in H70. cbn [andb].
    replace (0 <=? 10 * digit_value d1 + digit_value d2) with true
      by (symmetry; apply Z.leb_le; lia).
    replace (10 * digit_value d1 + digit_value d2 <=? 69) with true
      by (symmetry; apply Z.leb_le; lia).
    cbn [andb].
    replace (10 * digit_value d1 + digit_value d2 + 2000 <? 1601) with false
      by (symmetry; apply Z.ltb_ge; lia).
    reflexivity.
Qed.

(** A four-digit token, met when the year is not found yet, is the year;
    the parse stops there when the year it denotes is below 1601. *)
Lemma four_digit_year_token (f : DateFields) (d1 d2 d3 d4 : ascii) :
  Js.is_digit d1 = true -> Js.is_digit d2 = true ->
  Js.is_digit d3 = true -> Js.is_digit d4 = true ->
  f_year f = None ->
  parseDate_token f (four_digits d1 d2 d3 d4)
  = let year := adjust_year (1000 * digit_value d1 + 100 * digit_value d2
                             + 10 * digit_value d3 + digit_value d4) in
    if year <? 1601 then Return_undefined else Next (with_year year f).
Proof.
  intros H1 H2 H3 H4 Hy.
  assert (Hall : all_chars Js.is_digit (four_digits d1 d2 d3 d4) = true)
    by (cbn [all_chars four_digits]; now rewrite H1, H2, H3, H4).
  pose proof (digits_trim _ Hall) as Htrim.
  pose proof (digits_not_TIME _ Hall) as HT.
  pose proof (four_digits_not_DAY_OF_MONTH d1 d2 d3 (String d4 EmptyString) H1 H2 H3)
    as HD.
  pose proof (digits_not_MONTH d1 (String d2 (String d3 (String d4 EmptyString))) H1)
    as HM.
  pose proof (four_digits_YEAR d1 d2 d3 d4 H1 H2 H3 H4) as HY.
  pose proof (four_digits_parseInt d1 d2 d3 d4 H1 H2 H3 H4) as HP.
  unfold whole_match, four_digits in *.
  unfold parseDate_token. rewrite Htrim. unfold try_time. rewrite HT.
  replace (if is_null (f_seconds f) then None else None) with (@None Re.captures)
    by (destruct (is_null (f_seconds f)); reflexivity).
  unfold try_day. rewrite HD.
  replace (if is_null (f_day f) then None else None) with (@None Re.captures)
    by (destruct (is_null (f_day f)); reflexivity).
  unfold try_month. rewrite HM.
  replace (if is_null (f_month f) then None else None) with (@None Re.captures)
    by (destruct (is_null (f_month f)); reflexivity).
  unfold try_year. rewrite Hy. cbn [is_null]. rewrite HY.
  cbn [Re.get Nat.eqb]. simpl default. rewrite HP.
  reflexivity.
Qed.

(** *** The loop keeps what the steps have checked *)

Lemma no_fields_checked : fields_checked no_fields.
Proof. split; unfold in_range_opt; simpl; intros; discriminate. Qed.

Lemma try_year_checked f token f' :
  fields_checked f -> try_year f token = Next f' -> fields_checked f'.
Proof.
  intros [Hy Hd Hm Ht]. unfold try_year.
  destruct (is_null (f_year f)); [|intros [= <-]; now split].
  destruct (Re.exec YEAR token); [|intros [= <-]; now split].
  destruct (Js.parseInt _); [|discriminate].
  destruct (adjust_year z <? 1601) eqn:Hlt; [discriminate|].
  intros [= <-]. apply Z.ltb_ge in Hlt.
  split; simpl; try assumption. intros y [= <-]. exact Hlt.
Qed.

Lemma try_month_checked f token f' :
  fields_checked f -> try_month f token = Next f' -> fields_checked f'.
Proof.
  intros Hf. unfold try_month.
  destruct (if is_null (f_month f) then Re.exec MONTH token else None) eqn:Hx;
    [|now apply try_year_checked].
  destruct (is_null (f_month f)); [|discriminate].
  destruct (MONTH_in_table _ _ Hx) as (m & -> & Hm).
  intros [= <-]. destruct Hf as [Hy Hd _ Ht].
  split; simpl; try assumption. intros v [= <-]. exact Hm.
Qed.

Lemma try_day_checked f token f' :
  fields_checked f -> try_day f token = Next f' -> fields_checked f'.
Proof.
  intros Hf. unfold try_day.
  destruct (if is_null (f_day f) then Re.exec DAY_OF_MONTH token else None) eqn:Hx;
    [|now apply try_month_checked].
  destruct (Js.parseInt (result_to_string c)) as [day|]; [|discriminate].
  destruct ((day <? 1) || (31 <? day)) eqn:Hr; [discriminate|].
  intros [= <-]. apply orb_false_iff in Hr as [Hlo Hhi].
  apply Z.ltb_ge in Hlo, Hhi. destruct Hf as [Hy _ Hm Ht].
  split; simpl; try assumption. intros v [= <-]. lia.
Qed.

Lemma try_time_checked f token f' :
  fields_checked f -> try_time f token = Next f' -> fields_checked f'.
Proof.
  intros Hf. unfold try_time.
  destruct (if is_null (f_seconds f) then Re.exec TIME token else None) eqn:Hx;
    [|now apply try_day_checked].
  destruct (Js.parseInt _) as [hour|]; [|discriminate].
  destruct (Js.parseInt _) as [minutes|]; [|discriminate].
  destruct (Js.parseInt _) as [seconds|]; [|discriminate].
  destruct ((23 <? hour) || (59 <? minutes) || (59 <? seconds)) eqn:Hr; [discriminate|].
  intros [= <-]. apply orb_false_iff in Hr as [Hr Hs].
  apply orb_false_iff in Hr as [Hh Hmi]. apply Z.ltb_ge in Hh, Hmi, Hs.
  destruct Hf as [Hy Hd Hm _].
  split; simpl; try assumption. intros s [= <-]. split; [lia|].
  exists hour, minutes. repeat split; try reflexivity; lia.
Qed.

Lemma parseDate_token_checked f raw f' :
  fields_checked f -> parseDate_token f raw = Next f' -> fields_checked f'.
Proof.
  intros Hf. unfold parseDate_token.
  destruct (Js.trim raw); [intros [= <-]; exact Hf | now apply try_time_checked].
Qed.

Lemma parseDate_loop_checked tokens : forall f f',
  fields_checked f -> parseDate_loop tokens f = Some f' -> fields_checked f'.
Proof.
  induction tokens as [|raw rest IH]; simpl; intros f f' Hf.
  - intros [= <-]. exact Hf.
  - destruct (parseDate_token f raw) eqn:Ht; [|discriminate].
    apply IH. eapply parseDate_token_checked; eassumption.
Qed.

(** A turn of the loop that leaves [parseDate] leaves every longer run of
    the loop with no result. *)
Lemma parseDate_loop_stops (before after : list string) : forall f f' raw,
  parseDate_loop before f = Some f' ->
  parseDate_token f' raw = Return_undefined ->
  parseDate_loop (before ++ raw :: after) f = None.
Proof.
  induction before as [|t before IH]; simpl; intros f f' raw.
  - intros [= <-] ->. reflexivity.
  - destruct (parseDate_token f t); [|discriminate]. apply IH.
Qed.

(** C7.  [parseDate] is a function from strings to an optional date: it
    gives a date or nothing, and there is nothing else it can do.  A
    two-digit year from 70 to 99 counts from 1900 and one from 0 to 69 from
    2000.  A year below 1601 ends the parse with no result, wherever its
    token stands; a year from 1601 on is kept (so 1600 fails and 1601
    succeeds).  A parse that reaches the end of the tokens with the time,
    the day, the month or the year not found gives no result, and a parse
    that gives a date has found all of them, with a year of 1601 or more. *)
Theorem parseDate_years_and_missing_fields :
  (forall str, parseDate str = None \/ exists date, parseDate str = Some date)
  /\ (forall f d1 d2,
        Js.is_digit d1 = true -> Js.is_digit d2 = true ->
        f_year f = None -> f_day f <> None ->
        parseDate_token f (two_digits d1 d2)
        = Next (with_year (let v := 10 * digit_value d1 + digit_value d2 in
                           if 70 <=? v then v + 1900 else v + 2000) f))
  /\ (forall f0 f before after d1 d2 d3 d4,
        Js.is_digit d1 = true -> Js.is_digit d2 = true ->
        Js.is_digit d3 = true -> Js.is_digit d4 = true ->
        parseDate_loop before f0 = Some f -> f_year f = None ->
        let year := adjust_year (1000 * digit_value d1 + 100 * digit_value d2
                                 + 10 * digit_value d3 + digit_value d4) in
        (year < 1601 ->
         parseDate_loop (before ++ four_digits d1 d2 d3 d4 :: after) f0 = None)
        /\ (1601 <= year ->
            parseDate_token f (four_digits d1 d2 d3 d4) = Next (with_year year f)))
  /\ (forall str date,
        parseDate str = Some date ->
        exists f seconds day month year,
          parseDate_loop (Js.split DATE_DELIM str) no_fields = Some f
          /\ f_seconds f = Some seconds /\ f_day f = Some day
          /\ f_month f = Some month /\ f_year f = Some year
          /\ 1601 <= year
          /\ date = JsDate.UTC year month day (default 0 (f_hour f))
                               (default 0 (f_minutes f)) seconds)
  /\ (forall str f,
        parseDate_loop (Js.split DATE_DELIM str) no_fields = Some f ->
        f_seconds f = None \/ f_day f = None \/ f_month f = None \/ f_year f = None ->
        parseDate str = None)
  /\ parseDate "Mon, 01 Jan 1600 00:00:00 GMT" = None
  /\ parseDate "Mon, 01 Jan 1601 00:00:00 GMT" = Some (-11644473600000).
Proof.
  split; [|split; [|split; [|split; [|split; [|split]]]]].
  - intros str. destruct (parseDate str) as [date|]; [right; now exists date | now left].
  - exact two_digit_year_token.
  - intros f0 f before after d1 d2 d3 d4 H1 H2 H3 H4 Hloop Hy year.
    pose proof (four_digit_year_token f d1 d2 d3 d4 H1 H2 H3 H4 Hy) as Ht.
    cbv zeta in Ht. fold year in Ht. split; intros Hyear.
    + apply (parseDate_loop_stops before after f0 f); [exact Hloop|].
      rewrite Ht. now replace (year <? 1601) with true by (symmetry; apply Z.ltb_lt; lia).
    + rewrite Ht. now replace (year <? 1601) with false by (symmetry; apply Z.ltb_ge; lia).
  - intros str date. unfold parseDate. destruct str as [|c str]; [discriminate|].
    destruct (parseDate_loop _ no_fields) as [f|] eqn:Hloop; [|discriminate].
    pose proof (parseDate_loop_checked _ _ _ no_fields_checked Hloop) as [Hy _ _ _].
    unfold parseDate_finish.
    destruct (f_seconds f) as [seconds|] eqn:Es; [|discriminate].
    destruct (f_day f) as [day|] eqn:Ed; [|discriminate].
    destruct (f_month f) as [month|] eqn:Em; [|discriminate].
    destruct (f_year f) as [year|] eqn:Ey; [|discriminate].
    intros [= <-]. exists f, seconds, day, month, year.
    split; [reflexivity|]. split; [exact Es|]. split; [exact Ed|].
    split; [exact Em|]. split; [exact Ey|]. split; [now apply Hy | reflexivity].
  - intros str f Hloop Hmiss. unfold parseDate. destruct str; [reflexivity|].
    rewrite Hloop. unfold parseDate_finish.
    destruct Hmiss as [-> | [-> | [-> | ->]]]; [reflexivity | | |];
      repeat match goal with |- context [match ?x with _ => _ end] => destruct x end;
      reflexivity.
  - vm_compute. reflexivity.
  - vm_compute. reflexivity.
Qed.

(** The rule of the two-digit year and the floor of 1601 at work on
    concrete tokens: [94] read after the day is 1994, and [1600] ends the
    parse. *)
Lemma parseDate_years_witness :
  parseDate_token (mkDateFields None None None (Some 6) (Some 10) None) "94"
  = Next (mkDateFields None None None (Some 6) (Some 10) (Some 1994))
  /\ parseDate_loop (["06"; "Nov"]%string ++ "1600"%string :: ["08:49:37"%string]) no_fields = None.
Proof.
  destruct parseDate_years_and_missing_fields as (_ & Htwo & Hfour & _).
  split.
  - exact (Htwo (mkDateFields None None None (Some 6) (Some 10) None)
                "9"%char "4"%char eq_refl eq_refl eq_refl ltac:(discriminate)).
  - refine (proj1 (Hfour no_fields
                    (mkDateFields None None None (Some 6) (Some 10) None)
                    ["06"; "Nov"]%string ["08:49:37"%string]
                    "1"%char "6"%char "0"%char "0"%char
                    eq_refl eq_refl eq_refl eq_refl _ eq_refl) _).
    + vm_compute. reflexivity.
    + vm_compute. reflexivity.
Defined.

(** *** The printed form *)

Lemma has_char_app c a b : has_char c (a ++ b) = has_char c a || has_char c b.
Proof.
  induction a as [|x a IH]; simpl; [reflexivity|].
  now rewrite IH, orb_assoc.
Qed.

(** A pattern whose classes all exclude [c] matches no text with [c]. *)
Lemma Matches_excludes c r s s' cs cs' :
  Matches r s s' cs cs' -> excludes c r = true ->
  exists u, s = (u ++ s')%string /\ has_char c u = false.
Proof.
  induction 1; simpl; intros He;
    try (exists EmptyString; split; reflexivity).
  - exists (String c0 EmptyString). split; [reflexivity|]. simpl.
    destruct (Ascii.eqb c0 c) eqn:E; [|reflexivity].
    apply Ascii.eqb_eq in E as ->. now rewrite H in He.
  - destruct (IHMatches He) as (u & -> & Hu).
    exists (String c0 u). split; [reflexivity|]. simpl. rewrite Hu.
    destruct (Ascii.eqb c0 c) eqn:E; [|reflexivity].
    apply Ascii.eqb_eq in E as ->. now rewrite H in He.
  - apply andb_true_iff in He as [He1 He2].
    destruct (IHMatches1 He1) as (u & -> & Hu).
    destruct (IHMatches2 He2) as (v & -> & Hv).
    exists (u ++ v)%string. split; [now rewrite app_assoc_s|].
    now rewrite has_char_app, Hu, Hv.
  - apply andb_true_iff in He as [He1 _]. auto.
  - apply andb_true_iff in He as [_ He2]. auto.
  - auto.
  - auto.
Qed.

Lemma rfc1123_has_no_line_break (s : string) :
  is_rfc1123 s = true -> has_char newline s = false.
Proof.
  unfold is_rfc1123, matches. destruct (Re.exec RFC1123_DATE s) as [cs|] eqn:Hx;
    [intros _ | discriminate].
  apply exec_sound in Hx as (s' & cs' & HM & _).
  assert (s' = EmptyString) as ->.
  { clear - HM. unfold RFC1123_DATE in HM.
    repeat match goal with
           | H : Matches (Re.Seq _ ?r) _ _ _ _ |- _ =>
               lazymatch r with
               | Re.Eos => inversion H; subst; clear H
               | Re.Seq _ _ => inversion H; subst; clear H
               end
           end.
    match goal with H : Matches Re.Eos _ _ _ _ |- _ => now inversion H end. }
  destruct (Matches_excludes newline _ _ _ _ _ HM) as (u & -> & Hu).
  - vm_compute. reflexivity.
  - now rewrite app_empty_r.
Qed.

Lemma formatDate_has_line_break (date : Z) : has_char newline (formatDate date) = true.
Proof.
  unfold formatDate. cbv zeta.
  do 7 (rewrite has_char_app; apply orb_true_iff; right).
  rewrite has_char_app. apply orb_true_iff. left. reflexivity.
Qed.

(** C5 (the code departs from it).  The date that [formatDate] prints is
    never of the form ["Ddd, DD Mon YYYY HH:MM:SS GMT"]: after the year comes
    a line break and four blanks, which the template literal of the source
    carries from one source line to the next.  For the date that
    ["Thu, 01 Jan 1970 00:00:00 GMT"] parses to, the printed text is the one
    below, and it is no RFC 1123 date, while the text that was parsed is
    one; read again, the printed text gives the same instant. *)
Theorem formatDate_breaks_the_line :
  (forall date, is_rfc1123 (formatDate date) = false)
  /\ parseDate "Thu, 01 Jan 1970 00:00:00 GMT" = Some 0
  /\ formatDate 0 = ("Thu, 01 Jan 1970" ++ String newline "    00:00:00 GMT")%string
  /\ is_rfc1123 "Thu, 01 Jan 1970 00:00:00 GMT" = true
  /\ parseDate (formatDate 0) = Some 0.
Proof.
  split; [|split; [|split; [|split]]].
  - intros date. destruct (is_rfc1123 (formatDate date)) eqn:Hr; [|reflexivity].
    apply rfc1123_has_no_line_break in Hr.
    now rewrite formatDate_has_line_break in Hr.
  - vm_compute. reflexivity.
  - vm_compute. reflexivity.
  - vm_compute. reflexivity.
  - vm_compute. reflexivity.
Qed.

(** ** Domain matching: the statement *)




(** The search for the domain stops at its first occurrence in the host: a
    host that has the domain both inside and at its end is not matched,
    though the domain ends it just after a dot. *)
Lemma domainMatch_first_occurrence :
  domainMatch (Some "www.example.com.example.com"%string)
              (Some "example.com"%string) false = Some false
  /\ dot_suffix "www.example.com.example.com" "example.com"
  /\ isIP "www.example.com.example.com" = false.
Proof.
  split; [vm_compute; reflexivity|]. split; [|vm_compute; reflexivity].
  exists "www.example.com"%string. reflexivity.
Qed.

(** ** Validation *)

Lemma star_all {A} (p : ascii -> bool) (s : string) (k : string -> option A) (r : A) :
  all_chars p s = true -> k EmptyString = Some r ->
  (forall c s', k (String c s') = None) ->
  Re.star p s k = Some r.
Proof.
  intros Hall Hk Hn. induction s as [|c s IH]; simpl; [exact Hk|].
  simpl in Hall. apply andb_true_iff in Hall as [-> Hs]. now rewrite (IH Hs).
Qed.

Lemma Star_all p s s' cs cs' :
  Matches (Re.Star p) s s' cs cs' -> exists u, s = (u ++ s')%string /\ all_chars p u = true.
Proof.
  remember (Re.Star p) as r eqn:Hr. induction 1; try discriminate.
  - exists EmptyString. split; reflexivity.
  - injection Hr as ->. destruct (IHMatches eq_refl) as (u & -> & Hu).
    exists (String c u). split; [reflexivity|]. simpl. now rewrite H, Hu.
Qed.

Lemma COOKIE_OCTETS_matches (v : string) :
  matches COOKIE_OCTETS v = non_empty v && all_chars COOKIE_OCTET v.
Proof.
  unfold matches. destruct (Re.exec COOKIE_OCTETS v) as [cs|] eqn:Hx.
  - symmetry. apply exec_sound in Hx as (s' & cs' & HM & _).
    unfold COOKIE_OCTETS, Re.Plus in HM.
    inversion HM as [| | | |? ? ? ? ? ? ? ? H1 H2| | | | | |]; subst.
    inversion H2; subst.
    inversion H1 as [| | | |? ? ? ? ? ? ? ? H3 H4| | | | | |]; subst.
    inversion H3; subst. apply Star_all in H4 as (u & -> & Hu).
    rewrite app_empty_r. simpl. rewrite Hu.
    match goal with X : COOKIE_OCTET _ = true |- _ => now rewrite X end.
  - destruct v as [|c v]; [reflexivity|]. simpl.
    destruct (COOKIE_OCTET c) eqn:Hc; [|reflexivity].
    destruct (all_chars COOKIE_OCTET v) eqn:Hv; [|reflexivity]. exfalso.
    revert Hx. unfold Re.exec, COOKIE_OCTETS, Re.Plus. simpl. rewrite Hc.
    erewrite star_all; [discriminate | exact Hv | reflexivity | reflexivity].
Qed.

Lemma star_total {A} (p : ascii -> bool) (s : string) (k : string -> option A) :
  (forall s', exists r, k s' = Some r) -> exists r, Re.star p s k = Some r.
Proof.
  intros Hk. induction s as [|c s IH]; simpl; [apply Hk|].
  destruct (p c); [|apply Hk].
  destruct IH as [r ->]. now exists r.
Qed.

Lemma PATH_VALUE_test (p : string) :
  Re.test PATH_VALUE p = some_char path_value_char p.
Proof.
  induction p as [|c p IH]; [reflexivity|].
  cbn [Re.test some_char]. rewrite IH.
  unfold Re.exec, PATH_VALUE, Re.Plus. cbn [Re.run].
  destruct (path_value_char c); [|reflexivity].
  destruct (star_total path_value_char p
              (fun s' => Some ((0%nat, Re.consumed (String c p) s') :: [])))
    as [r Hr]; [intros; eauto|].
  unfold Re.captures in *. rewrite Hr. reflexivity.
Qed.

Lemma TRAILING_DOT_test (s : string) : Re.test TRAILING_DOT s = ends_with_dot s.
Proof.
  induction s as [|c s IH]; [reflexivity|].
  cbn [Re.test ends_with_dot]. rewrite IH.
  unfold Re.exec, TRAILING_DOT, Re.Lit. cbn [Re.run].
  destruct s as [|c' s].
  - destruct (Js.is_char "." c); reflexivity.
  - destruct (Js.is_char "." c); reflexivity.
Qed.

Lemma all_some_chars p s : all_chars p s = true -> some_char p s = non_empty s.
Proof.
  destruct s as [|c s]; [reflexivity|]. simpl.
  intros Ha. apply andb_true_iff in Ha as [-> _]. reflexivity.
Qed.




(** The pattern of the path has no anchors: one path character is enough,
    whatever else the path holds. *)
Lemma validate_path_with_control_character :
  validate (set_path (Some (String "/" (String (ascii_of_nat 1) EmptyString)))
             (set_value "1"%string Cookie_prototype)) = true.
Proof. vm_compute. reflexivity. Qed.

(** ** The jar: how [setCookie] succeeds *)

Section Jar.

Context `{Imports} {St : Type} `{!Store St}.

Lemma scope_cookie_fields host context c c' :
  scope_cookie host context c = Some c' ->
  c' = assigned (scoped_hostOnly c) (scoped_domain host c) (scoped_path context c)
                (scoped_pathIsDefault c) (creation c) (lastAccessed c)
                (creationIndex c) c.
Proof.
  unfold scope_cookie, scoped_hostOnly, scoped_domain, scoped_path,
    scoped_pathIsDefault, path_is_absolute, assigned.
  destruct c as [k v e m d p s ho x hoo pd cr la ci];
    cbn -[Js.is_char Js.truthy defaultPath domainMatch].
  destruct (Js.truthy d) eqn:Hd.
  - destruct (negb _); [discriminate|].
    destruct hoo as [b|]; destruct p as [[|y p]|];
      cbn -[Js.is_char Js.truthy defaultPath domainMatch];
      try destruct (Js.is_char "/" y);
      cbn -[Js.is_char Js.truthy defaultPath domainMatch];
      intros [= <-]; reflexivity.
  - destruct p as [[|y p]|];
      cbn -[Js.is_char Js.truthy defaultPath domainMatch];
      try destruct (Js.is_char "/" y);
      cbn -[Js.is_char Js.truthy defaultPath domainMatch];
      intros [= <-]; reflexivity.
Qed.

Lemma reject_not_done options e l : reject options e <> SetDone (Some l).
Proof. unfold reject. destruct (so_ignoreError options); discriminate. Qed.

Lemma insert_insert_heap (h : list Cookie) (l : loc) (a b : Cookie) :
  <[l := b]> (<[l := a]> h) = <[l := b]> h.
Proof. apply list_insert_insert_eq. Qed.

Lemma deref_insert (h : list Cookie) (l : loc) (c : Cookie) :
  (l < length h)%nat -> deref (<[l := c]> h) l = c.
Proof.
  intros Hl. unfold deref. now rewrite list_lookup_insert_eq.
Qed.

Lemma new_Cookie_allocates rt l rt' :
  new_Cookie rt = (l, rt') ->
  l = length (heap rt) /\ length (heap rt') = S (length (heap rt))
  /\ (forall i, (i < length (heap rt))%nat -> heap rt' !! i = heap rt !! i).
Proof.
  unfold new_Cookie. intros [= <- <-]. cbn. split; [reflexivity|]. split.
  - rewrite length_app. simpl. lia.
  - intros i Hi. now rewrite lookup_app_l.
Qed.

(** [parse] allocates at most one object, at the end of the heap, and
    leaves the others as they are; the cookie it returns is that object. *)
Lemma parse_allocates str loose rt r rt' :
  parse str loose rt = (r, rt') ->
  (forall i, (i < length (heap rt))%nat -> heap rt' !! i = heap rt !! i)
  /\ (forall l, r = Some l -> l = length (heap rt)
                /\ length (heap rt') = S (length (heap rt))).
Proof.
  unfold parse.
  destruct (parse_pair _ loose) as [[k v]|]; [|intros [= <- <-]; split; [auto | discriminate]].
  destruct (new_Cookie rt) as [l rt0] eqn:Hn.
  apply new_Cookie_allocates in Hn as (-> & Hlen & Hold).
  set (c0 := set_value v (set_key k (deref (heap rt0) (length (heap rt))))).
  set (h1 := <[length (heap rt) := c0]> (heap rt0)).
  assert (Hlen1 : length h1 = S (length (heap rt))) by (unfold h1; now rewrite length_insert).
  assert (Hold1 : forall i, (i < length (heap rt))%nat -> h1 !! i = heap rt !! i).
  { intros i Hi. unfold h1. rewrite list_lookup_insert_ne by lia. now apply Hold. }
  destruct (Re.test CONTROL_CHARS k || Re.test CONTROL_CHARS v).
  { intros [= <- <-]. split; [exact Hold1 | discriminate]. }
  destruct (Js.indexOf (Js.trim str) ";" =? -1).
  { intros [= <- <-]. split; [exact Hold1|]. intros l [= <-]. now split. }
  destruct (Js.trim (Js.slice_from _ _)).
  { intros [= <- <-]. split; [exact Hold1|]. intros l [= <-]. now split. }
  intros [= <- <-]. cbn. split.
  - intros i Hi. rewrite list_lookup_insert_ne by lia. now apply Hold1.
  - intros l [= <-]. split; [reflexivity|]. now rewrite length_insert.
Qed.

Lemma incoming_allocated (jar : CookieJar St) rt cookie options l rt1 :
  incoming jar rt cookie options = (Some l, rt1) -> (l < length (heap rt1))%nat.
Proof.
  unfold incoming. destruct cookie as [str|l0].
  - intros Hp. apply parse_allocates in Hp as [_ Hl].
    destruct (Hl l eq_refl) as [-> ->]. lia.
  - destruct (heap rt !! l0) eqn:Hl; intros [= <- <-].
    now apply lookup_lt_Some in Hl.
Qed.

(** Every successful run is one of the two above. *)
Lemma setCookie_accepts (jar : CookieJar St) rt cookie context options l jar' rt' :
  setCookie jar rt cookie context options = (SetDone (Some l), jar', rt') ->
  accepts jar rt cookie context options l jar' rt'.
Proof.
  unfold setCookie.
  destruct (incoming jar rt cookie options) as [[l0|] rt1] eqn:Hin.
  2:{ intros [= Hr _ _]. now apply reject_not_done in Hr. }
  destruct (_ && is_null _).
  { intros [= Hr _ _]. now apply reject_not_done in Hr. }
  destruct (scope_cookie _ context _) as [c1|] eqn:Hscope.
  2:{ intros [= Hr _ _]. now apply reject_not_done in Hr. }
  cbn [heap with_heap].
  destruct (http_is_false (so_http options) && httpOnly c1).
  { intros [= Hr _ _]. now apply reject_not_done in Hr. }
  pose proof (incoming_allocated _ _ _ _ _ _ Hin) as Hl0.
  unfold withCookie. cbn [heap with_heap clock].
  destruct (findCookie _ (store jar) _ _ _) as [e|[oldLoc|]] eqn:Hfind.
  - discriminate.
  - destruct (http_is_false (so_http options) && httpOnly _).
    { intros [= Hr _ _]. now apply reject_not_done in Hr. }
    rewrite (deref_insert _ _ _ Hl0), insert_insert_heap.
    destruct (store_update _ (store jar) oldLoc l0) as [s [e|]] eqn:Hup.
    { discriminate. }
    intros [= <- <- <-].
    eapply accepts_replace; try eassumption; try reflexivity.
  - rewrite (deref_insert _ _ _ Hl0), insert_insert_heap.
    destruct (putCookie _ (store jar) l0) as [s [e|]] eqn:Hput.
    { discriminate. }
    intros [= <- <- <-].
    eapply accepts_new; try eassumption; try reflexivity.
Qed.

(** *** What an accepted cookie looks like *)

Lemma parse_keeps_clock str loose rt r rt' :
  parse str loose rt = (r, rt') -> clock rt' = clock rt.
Proof.
  unfold parse, new_Cookie.
  destruct (parse_pair _ loose) as [[k v]|]; [|now intros [= <- <-]].
  cbn -[Re.test Js.indexOf Js.trim Js.slice_from Js.split].
  repeat match goal with
         | |- context [if ?b then _ else _] => destruct b
         | |- context [match ?x with EmptyString => _ | String _ _ => _ end] => destruct x
         end; now intros [= <- <-].
Qed.

Lemma incoming_keeps (jar : CookieJar St) rt cookie options r rt1 :
  incoming jar rt cookie options = (r, rt1) ->
  clock rt1 = clock rt
  /\ (forall i, (i < length (heap rt))%nat -> heap rt1 !! i = heap rt !! i).
Proof.
  unfold incoming. destruct cookie as [str|l0].
  - intros Hp. split; [eapply parse_keeps_clock; eassumption|].
    now apply parse_allocates in Hp as [Hold _].
  - intros [= <- <-]. split; auto.
Qed.

Lemma incoming_instance (jar : CookieJar St) rt l0 options l rt1 :
  incoming jar rt (inr l0) options = (Some l, rt1) ->
  l = l0 /\ rt1 = rt /\ is_Some (heap rt !! l0).
Proof.
  unfold incoming. destruct (heap rt !! l0) eqn:E; intros [= <- <-].
  repeat split. eauto.
Qed.

(** The cookie at the end of a successful run, field by field: the scope
    is the one of S5.3 step 6 and S5.2.4, the rest of the attributes are
    the ones that came in, and the last access is now. *)
Lemma accepts_final (jar : CookieJar St) rt cookie context options l jar' rt' :
  accepts jar rt cookie context options l jar' rt' ->
  exists rt1 creation' creationIndex',
    incoming jar rt cookie options = (Some l, rt1)
    /\ heap rt' = <[l := assigned (scoped_hostOnly (deref (heap rt1) l))
                          (scoped_domain (canonicalDomain (hostname context))
                                         (deref (heap rt1) l))
                          (scoped_path context (deref (heap rt1) l))
                          (scoped_pathIsDefault (deref (heap rt1) l))
                          creation'
                          (Some (default (clock rt) (so_now options)))
                          creationIndex' (deref (heap rt1) l)]> (heap rt1)
    /\ cookiesCreated rt' = cookiesCreated rt1
    /\ (l < length (heap rt1))%nat.
Proof.
  intros [rt1 c1 c2 s Hin Hsc Hf -> Hput -> -> |
          rt1 c1 c2 s oldLoc oldCookie Hin Hsc Hf -> -> Hup -> ->];
    pose proof (incoming_allocated _ _ _ _ _ _ Hin) as Hl;
    destruct (incoming_keeps _ _ _ _ _ _ Hin) as [Hclock _];
    apply scope_cookie_fields in Hsc; subst c1; rewrite Hclock;
    exists rt1; do 2 eexists; (split; [exact Hin|]);
    (split; [reflexivity|]); split; [reflexivity | exact Hl | reflexivity | exact Hl].
Qed.

Lemma lastIndexOf_from_ge (t s : string) (i : nat) :
  Js.lastIndexOf_from i s t = -1 \/ Z.of_nat i <= Js.lastIndexOf_from i s t.
Proof.
  revert i. induction s as [|c s IH]; intros i; cbn [Js.lastIndexOf_from].
  - destruct (String.prefix t EmptyString); [right; lia | now left].
  - destruct (IH (S i)) as [-> | Hge].
    + change (0 <=? -1) with false. cbv iota.
      destruct (String.prefix t (String c s)); [right; lia | now left].
    + replace (0 <=? Js.lastIndexOf_from (S i) s t) with true
        by (symmetry; apply Z.leb_le; lia).
      right. lia.
Qed.

Lemma lastIndexOf_prefix (t s : string) :
  String.prefix t s = true -> 0 <= Js.lastIndexOf s t.
Proof.
  unfold Js.lastIndexOf. intros Hp. destruct s as [|c s]; cbn [Js.lastIndexOf_from].
  - rewrite Hp. lia.
  - destruct (lastIndexOf_from_ge t s 1) as [-> | Hge].
    + change (0 <=? -1) with false. cbv iota. rewrite Hp. lia.
    + replace (0 <=? Js.lastIndexOf_from 1 s t) with true
        by (symmetry; apply Z.leb_le; lia).
      lia.
Qed.

(** The default path starts with a slash, whatever the request path. *)
Lemma defaultPath_absolute (uriPath : option string) :
  Js.first_char (defaultPath uriPath) = Some "/"%char.
Proof.
  unfold defaultPath. destruct uriPath as [[|c p]|]; try reflexivity.
  destruct (negb _) eqn:Hs; [reflexivity|].
  apply negb_false_iff, String.eqb_eq in Hs.
  assert (c = "/"%char) as -> by (cbn in Hs; destruct p; now injection Hs).
  destruct (String.eqb (String "/" p) "/"); [reflexivity|].
  pose proof (lastIndexOf_prefix "/" (String "/" p) (prefix_app "/" p)) as Hge.
  destruct (Js.lastIndexOf (String "/" p) "/" =? 0) eqn:H0; [reflexivity|].
  apply Z.eqb_neq in H0. unfold Js.slice.
  destruct (Z.to_nat (Js.lastIndexOf (String "/" p) "/" - 0)) as [|n] eqn:Hn; [lia|].
  reflexivity.
Qed.

Lemma path_is_absolute_first_char (c : Cookie) :
  path_is_absolute c = true ->
  exists p, path c = Some p /\ Js.first_char p = Some "/"%char.
Proof.
  unfold path_is_absolute. destruct (path c) as [[|x p]|]; try discriminate.
  intros Hx. apply Ascii.eqb_eq in Hx as <-. eexists. split; reflexivity.
Qed.


Lemma parse_av_domain raw c :
  av_name raw <> "domain"%string -> domain (parse_av raw c) = domain c.
Proof.
  unfold av_name, parse_av. cbv zeta.
  destruct (Js.trim raw) as [|x av] eqn:Eav; [reflexivity|].
  destruct (Js.indexOf (String x av) "=" =? -1); cbv iota beta;
    match goal with
    | |- Js.toLowerCase ?k <> _ -> _ => generalize (Js.toLowerCase k); intros name Hn
    end;
    (destruct (String.eqb name "domain") eqn:Ed; [apply String.eqb_eq in Ed; contradiction|]);
    repeat match goal with
           | |- context [if ?b then _ else _] => destruct b
           | |- context [match ?x with _ => _ end] => destruct x
           end; reflexivity.
Qed.

Lemma parse_avs_domain avs c :
  Forall (fun av => av_name av <> "domain"%string) avs ->
  domain (fold_left (fun c av => parse_av av c) avs c) = domain c.
Proof.
  intros Hall. revert c. induction Hall as [|av avs Hav _ IH]; intros c; [reflexivity|].
  cbn [fold_left]. now rewrite IH, parse_av_domain.
Qed.

(** A cookie string with no [Domain] attribute parses to a cookie with no
    domain. *)
Lemma parse_without_Domain str loose rt l rt' :
  parse str loose rt = (Some l, rt') -> no_Domain_attribute str ->
  domain (deref (heap rt') l) = None.
Proof.
  unfold parse, no_Domain_attribute, attributes. cbv zeta.
  destruct (parse_pair _ loose) as [[k v]|]; [|discriminate].
  unfold new_Cookie. cbv zeta.
  set (c := set_creationIndex _ _).
  assert (Hc : deref (heap rt ++ [c]) (length (heap rt)) = c).
  { unfold deref. rewrite lookup_app_r by lia. now rewrite Nat.sub_diag. }
  cbn [heap with_heap]. rewrite Hc.
  assert (Hd : forall x, domain x = None ->
                 domain (deref (<[length (heap rt) := x]> (<[length (heap rt) := set_value v (set_key k c)]> (heap rt ++ [c]))) (length (heap rt))) = None).
  { intros x Hx. unfold deref. rewrite list_lookup_insert_eq; [exact Hx|].
    rewrite length_insert, length_app. simpl. lia. }
  assert (Hd0 : domain (deref (<[length (heap rt) := set_value v (set_key k c)]> (heap rt ++ [c])) (length (heap rt))) = None).
  { unfold deref. rewrite list_lookup_insert_eq; [reflexivity|].
    rewrite length_app. simpl. lia. }
  destruct (Re.test CONTROL_CHARS k || Re.test CONTROL_CHARS v); [discriminate|].
  destruct (Js.indexOf (Js.trim str) ";" =? -1); [intros [= <- <-] _; exact Hd0|].
  destruct (Js.trim (Js.slice_from _ _)) as [|x rest]; [intros [= <- <-] _; exact Hd0|].
  intros [= <- <-] Hall. cbn [heap with_heap]. apply Hd.
  now rewrite parse_avs_domain.
Qed.



(** *** The failures of policy *)

Lemma reject_rejected options e : rejected_with options e (reject options e).
Proof. reflexivity. Qed.

Lemma scope_cookie_mismatch host context c :
  Js.truthy (domain c) = true ->
  domainMatch host (cdomain c) false <> Some true ->
  scope_cookie host context c = None.
Proof.
  intros Hd Hm. unfold scope_cookie. rewrite Hd.
  destruct (domainMatch host (cdomain c) false) as [[|]|]; cbn; congruence.
Qed.

(** C4.  Whenever a call of [setCookie] breaks the policy in one of these
    ways, the completion is called with an error of the policy, or, when
    [options.ignoreError] is set, with no error and no cookie; and the store
    is left as it was. *)
Theorem setCookie_policy_failure (jar : CookieJar St) (rt : Runtime)
        (cookie : string + loc) (context : Context) (options : SetOptions) :
  policy_failure jar rt cookie context options ->
  exists e,
    is_policy_error e
    /\ rejected_with options e (setCookie jar rt cookie context options).1.1
    /\ (setCookie jar rt cookie context options).1.2 = jar.
Proof.
  intros Hfail. unfold setCookie.
  destruct Hfail as [str rt1 _ Hin | l rt1 cd Hin Hrej Hd Hcd Hps | l rt1 Hin Hd Hm
                    | l rt1 Hin Hhttp Hho | l rt1 c1 oldLoc Hin Hsc Hf Hhttp Hho];
    rewrite Hin; cbn [fst snd].
  - exists ParseError. repeat split.
  - rewrite Hrej, Hd, Hcd. cbn [default]. unfold default, id.
    rewrite Hps. cbn. exists PublicSuffixError. repeat split.
  - destruct (_ && is_null _); [exists PublicSuffixError; repeat split|].
    rewrite scope_cookie_mismatch by assumption.
    exists DomainMismatchError. repeat split.
  - destruct (_ && is_null _); [exists PublicSuffixError; repeat split|].
    destruct (scope_cookie _ context _) as [c1|] eqn:Hsc;
      [|exists DomainMismatchError; repeat split].
    apply scope_cookie_fields in Hsc.
    assert (httpOnly c1 = true) as -> by (now subst c1).
    rewrite Hhttp. cbn. exists HttpOnlyError. repeat split.
  - destruct (_ && is_null _); [exists PublicSuffixError; repeat split|].
    rewrite Hsc. cbn [heap with_heap].
    destruct (http_is_false (so_http options) && httpOnly c1);
      [exists HttpOnlyError; repeat split|].
    rewrite Hf. unfold withCookie. cbn [heap with_heap].
    rewrite Hho, Hhttp. cbn. exists OldHttpOnlyError. repeat split.
Qed.

(** ** The jar: which cookies [getCookies] returns *)

Lemma matchingCookie_verdict rq clk c :
  expiry_known c = true ->
  matchingCookie rq clk c
  = if negb (in_scope rq c) then Drop
    else if expired rq clk c then Evict else Keep.
Proof.
  intros Hk. unfold matchingCookie, in_scope, host_in_scope, path_in_scope,
    secure_in_scope, http_in_scope, expired.
  destruct (default false (hostOnly c)).
  - destruct (option_string_eqb (domain c) (rq_host rq)); cbn [negb andb]; [|reflexivity].
    destruct (rq_allPaths rq); cbn [negb andb orb].
    + destruct (secure c), (rq_secure rq), (httpOnly c), (rq_http rq);
        cbn [negb andb implb]; try reflexivity;
        destruct (rq_expireCheck rq); cbn [andb]; try reflexivity;
        unfold expiry_known, expiryTime in *;
        destruct (maxAge c), (expires c); try discriminate;
        try destruct (num_le _ _); reflexivity.
    + destruct (pathMatch (rq_path rq) (path c)); cbn [negb andb]; [|reflexivity].
      destruct (secure c), (rq_secure rq), (httpOnly c), (rq_http rq);
        cbn [negb andb implb]; try reflexivity;
        destruct (rq_expireCheck rq); cbn [andb]; try reflexivity;
        unfold expiry_known, expiryTime in *;
        destruct (maxAge c), (expires c); try discriminate;
        try destruct (num_le _ _); reflexivity.
  - destruct (default false (domainMatch (rq_host rq) (domain c) false));
      cbn [negb andb]; [|reflexivity].
    destruct (rq_allPaths rq); cbn [negb andb orb].
    + destruct (secure c), (rq_secure rq), (httpOnly c), (rq_http rq);
        cbn [negb andb implb]; try reflexivity;
        destruct (rq_expireCheck rq); cbn [andb]; try reflexivity;
        unfold expiry_known, expiryTime in *;
        destruct (maxAge c), (expires c); try discriminate;
        try destruct (num_le _ _); reflexivity.
    + destruct (pathMatch (rq_path rq) (path c)); cbn [negb andb]; [|reflexivity].
      destruct (secure c), (rq_secure rq), (httpOnly c), (rq_http rq);
        cbn [negb andb implb]; try reflexivity;
        destruct (rq_expireCheck rq); cbn [andb]; try reflexivity;
        unfold expiry_known, expiryTime in *;
        destruct (maxAge c), (expires c); try discriminate;
        try destruct (num_le _ _); reflexivity.
Qed.

Lemma filter_cookies_spec rq rt (cookies : list loc) : forall s : St,
  Forall (fun l => expiry_known (deref (heap rt) l) = true) cookies ->
  filter_cookies rq rt s cookies
  = (Some (List.filter (kept rq rt) cookies),
     remove_all rt s (List.filter (evicted rq rt) cookies)).
Proof.
  induction cookies as [|l rest IH]; intros s Hall; [reflexivity|].
  inversion Hall as [|? ? Hl Hrest]; subst.
  cbn [filter_cookies List.filter]. rewrite (matchingCookie_verdict _ _ _ Hl).
  unfold kept, evicted at 1.
  destruct (in_scope rq (deref (heap rt) l)); cbn [negb andb].
  - destruct (expired rq (clock rt) (deref (heap rt) l)); cbn [negb].
    + rewrite IH by assumption. reflexivity.
    + rewrite IH by assumption. reflexivity.
  - now rewrite IH.
Qed.

Lemma sort_insert_perm h l sorted : sort_insert h l sorted ≡ₚ l :: sorted.
Proof.
  induction sorted as [|x rest IH]; cbn [sort_insert]; [reflexivity|].
  destruct (_ <=? 0); [reflexivity|]. rewrite IH. apply Permutation_swap.
Qed.

Lemma sort_cookies_perm h ls : sort_cookies h ls ≡ₚ ls.
Proof.
  induction ls as [|l rest IH]; [reflexivity|].
  unfold sort_cookies in *. cbn [fold_right]. rewrite sort_insert_perm.
  now rewrite IH.
Qed.

(** C2, as the code has it.  When the store gives its candidates and the
    expiry time of each can be told, [getCookies] gives to its completion
    the candidates that are in scope -- host, path, secure and http-only, as
    the specification words them -- and that are not expired: in the order
    of the store when [options.sort] is [false], in some order otherwise.
    The candidates that are in scope and expired are the ones whose removal
    the store is asked for, one after the other; a candidate out of scope is
    dropped whether expired or not, and the store keeps it. *)
Theorem getCookies_filters (jar : CookieJar St) (rt : Runtime) (context : Context)
        (options : GetOptions) (candidates : list loc) :
  let host := canonicalDomain (hostname context) in
  let rq := request_of context options host (clock rt) in
  findCookies (heap rt) (store jar) host
              (if rq_allPaths rq then None else Some (rq_path rq)) = inr candidates ->
  Forall (fun l => expiry_known (deref (heap rt) l) = true) candidates ->
  exists cookies rt',
    getCookies jar rt context options
    = (GetDone cookies,
       with_store (remove_all rt (store jar) (List.filter (evicted rq rt) candidates)) jar,
       rt')
    /\ cookies ≡ₚ List.filter (kept rq rt) candidates
    /\ (go_sort options = Some false -> cookies = List.filter (kept rq rt) candidates).
Proof.
  intros host rq Hfind Hknown. unfold getCookies. fold host. fold rq.
  rewrite Hfind, (filter_cookies_spec rq rt candidates (store jar) Hknown).
  do 2 eexists. split; [reflexivity|]. split.
  - destruct (negb _); [apply sort_cookies_perm | reflexivity].
  - now intros ->.
Qed.

End Jar.

(** ** The in-memory store *)

Lemma mem_find_put (h : list Cookie) (idx : MemoryCookieStore) (l : loc)
      (d p : option string) (k : string) :
  mem_find (mem_put h idx l) d p k
  = if decide ((d, p, k) = (domain (deref h l), path (deref h l), key (deref h l)))
    then Some l else mem_find idx d p k.
Proof.
  unfold mem_find, mem_put, MemoryCookieStore in *.
  set (c := deref h l).
  destruct (decide (d = domain c)) as [->|Hd].
  - rewrite lookup_insert_eq. cbn [mbind option_bind].
    destruct (decide (p = path c)) as [->|Hp].
    + rewrite lookup_insert_eq. cbn [mbind option_bind].
      destruct (decide (k = key c)) as [->|Hk].
      * rewrite lookup_insert_eq. now rewrite decide_True.
      * rewrite lookup_insert_ne by congruence.
        rewrite decide_False by congruence.
        destruct (idx !! domain c) as [paths|]; cbn; [|now rewrite lookup_empty].
        destruct (paths !! path c) as [keys|]; cbn; [reflexivity | now rewrite lookup_empty].
    + rewrite lookup_insert_ne by congruence.
      rewrite decide_False by congruence.
      destruct (idx !! domain c) as [paths|]; cbn; [reflexivity | now rewrite lookup_empty].
  - rewrite lookup_insert_ne by congruence.
    now rewrite decide_False by congruence.
Qed.

Lemma memory_store_keeps_one `{Imports} :
  keeps_one_per_identity (St := MemoryCookieStore).
Proof.
  split.
  - reflexivity.
  - intros h s oldCookie newCookie s' d p k.
    cbn [store_update updateCookie findCookie memory_store]. intros [= <-].
    rewrite mem_find_put. now destruct (decide _).
Qed.

(** ** Replacing a cookie *)

(** C1.  For a store that keeps one cookie for an identity: when
    [setCookie] succeeds for a cookie whose identity [(domain, path, key)]
    was that of a cookie [old] of the store, the store holds the new cookie
    at that identity and is unchanged at every other; the new cookie has
    the creation time and the creation index of [old], and its last access
    is now, which is [options.now] when the caller gives it and the reading
    of the clock otherwise. *)
Theorem setCookie_replaces_same_identity `{Imports} {St : Type} `{!Store St}
        (jar : CookieJar St) (rt : Runtime) (cookie : string + loc)
        (context : Context) (options : SetOptions)
        (l : loc) (jar' : CookieJar St) (rt' : Runtime) (old : loc) :
  keeps_one_per_identity (St := St) ->
  setCookie jar rt cookie context options = (SetDone (Some l), jar', rt') ->
  is_Some (heap rt !! old) ->
  findCookie (heap rt) (store jar) (domain (deref (heap rt') l))
             (path (deref (heap rt') l)) (key (deref (heap rt') l))
  = inr (Some old) ->
  findCookie (heap rt') (store jar') (domain (deref (heap rt') l))
             (path (deref (heap rt') l)) (key (deref (heap rt') l))
  = inr (Some l)
  /\ (forall d p k,
        (d, p, k) <> (domain (deref (heap rt') l), path (deref (heap rt') l),
                      key (deref (heap rt') l)) ->
        findCookie (heap rt') (store jar') d p k = findCookie (heap rt) (store jar) d p k)
  /\ creation (deref (heap rt') l) = creation (deref (heap rt) old)
  /\ creationIndex (deref (heap rt') l) = creationIndex (deref (heap rt) old)
  /\ lastAccessed (deref (heap rt') l)
     = Some (match so_now options with Some t => t | None => clock rt end).
Proof.
  intros [Hheap Hover] Hset Hold Hfind. apply setCookie_accepts in Hset.
  assert (Hnow : default (clock rt) (so_now options)
                 = match so_now options with Some t => t | None => clock rt end)
    by (destruct (so_now options); reflexivity).
  destruct Hset as [rt1 c1 c2 s Hin Hsc Hf -> Hput -> -> |
                    rt1 c1 c2 s oldLoc oldCookie Hin Hsc Hf -> -> Hup -> ->];
    pose proof (incoming_allocated _ _ _ _ _ _ Hin) as Hl;
    destruct (incoming_keeps _ _ _ _ _ _ Hin) as [Hclock Hsame];
    cbn [heap with_heap store with_store] in *;
    rewrite deref_insert in * by exact Hl;
    rewrite (Hheap _ (heap rt)) in Hf.
  - (* the store had no cookie of that identity *)
    cbn in Hfind. congruence.
  - cbn [domain path key set_lastAccessed set_creationIndex set_creation
         creation creationIndex lastAccessed] in *.
    assert (oldLoc = old) as -> by congruence.
    assert (Hid : forall x, deref (<[l := x]> (heap rt1)) l = x)
      by (intros; now apply deref_insert).
    split; [|split; [|split; [|split]]].
    + rewrite (Hover _ _ _ _ _ _ _ _ Hup), Hid. cbn. now rewrite decide_True.
    + intros d p k Hne. rewrite (Hover _ _ _ _ _ _ _ _ Hup), Hid. cbn.
      rewrite decide_False by exact Hne. apply Hheap.
    + destruct Hold as [o Ho]. unfold deref at 1 2.
      destruct (decide (old = l)) as [->|Hne].
      * rewrite list_lookup_insert_eq by exact Hl.
        apply scope_cookie_fields in Hsc. rewrite Hsc. cbn.
        unfold deref. now rewrite Hsame by (now apply lookup_lt_Some in Ho).
      * rewrite list_lookup_insert_ne by congruence.
        now rewrite Hsame by (now apply lookup_lt_Some in Ho).
    + destruct Hold as [o Ho]. unfold deref at 1 2.
      destruct (decide (old = l)) as [->|Hne].
      * rewrite list_lookup_insert_eq by exact Hl.
        apply scope_cookie_fields in Hsc. rewrite Hsc. cbn.
        unfold deref. now rewrite Hsame by (now apply lookup_lt_Some in Ho).
      * rewrite list_lookup_insert_ne by congruence.
        now rewrite Hsame by (now apply lookup_lt_Some in Ho).
    + now rewrite Hclock, Hnow.
Qed.

(** ** Worked examples with the in-memory store *)

Lemma triple_eta {A B C : Type} (x : A * B * C) : x = (x.1.1, x.1.2, x.2).
Proof. destruct x as [[a b] c]. reflexivity. Qed.

Lemma pair_inv {A B : Type} {a a' : A} {b b' : B} :
  (a, b) = (a', b') -> a = a' /\ b = b'.
Proof. intros [= -> ->]. split; reflexivity. Qed.

Lemma triple_inv {A B C : Type} {a a' : A} {b b' : B} {c c' : C} :
  (a, b, c) = (a', b', c') -> a = a' /\ b = b' /\ c = c'.
Proof. intros [= -> -> ->]. repeat split. Qed.

(** A run of [setCookie] whose completion gets the cookie [l], as an
    equation between the call and its three results. *)
Lemma setCookie_run `{Imports} {St : Type} `{!Store St} (jar : CookieJar St) rt cookie
      context options l :
  (setCookie jar rt cookie context options).1.1 = SetDone (Some l) ->
  setCookie jar rt cookie context options
  = (SetDone (Some l), (setCookie jar rt cookie context options).1.2,
     (setCookie jar rt cookie context options).2).
Proof. intros Hr. rewrite <- Hr. apply triple_eta. Qed.

(** ["a=2"] set at time 2000 over ["a=1"] of time 1000, with the in-memory
    store: the store has the new cookie, with the creation time and index
    of the old one. *)
Lemma setCookie_replaces_witness :
  findCookie (heap replacing.2) (store replacing.1.2)
             (Some "example.com"%string) (Some "/"%string) "a"
  = inr (Some 1%nat)
  /\ value (deref (heap replacing.2) 1%nat) = "2"%string
  /\ creation (deref (heap replacing.2) 1%nat) = Some 1000
  /\ creationIndex (deref (heap replacing.2) 1%nat) = 1
  /\ lastAccessed (deref (heap replacing.2) 1%nat) = Some 2000.
Proof.
  assert (Hr : replacing.1.1 = SetDone (Some 1%nat)) by (vm_compute; reflexivity).
  assert (E := setCookie_run _ _ _ _ _ _ Hr).
  assert (Hold : is_Some (heap (at_time 2000 jar_with_a.2) !! 0%nat))
    by (vm_compute; eauto).
  assert (Hid : (domain (deref (heap replacing.2) 1%nat),
                 path (deref (heap replacing.2) 1%nat),
                 key (deref (heap replacing.2) 1%nat))
                = (Some "example.com"%string, Some "/"%string, "a"%string))
    by (vm_compute; reflexivity).
  destruct (triple_inv Hid) as (Hd & Hp & Hk). clear Hid.
  assert (Hfind : mem_find (store jar_with_a.1) (domain (deref (heap replacing.2) 1%nat))
                           (path (deref (heap replacing.2) 1%nat))
                           (key (deref (heap replacing.2) 1%nat)) = Some 0%nat)
    by (vm_compute; reflexivity).
  destruct (setCookie_replaces_same_identity (H := sample_imports)
              _ _ _ _ _ _ _ _ 0%nat memory_store_keeps_one E Hold
              (f_equal inr Hfind)) as (T1 & _ & T3 & T4 & T5).
  rewrite Hd, Hp, Hk in T1.
  assert (K : (creation (deref (heap (at_time 2000 jar_with_a.2)) 0%nat),
               creationIndex (deref (heap (at_time 2000 jar_with_a.2)) 0%nat))
              = (Some 1000, 1))
    by (vm_compute; reflexivity).
  destruct (pair_inv K) as (K3 & K4). clear K.
  rewrite K3 in T3. rewrite K4 in T4.
  split; [exact T1|]. split; [vm_compute; reflexivity|].
  split; [exact T3|]. split; [exact T4 | exact T5].
Defined.

Lemma pair_eta {A B : Type} (x : A * B) : x = (x.1, x.2).
Proof. destruct x. reflexivity. Qed.




(** A cookie for the public suffix [co.uk] is refused with an error, and
    the store stays empty. *)
Lemma setCookie_policy_failure_witness :
  setting_suffix.1.1 = SetError PublicSuffixError
  /\ exists e, is_policy_error e
               /\ rejected_with no_options e setting_suffix.1.1
               /\ setting_suffix.1.2 = empty_jar.
Proof.
  split; [vm_compute; reflexivity|].
  apply setCookie_policy_failure.
  apply (domain_is_public_suffix _ _ _ _ _ 0%nat
           (incoming empty_jar start (inl "a=1; Domain=co.uk"%string) no_options).2
           "co.uk"%string).
  - assert (Hi : (incoming empty_jar start (inl "a=1; Domain=co.uk"%string)
                           no_options).1 = Some 0%nat) by (vm_compute; reflexivity).
    rewrite (pair_eta (incoming _ _ _ _)) at 1. now rewrite Hi.
  - reflexivity.
  - vm_compute. reflexivity.
  - vm_compute. reflexivity.
  - vm_compute. reflexivity.
Defined.

(** Of the three cookies of the jar, the two that are not expired come
    back, the one with the longer path first, and the expired one is gone
    from the store. *)
Lemma getCookies_filters_witness :
  getting.1.1 = GetDone [0%nat; 1%nat]
  /\ mem_find (store getting.1.2) (Some "example.com"%string) (Some "/"%string) "c" = None
  /\ mem_find (store jar_with_three.1) (Some "example.com"%string) (Some "/"%string) "c"
     = Some 2%nat.
Proof.
  split; [|split; vm_compute; reflexivity].
  destruct (getCookies_filters (H := sample_imports) jar_with_three.1 jar_with_three.2
              (example_com "/x/y") get_defaults [0%nat; 2%nat; 1%nat])
    as (cookies & rt' & Hget & Hperm & _).
  - vm_compute. reflexivity.
  - repeat (constructor; [vm_compute; reflexivity|]). constructor.
  - rewrite Hget. cbn [fst]. f_equal.
    assert (Hsorted : getting.1.1 = GetDone [0%nat; 1%nat]) by (vm_compute; reflexivity).
    rewrite Hget in Hsorted. cbn [fst] in Hsorted. now injection Hsorted.
Defined.

(** Against C2 as stated ("every candidate whose expiryTime() is at or
    before now is dropped and its removal is requested"): the secure cookie
    that expired in 1970 is a candidate for [http://example.com/]; it is
    dropped by the test on [secure], with no removal asked for, and the
    store still has it afterwards, which it would not after a removal. *)
Lemma getCookies_keeps_expired_cookie_out_of_scope :
  findCookies (heap jar_with_expired_secure.2) (store jar_with_expired_secure.1)
              (Some "example.com"%string) (Some "/"%string) = inr [0%nat]
  /\ expiryTime None (clock jar_with_expired_secure.2)
                (deref (heap jar_with_expired_secure.2) 0%nat) = Some (Finite 0)
  /\ num_le (Finite 0) (Finite (clock jar_with_expired_secure.2)) = true
  /\ matchingCookie (request_of (example_com "/") get_defaults
                                (Some "example.com"%string)
                                (clock jar_with_expired_secure.2))
                    (clock jar_with_expired_secure.2)
                    (deref (heap jar_with_expired_secure.2) 0%nat) = Drop
  /\ (getCookies jar_with_expired_secure.1 jar_with_expired_secure.2
                 (example_com "/") get_defaults).1.1 = GetDone []
  /\ mem_find (store (getCookies jar_with_expired_secure.1 jar_with_expired_secure.2
                                 (example_com "/") get_defaults).1.2)
              (Some "example.com"%string) (Some "/"%string) "s" = Some 0%nat
  /\ mem_find (mem_remove (store jar_with_expired_secure.1)
                          (Some "example.com"%string) (Some "/"%string) "s")
              (Some "example.com"%string) (Some "/"%string) "s" = None.
Proof. repeat split; vm_compute; reflexivity. Qed.

(** ** The order in which cookies are listed *)

Lemma cookieCompare_keys (a b : Cookie) :
  cookieCompare a b
  = if negb (pathLength b - pathLength a =? 0) then pathLength b - pathLength a
    else if negb (creationTime a - creationTime b =? 0)
         then creationTime a - creationTime b
         else creationIndex a - creationIndex b.
Proof. reflexivity. Qed.

Ltac compare_keys :=
  rewrite !cookieCompare_keys;
  repeat match goal with
         | |- context [?x =? 0] => destruct (Z.eqb_spec x 0)
         end; cbn [negb]; intros; try lia.

Lemma cookieCompare_swap (a b : Cookie) : cookieCompare b a = - cookieCompare a b.
Proof. compare_keys. Qed.

Lemma cookieCompare_trans (a b c : Cookie) :
  cookieCompare a b <= 0 -> cookieCompare b c <= 0 -> cookieCompare a c <= 0.
Proof. compare_keys. Qed.


Lemma comes_before_total h a b : comes_before h a b \/ comes_before h b a.
Proof.
  unfold comes_before. pose proof (cookieCompare_swap (deref h a) (deref h b)). lia.
Qed.

Lemma comes_before_trans h a b c :
  comes_before h a b -> comes_before h b c -> comes_before h a c.
Proof. apply cookieCompare_trans. Qed.

Lemma sort_insert_sorted h l sorted :
  StronglySorted (comes_before h) sorted ->
  StronglySorted (comes_before h) (sort_insert h l sorted).
Proof.
  induction 1 as [|x rest Hs IH Hx]; cbn [sort_insert].
  - repeat constructor.
  - destruct (Z.leb_spec (cookieCompare (deref h l) (deref h x)) 0) as [Hle|Hgt].
    + constructor; [now constructor|]. constructor; [exact Hle|].
      eapply Forall_impl; [exact Hx|]. intros y Hy.
      now apply (comes_before_trans h l x y).
    + constructor; [exact IH|].
      assert (Hxl : comes_before h x l).
      { destruct (comes_before_total h x l) as [?|Hlx]; [assumption|].
        unfold comes_before in Hlx. lia. }
      rewrite sort_insert_perm. now constructor.
Qed.

Lemma sort_cookies_sorted h ls : StronglySorted (comes_before h) (sort_cookies h ls).
Proof.
  induction ls as [|l rest IH]; [constructor|].
  unfold sort_cookies in *. cbn [fold_right]. now apply sort_insert_sorted.
Qed.

(** What [touch] does to the object at [x]: it gets the time when it is
    one of the cookies, and is left alone otherwise. *)
Lemma touch_deref t ls : forall h x,
  (x < length h)%nat ->
  length (touch t h ls) = length h
  /\ deref (touch t h ls) x
     = if bool_decide (x ∈ ls) then set_lastAccessed (Some t) (deref h x)
       else deref h x.
Proof.
  unfold touch. induction ls as [|l rest IH]; intros h x Hx; cbn [fold_left].
  - split; [reflexivity|]. now rewrite bool_decide_eq_false_2 by apply not_elem_of_nil.
  - set (h1 := <[l := set_lastAccessed (Some t) (deref h l)]> h).
    assert (Hlen : length h1 = length h) by apply length_insert.
    destruct (IH h1 x ltac:(lia)) as [Hl Hd]. split; [lia|]. rewrite Hd.
    destruct (decide (x = l)) as [->|Hne].
    + rewrite (bool_decide_eq_true_2 (l ∈ l :: rest)) by apply list_elem_of_here.
      unfold h1. rewrite deref_insert by exact Hx.
      case_bool_decide; [|reflexivity].
      now destruct (deref h l).
    + assert (Hsame : deref h1 x = deref h x).
      { unfold h1, deref. now rewrite list_lookup_insert_ne by congruence. }
      rewrite Hsame.
      destruct (decide (x ∈ rest)) as [Hin|Hnin].
      * rewrite !bool_decide_eq_true_2; [reflexivity| |exact Hin].
        now apply list_elem_of_further.
      * rewrite !bool_decide_eq_false_2; [reflexivity| |exact Hnin].
        intros [?|?]%elem_of_cons; [congruence | contradiction].
Qed.

(** ** Reading the jar *)

Lemma touch_keeps t ls h x :
  exists la, deref (touch t h ls) x = set_lastAccessed la (deref h x).
Proof.
  destruct (decide (x < length h)%nat) as [Hx|Hx].
  - destruct (touch_deref t ls h x Hx) as [_ ->]. case_bool_decide.
    + now exists (Some t).
    + exists (lastAccessed (deref h x)). now destruct (deref h x).
  - exists None. unfold deref.
    assert (Hlen : length (touch t h ls) = length h).
    { unfold touch. revert h Hx. induction ls as [|l rest IH]; intros h Hx; [reflexivity|].
      cbn [fold_left]. rewrite IH by (rewrite length_insert; exact Hx).
      apply length_insert. }
    rewrite !lookup_ge_None_2 by lia. reflexivity.
Qed.

Lemma touch_compare t ls h a b :
  cookieCompare (deref (touch t h ls) a) (deref (touch t h ls) b)
  = cookieCompare (deref h a) (deref h b).
Proof.
  destruct (touch_keeps t ls h a) as [la ->].
  destruct (touch_keeps t ls h b) as [lb ->]. reflexivity.
Qed.

Lemma sort_cookies_ext h h' ls :
  (forall a b, cookieCompare (deref h' a) (deref h' b)
               = cookieCompare (deref h a) (deref h b)) ->
  sort_cookies h' ls = sort_cookies h ls.
Proof.
  intros Hc. unfold sort_cookies. induction ls as [|l rest IH]; [reflexivity|].
  cbn [fold_right]. rewrite IH. generalize (fold_right (sort_insert h) [] rest).
  intros sorted. induction sorted as [|x xs IHs]; [reflexivity|].
  cbn [sort_insert]. now rewrite Hc, IHs.
Qed.

Lemma StronglySorted_ext {A} (R R' : A -> A -> Prop) l :
  (forall a b, R a b -> R' a b) -> StronglySorted R l -> StronglySorted R' l.
Proof.
  intros HR. induction 1 as [|x rest Hs IH Hx]; constructor; [assumption|].
  eapply Forall_impl; [exact Hx | auto].
Qed.

Section Reading.
Context `{Imports} {St : Type} `{!Store St}.

Lemma getCookies_done (jar : CookieJar St) rt context options cookies jar' rt' :
  getCookies jar rt context options = (GetDone cookies, jar', rt') ->
  exists candidates kept s,
    findCookies (heap rt) (store jar) (canonicalDomain (hostname context))
      (if rq_allPaths (request_of context options (canonicalDomain (hostname context))
                                  (clock rt))
       then None
       else Some (rq_path (request_of context options
                                      (canonicalDomain (hostname context)) (clock rt))))
    = inr candidates
    /\ filter_cookies (request_of context options (canonicalDomain (hostname context))
                                  (clock rt)) rt (store jar) candidates = (Some kept, s)
    /\ cookies = (if negb (match go_sort options with Some false => true | _ => false end)
                  then sort_cookies (heap rt) kept else kept)
    /\ jar' = with_store s jar
    /\ rt' = with_heap (touch (clock rt) (heap rt) cookies) rt.
Proof.
  unfold getCookies. destruct (findCookies _ _ _ _) as [err|candidates]; [discriminate|].
  destruct (filter_cookies _ rt (store jar) candidates) as [[kept|] s] eqn:Hf; [|discriminate].
  intros [= <- <- <-]. exists candidates, kept, s.
  split; [reflexivity|]. split; [exact Hf|]. repeat split; reflexivity.
Qed.

(** X2.  Unless the caller passes [sort: false], the cookies that
    [getCookies] gives to its completion are in the order of
    [cookieCompare]: no cookie is followed by one that compares before
    it. *)
Theorem getCookies_sorted (jar : CookieJar St) (rt : Runtime) (context : Context)
        (options : GetOptions) (cookies : list loc) (jar' : CookieJar St)
        (rt' : Runtime) :
  getCookies jar rt context options = (GetDone cookies, jar', rt') ->
  go_sort options <> Some false ->
  StronglySorted (comes_before (heap rt')) cookies.
Proof.
  intros Hget Hsort.
  destruct (getCookies_done _ _ _ _ _ _ _ Hget) as (cs & kept & s & _ & _ & Hc & _ & ->).
  assert (Hs : cookies = sort_cookies (heap rt) kept).
  { rewrite Hc. destruct (go_sort options) as [[|]|]; try reflexivity. congruence. }
  cbn [heap with_heap].
  apply (StronglySorted_ext (comes_before (heap rt))).
  - intros a b. unfold comes_before. now rewrite touch_compare.
  - rewrite Hs. apply sort_cookies_sorted.
Qed.

(** X3.  [getCookies] stamps the cookies it returns, and only those: each
    gets the reading of the clock as [lastAccessed], whatever [options.now]
    is, and every other object of the heap is as it was; no object is
    created. *)
Theorem getCookies_marks_access (jar : CookieJar St) (rt : Runtime) (context : Context)
        (options : GetOptions) (cookies : list loc) (jar' : CookieJar St)
        (rt' : Runtime) :
  getCookies jar rt context options = (GetDone cookies, jar', rt') ->
  length (heap rt') = length (heap rt)
  /\ cookiesCreated rt' = cookiesCreated rt
  /\ forall x, (x < length (heap rt))%nat ->
       deref (heap rt') x
       = if bool_decide (x ∈ cookies)
         then set_lastAccessed (Some (clock rt)) (deref (heap rt) x)
         else deref (heap rt) x.
Proof.
  intros Hget.
  destruct (getCookies_done _ _ _ _ _ _ _ Hget) as (cs & kept & s & _ & _ & _ & _ & ->).
  cbn [heap with_heap cookiesCreated].
  split; [|split; [reflexivity|]].
  - destruct (heap rt) as [|c h] eqn:Eh.
    + unfold touch. clear. induction cookies as [|l rest IH]; [reflexivity|]. exact IH.
    + now apply (touch_deref (clock rt) cookies (c :: h) 0%nat); simpl; lia.
  - intros x Hx. now apply touch_deref.
Qed.

Lemma matchingCookie_unchecked rq clk c :
  rq_expireCheck rq = false ->
  matchingCookie rq clk c = if in_scope rq c then Keep else Drop.
Proof.
  intros He. unfold matchingCookie, in_scope, host_in_scope, path_in_scope,
    secure_in_scope, http_in_scope. rewrite He.
  destruct (default false (hostOnly c));
    [destruct (option_string_eqb (domain c) (rq_host rq))
    |destruct (default false (domainMatch (rq_host rq) (domain c) false))];
    cbn [negb andb]; try reflexivity;
    (destruct (rq_allPaths rq); cbn [negb andb orb];
     [|destruct (pathMatch (rq_path rq) (path c)); cbn [negb andb]; [|reflexivity]]);
    destruct (secure c), (rq_secure rq), (httpOnly c), (rq_http rq); reflexivity.
Qed.

Lemma filter_cookies_unchecked rq rt (cookies : list loc) : forall s : St,
  rq_expireCheck rq = false ->
  filter_cookies rq rt s cookies
  = (Some (List.filter (fun l => in_scope rq (deref (heap rt) l)) cookies), s).
Proof.
  intros s He. induction cookies as [|l rest IH]; [reflexivity|].
  cbn [filter_cookies List.filter]. rewrite (matchingCookie_unchecked _ _ _ He).
  destruct (in_scope rq (deref (heap rt) l)); now rewrite IH.
Qed.

(** X4.  With [expire: false] in the options, [getCookies] looks at no
    expiry time: it cannot throw on a cookie whose [expires] is no date, it
    asks the store for no removal, and it returns the candidates that are
    in scope, expired or not. *)
Theorem getCookies_without_expiry_check (jar : CookieJar St) (rt : Runtime)
        (context : Context) (options : GetOptions) (candidates : list loc) :
  let host := canonicalDomain (hostname context) in
  let rq := request_of context options host (clock rt) in
  go_expire options = Some false ->
  findCookies (heap rt) (store jar) host
              (if rq_allPaths rq then None else Some (rq_path rq)) = inr candidates ->
  exists cookies rt',
    getCookies jar rt context options = (GetDone cookies, jar, rt')
    /\ cookies ≡ₚ List.filter (fun l => in_scope rq (deref (heap rt) l)) candidates
    /\ (go_sort options = Some false ->
        cookies = List.filter (fun l => in_scope rq (deref (heap rt) l)) candidates).
Proof.
  intros host rq He Hfind. unfold getCookies. fold host. fold rq.
  assert (Hc : rq_expireCheck rq = false) by (unfold rq, request_of; cbn; now rewrite He).
  rewrite Hfind, (filter_cookies_unchecked rq rt candidates (store jar) Hc).
  assert (Hjar : with_store (store jar) jar = jar) by (now destruct jar).
  rewrite Hjar. do 2 eexists. split; [reflexivity|]. split.
  - destruct (negb _); [apply sort_cookies_perm | reflexivity].
  - now intros ->.
Qed.

(** X5.  The [Cookie] header that [getCookieString] builds lists exactly
    the cookies that [getCookies] keeps, each as [key=value], joined by
    ["; "], and in the order of [cookieCompare] even when the caller passes
    [sort: false]. *)
Theorem getCookieString_header (jar : CookieJar St) (rt : Runtime)
        (context : Context) (options : GetOptions) (candidates : list loc) :
  let host := canonicalDomain (hostname context) in
  let rq := request_of context options host (clock rt) in
  findCookies (heap rt) (store jar) host
              (if rq_allPaths rq then None else Some (rq_path rq)) = inr candidates ->
  Forall (fun l => expiry_known (deref (heap rt) l) = true) candidates ->
  exists cookies,
    (getCookieString jar rt context options).1.1
    = StringDone (join "; " (map (fun l => cookieString (deref (heap rt) l)) cookies))
    /\ cookies ≡ₚ List.filter (kept rq rt) candidates
    /\ StronglySorted (comes_before (heap rt)) cookies.
Proof.
  intros host rq Hfind Hknown. unfold getCookieString, getCookies. fold host. fold rq.
  rewrite Hfind, (filter_cookies_spec rq rt candidates (store jar) Hknown).
  cbn [fst snd heap with_heap].
  set (cookies := if negb _ then _ else _).
  exists (sort_cookies (heap rt) cookies).
  rewrite (sort_cookies_ext (heap rt)) by (intros; apply touch_compare).
  split; [|split].
  - f_equal. f_equal. apply map_ext. intros l.
    destruct (touch_keeps (clock rt) cookies (heap rt) l) as [la ->]. reflexivity.
  - rewrite sort_cookies_perm. unfold cookies.
    destruct (negb _); [apply sort_cookies_perm | reflexivity].
  - apply sort_cookies_sorted.
Qed.

End Reading.

Lemma getCookies_run `{Imports} {St : Type} `{!Store St} (jar : CookieJar St) rt context
      options cookies :
  (getCookies jar rt context options).1.1 = GetDone cookies ->
  getCookies jar rt context options
  = (GetDone cookies, (getCookies jar rt context options).1.2,
     (getCookies jar rt context options).2).
Proof. intros Hr. rewrite <- Hr. apply triple_eta. Qed.

(** The two live cookies of the jar come back with the longer path
    first. *)
Lemma getCookies_sorted_witness :
  StronglySorted (comes_before (heap getting.2)) [0%nat; 1%nat].
Proof.
  assert (Hr : getting.1.1 = GetDone [0%nat; 1%nat]) by (vm_compute; reflexivity).
  apply (getCookies_sorted _ _ _ _ _ _ _ (getCookies_run _ _ _ _ _ Hr)).
  discriminate.
Defined.

(** The cookie that was not returned keeps its time of last access. *)
Lemma getCookies_marks_access_witness :
  lastAccessed (deref (heap getting.2) 0%nat) = Some 1000
  /\ deref (heap getting.2) 2%nat = deref (heap jar_with_three.2) 2%nat.
Proof.
  assert (Hr : getting.1.1 = GetDone [0%nat; 1%nat]) by (vm_compute; reflexivity).
  destruct (getCookies_marks_access _ _ _ _ _ _ _ (getCookies_run _ _ _ _ _ Hr))
    as (_ & _ & Hx).
  split.
  - rewrite (Hx 0%nat) by (vm_compute; lia). reflexivity.
  - rewrite (Hx 2%nat) by (vm_compute; lia). reflexivity.
Defined.

(** With [expire: false] the expired cookie ["c=3"] of the jar comes back
    with the other two. *)
Lemma getCookies_without_expiry_check_witness :
  (getCookies jar_with_three.1 jar_with_three.2 (example_com "/x/y") keep_expired).1.1
  = GetDone [0%nat; 1%nat; 2%nat].
Proof.
  destruct (getCookies_without_expiry_check (H := sample_imports)
              jar_with_three.1 jar_with_three.2 (example_com "/x/y") keep_expired
              [0%nat; 2%nat; 1%nat])
    as (cookies & rt' & Hget & _).
  - reflexivity.
  - vm_compute. reflexivity.
  - assert (Hr : (getCookies jar_with_three.1 jar_with_three.2 (example_com "/x/y")
                             keep_expired).1.1 = GetDone [0%nat; 1%nat; 2%nat])
      by (vm_compute; reflexivity).
    rewrite Hget in Hr |- *. exact Hr.
Defined.

(** The header for [http://example.com/x/y] from the jar with the three
    cookies. *)
Lemma getCookieString_header_witness :
  (getCookieString jar_with_three.1 jar_with_three.2 (example_com "/x/y")
                   get_defaults).1.1 = StringDone "a=1; b=2".
Proof.
  destruct (getCookieString_header (H := sample_imports)
              jar_with_three.1 jar_with_three.2 (example_com "/x/y") get_defaults
              [0%nat; 2%nat; 1%nat])
    as (cookies & Hs & _).
  - vm_compute. reflexivity.
  - repeat (constructor; [vm_compute; reflexivity|]). constructor.
  - assert (Hr : (getCookieString jar_with_three.1 jar_with_three.2 (example_com "/x/y")
                                  get_defaults).1.1 = StringDone "a=1; b=2")
      by (vm_compute; reflexivity).
    rewrite Hs in Hr |- *. exact Hr.
Defined.

(** ** The expiry of a cookie *)



(** ** Cookie strings: what [parse] gives *)

Lemma lower_char_idem (c : ascii) : Js.lower_char (Js.lower_char c) = Js.lower_char c.
Proof. destruct c as [[] [] [] [] [] [] [] []]; reflexivity. Qed.

Lemma toLowerCase_idem (s : string) : Js.toLowerCase (Js.toLowerCase s) = Js.toLowerCase s.
Proof.
  induction s as [|c s IH]; [reflexivity|]. cbn [Js.toLowerCase].
  now rewrite lower_char_idem, IH.
Qed.

(** The cookie that [parse] returns is the fresh object with the key and
    the value of the pair, taken through the attributes in turn. *)
Lemma parse_result str loose rt l rt' :
  parse str loose rt = (Some l, rt') ->
  exists k v,
    parse_pair (pair_part str) loose = Some (k, v)
    /\ Re.test CONTROL_CHARS k = false /\ Re.test CONTROL_CHARS v = false
    /\ deref (heap rt') l
       = fold_left (fun c av => parse_av av c) (attributes str)
                   (set_value v (set_key k (fresh_cookie rt)))
    /\ cookiesCreated rt' = cookiesCreated rt + 1.
Proof.
  unfold parse, pair_part, attributes. cbv zeta.
  destruct (parse_pair _ loose) as [[k v]|]; [|discriminate].
  unfold new_Cookie. cbv zeta. fold (fresh_cookie rt).
  set (c := fresh_cookie rt).
  assert (Hc : deref (heap rt ++ [c]) (length (heap rt)) = c).
  { unfold deref. rewrite lookup_app_r by lia. now rewrite Nat.sub_diag. }
  cbn [heap with_heap cookiesCreated]. rewrite Hc.
  assert (Hlen : (length (heap rt) < length (heap rt ++ [c]))%nat)
    by (rewrite length_app; simpl; lia).
  destruct (Re.test CONTROL_CHARS k) eqn:Hk; [discriminate|].
  destruct (Re.test CONTROL_CHARS v) eqn:Hv; [discriminate|]. cbn [orb].
  intros Hp. exists k, v.
  split; [reflexivity|]. split; [exact Hk|]. split; [exact Hv|].
  destruct (Js.indexOf (Js.trim str) ";" =? -1).
  { injection Hp as <- <-. cbn [heap with_heap cookiesCreated fold_left].
    split; [now apply deref_insert | reflexivity]. }
  destruct (Js.trim (Js.slice_from _ _)) as [|x rest].
  { injection Hp as <- <-. cbn [heap with_heap cookiesCreated fold_left].
    split; [now apply deref_insert | reflexivity]. }
  injection Hp as <- <-. cbn [heap with_heap cookiesCreated].
  split; [|reflexivity]. apply deref_insert. now rewrite length_insert.
Qed.

Lemma parse_av_normal raw c : attributes_normal c -> attributes_normal (parse_av raw c).
Proof.
  intros [Hp Hd He Hm]. unfold parse_av. cbv zeta.
  destruct (Js.trim raw) as [|x av]; [now split|].
  destruct (Js.indexOf (String x av) "=" =? -1); cbv iota beta;
    match goal with
    | |- context [String.eqb ?k "expires"] => generalize k; intros name
    end;
    match goal with
    | |- context [Js.truthy (if ?b then ?u else ?v)] =>
        generalize (if b then u else v); intros avValue
    end.
  all: destruct (String.eqb name "expires");
    [destruct (Js.truthy avValue); [|now split];
     destruct (parseDate _); now split|].
  all: destruct (String.eqb name "max-age");
    [destruct (_ && _); [|now split];
     destruct (Js.parseInt _); now split|].
  all: destruct (String.eqb name "domain");
    [destruct (Js.truthy avValue); [|now split];
     destruct (strip_leading_dot _) as [|y d]; [now split|];
     split; try assumption; cbn [domain set_domain]; split;
     [discriminate | apply toLowerCase_idem]|].
  all: destruct (String.eqb name "path");
    [split; try assumption; cbn [path set_path];
     destruct avValue as [[|a v]|]; try exact I;
     destruct (Js.is_char "/" a) eqn:E;
     [apply Ascii.eqb_eq in E; now subst | exact I]|].
  all: destruct (String.eqb name "secure"); [now split|].
  all: destruct (String.eqb name "httponly"); now split.
Qed.

Lemma parse_avs_normal avs : forall c,
  attributes_normal c -> attributes_normal (fold_left (fun c av => parse_av av c) avs c).
Proof.
  induction avs as [|av avs IH]; intros c Hc; [exact Hc|].
  cbn [fold_left]. apply IH. now apply parse_av_normal.
Qed.

Lemma fresh_value_normal (k v : string) (rt : Runtime) :
  attributes_normal (set_value v (set_key k (fresh_cookie rt))).
Proof. split; exact I. Qed.



Lemma parse_av_frame raw c :
  key (parse_av raw c) = key c /\ value (parse_av raw c) = value c
  /\ hostOnly (parse_av raw c) = hostOnly c
  /\ pathIsDefault (parse_av raw c) = pathIsDefault c
  /\ creation (parse_av raw c) = creation c
  /\ lastAccessed (parse_av raw c) = lastAccessed c
  /\ creationIndex (parse_av raw c) = creationIndex c.
Proof.
  unfold parse_av. cbv zeta.
  destruct (Js.trim raw) as [|x av]; [repeat split|].
  destruct (Js.indexOf (String x av) "=" =? -1); cbv iota beta;
    repeat match goal with
           | |- context [String.eqb ?n ?w] => destruct (String.eqb n w)
           end;
    repeat match goal with
           | |- context [if ?b then _ else _] => destruct b
           | |- context [match parseDate ?s with _ => _ end] => destruct (parseDate s)
           | |- context [match Js.parseInt ?s with _ => _ end] => destruct (Js.parseInt s)
           | |- context [match strip_leading_dot ?s with _ => _ end] =>
               destruct (strip_leading_dot s)
           end; repeat split.
Qed.

Lemma parse_avs_frame avs : forall c,
  let c' := fold_left (fun c av => parse_av av c) avs c in
  key c' = key c /\ value c' = value c /\ hostOnly c' = hostOnly c
  /\ pathIsDefault c' = pathIsDefault c /\ creation c' = creation c
  /\ lastAccessed c' = lastAccessed c /\ creationIndex c' = creationIndex c.
Proof.
  induction avs as [|av avs IH]; intros c; [repeat split|].
  cbn [fold_left]. cbv zeta in *.
  destruct (IH (parse_av av c)) as (-> & -> & -> & -> & -> & -> & ->).
  apply parse_av_frame.
Qed.

(** X8.  A successful [parse] creates exactly one object, at the end of the
    heap: it carries the next creation index and the reading of the clock
    as its creation time, and the fields that only the jar assigns
    ([hostOnly], [pathIsDefault], [lastAccessed]) are unset.  The objects
    that were there are as they were. *)
Theorem parse_creates_one_cookie (str : string) (loose : bool) (rt : Runtime)
        (l : loc) (rt' : Runtime) :
  parse str loose rt = (Some l, rt') ->
  l = length (heap rt)
  /\ length (heap rt') = S (length (heap rt))
  /\ (forall i, (i < length (heap rt))%nat -> heap rt' !! i = heap rt !! i)
  /\ cookiesCreated rt' = cookiesCreated rt + 1
  /\ creationIndex (deref (heap rt') l) = cookiesCreated rt + 1
  /\ creation (deref (heap rt') l) = Some (clock rt)
  /\ hostOnly (deref (heap rt') l) = None
  /\ pathIsDefault (deref (heap rt') l) = None
  /\ lastAccessed (deref (heap rt') l) = None.
Proof.
  intros Hp. destruct (parse_allocates _ _ _ _ _ Hp) as [Hold Hnew].
  destruct (Hnew l eq_refl) as [Hl Hlen].
  apply parse_result in Hp as (k & v & _ & _ & _ & Hc & Hn).
  split; [exact Hl|]. split; [exact Hlen|]. split; [exact Hold|]. split; [exact Hn|].
  rewrite Hc.
  destruct (parse_avs_frame (attributes str) (set_value v (set_key k (fresh_cookie rt))))
    as (_ & _ & -> & -> & -> & -> & ->).
  repeat split.
Qed.

(** The second cookie parsed in a runtime. *)
Lemma parse_creates_one_cookie_witness :
  creationIndex (deref (heap (parse "b=2; Secure" false jar_with_a.2).2) 1%nat) = 2
  /\ creation (deref (heap (parse "b=2; Secure" false jar_with_a.2).2) 1%nat)
     = Some 1000.
Proof.
  assert (Hr : (parse "b=2; Secure" false jar_with_a.2).1 = @Some loc 1%nat)
    by (vm_compute; reflexivity).
  destruct (parse_creates_one_cookie "b=2; Secure" false jar_with_a.2 1%nat
              (parse "b=2; Secure" false jar_with_a.2).2)
    as (_ & _ & _ & _ & Hi & Hc & _).
  - rewrite <- Hr. apply pair_eta.
  - split; [rewrite Hi | rewrite Hc]; vm_compute; reflexivity.
Defined.

(** ** The key and the value of a parsed cookie *)

Lemma trimStart_head (s : string) :
  match Js.trimStart s with
  | String c _ => Js.is_space c = false
  | EmptyString => True
  end.
Proof.
  induction s as [|c s IH]; [exact I|]. cbn [Js.trimStart].
  destruct (Js.is_space c) eqn:E; [exact IH | exact E].
Qed.

Lemma trimEnd_cons (c : ascii) (s : string) :
  Js.is_space c = false ->
  Js.trimEnd (String c s) = String c (Js.trimEnd s).
Proof.
  intros Hc. cbn [Js.trimEnd]. rewrite Hc. now destruct (Js.trimEnd s).
Qed.

Lemma trimEnd_idem (s : string) : Js.trimEnd (Js.trimEnd s) = Js.trimEnd s.
Proof.
  induction s as [|c s IH]; [reflexivity|]. cbn [Js.trimEnd].
  destruct (Js.trimEnd s) as [|a t] eqn:Et.
  - destruct (Js.is_space c) eqn:Ec; [reflexivity|].
    cbn [Js.trimEnd]. now rewrite Ec.
  - cbn [Js.trimEnd] in *. now rewrite IH.
Qed.

Lemma trim_head (s : string) :
  match Js.trim s with
  | String c _ => Js.is_space c = false
  | EmptyString => True
  end.
Proof.
  unfold Js.trim. pose proof (trimStart_head s) as Hs.
  destruct (Js.trimStart s) as [|c r]; [exact I|].
  now rewrite trimEnd_cons.
Qed.

Lemma trim_idem (s : string) : Js.trim (Js.trim s) = Js.trim s.
Proof.
  pose proof (trim_head s) as Hh. destruct (Js.trim s) as [|c r] eqn:Et; [reflexivity|].
  unfold Js.trim at 1. cbn [Js.trimStart]. rewrite Hh.
  rewrite <- Et. unfold Js.trim. apply trimEnd_idem.
Qed.

Lemma trim_nonspace_head (c : ascii) (s : string) :
  Js.is_space c = false -> exists r, Js.trim (String c s) = String c r.
Proof.
  intros Hc. unfold Js.trim. cbn [Js.trimStart]. rewrite Hc, trimEnd_cons by exact Hc.
  eauto.
Qed.

Lemma Cls_test (p : ascii -> bool) (s : string) :
  Re.test (Re.Cls p) s = some_char p s.
Proof.
  induction s as [|c s IH]; [reflexivity|].
  cbn [Re.test some_char]. rewrite IH. unfold Re.exec. cbn [Re.run].
  now destruct (p c).
Qed.

Lemma control_free (s : string) :
  Re.test CONTROL_CHARS s = false -> all_chars not_control s = true.
Proof.
  unfold CONTROL_CHARS. rewrite Cls_test. unfold not_control.
  induction s as [|c s IH]; [reflexivity|]. cbn [some_char all_chars].
  destruct (Js.in_range 0 31 c); [discriminate|]. exact IH.
Qed.

Lemma parse_pair_trimmed head loose k v :
  parse_pair head loose = Some (k, v) -> Js.trim k = k /\ Js.trim v = v.
Proof.
  unfold parse_pair. destruct (Re.exec _ head) as [result|]; [|discriminate].
  intros [= <- <-]. split; [|apply trim_idem].
  destruct (Js.truthy _); [apply trim_idem | reflexivity].
Qed.

Lemma substring_head (c : ascii) (r : string) (n : nat) :
  String.substring 0 n (String c r) = EmptyString
  \/ exists r', String.substring 0 n (String c r) = String c r'.
Proof. destruct n; [now left | right; simpl; eauto]. Qed.

Lemma pair_part_head (str : string) :
  match pair_part str with
  | String c _ => Js.is_space c = false
  | EmptyString => True
  end.
Proof.
  unfold pair_part. cbv zeta. pose proof (trim_head str) as Hh.
  destruct (Js.indexOf (Js.trim str) ";" =? -1); [exact Hh|].
  destruct (Js.trim str) as [|c r].
  { unfold Js.substr. destruct (_ || _); [exact I|].
    change (Z.to_nat 0) with 0%nat. now destruct (Z.to_nat _). }
  unfold Js.substr. destruct (_ || _); [exact I|].
  change (Z.to_nat 0) with 0%nat.
  destruct (substring_head c r (Z.to_nat (Js.indexOf (String c r) ";")))
    as [-> | [r' ->]]; [exact I | exact Hh].
Qed.

(** In strict mode the key is what stands before the [=], and the head of
    the string is not white space: the key is not empty. *)
Lemma strict_pair_key (c : ascii) (head k v : string) :
  Js.is_space c = false ->
  parse_pair (String c head) false = Some (k, v) -> k <> EmptyString.
Proof.
  intros Hc. unfold parse_pair.
  destruct (Re.exec COOKIE_PAIR (String c head)) as [result|] eqn:Hx; [|discriminate].
  apply exec_sound in Hx as (s' & cs' & HM & ->).
  unfold COOKIE_PAIR, Re.Plus, Re.Lit in HM.
  repeat match goal with
         | H : Matches (Re.Seq _ _) _ _ _ _ |- _ => inversion H; subst; clear H
         | H : Matches (Re.Grp _ _) _ _ _ _ |- _ => inversion H; subst; clear H
         end.
  repeat match goal with
         | H : Matches (Re.Star _) _ _ _ _ |- _ =>
             pose proof (Matches_prefix _ _ _ _ _ H) as [? ->];
             apply Star_captures in H; subst
         | H : Matches (Re.Cls _) _ _ _ _ |- _ => inversion H; subst; clear H
         end.
  cbn [Re.get Nat.eqb default]. unfold id.
  match goal with
  | |- context [Re.consumed (String c ?a) ?b] =>
      assert (Hcons : exists u, Re.consumed (String c a) b = String c u)
  end.
  { eexists.
    match goal with
    | |- Re.consumed (String c (?u ++ ?w)) ?w = _ =>
        change (String c (u ++ w)) with (String c u ++ w)%string
    end.
    apply consumed_app. }
  destruct Hcons as [u ->]. cbn [Js.truthy default].
  intros [= <- _]. destruct (trim_nonspace_head c u Hc) as [r ->]. discriminate.
Qed.

(** X9.  The key and the value of a cookie that [parse] returns have no
    control character and no white space at either end; in strict mode the
    key is never empty. *)
Theorem parse_key_and_value (str : string) (loose : bool) (rt : Runtime)
        (l : loc) (rt' : Runtime) :
  parse str loose rt = (Some l, rt') ->
  all_chars not_control (key (deref (heap rt') l)) = true
  /\ all_chars not_control (value (deref (heap rt') l)) = true
  /\ Js.trim (key (deref (heap rt') l)) = key (deref (heap rt') l)
  /\ Js.trim (value (deref (heap rt') l)) = value (deref (heap rt') l)
  /\ (loose = false -> key (deref (heap rt') l) <> EmptyString).
Proof.
  intros Hp. apply parse_result in Hp as (k & v & Hpair & Hk & Hv & -> & _).
  destruct (parse_avs_frame (attributes str) (set_value v (set_key k (fresh_cookie rt))))
    as (-> & -> & _). cbn [key value set_key set_value].
  destruct (parse_pair_trimmed _ _ _ _ Hpair) as [Htk Htv].
  split; [now apply control_free|]. split; [now apply control_free|].
  split; [exact Htk|]. split; [exact Htv|].
  intros ->. pose proof (pair_part_head str) as Hh.
  destruct (pair_part str) as [|c head]; [discriminate Hpair|].
  exact (strict_pair_key c head k v Hh Hpair).
Qed.

(** White space around the key and the value is dropped. *)
Lemma parse_key_and_value_witness :
  Js.trim (key (deref (heap (parse "  SID = 31d4 ; Path=/" false start).2) 0%nat))
  = key (deref (heap (parse "  SID = 31d4 ; Path=/" false start).2) 0%nat)
  /\ key (deref (heap (parse "  SID = 31d4 ; Path=/" false start).2) 0%nat) = "SID"%string
  /\ value (deref (heap (parse "  SID = 31d4 ; Path=/" false start).2) 0%nat)
     = "31d4"%string.
Proof.
  assert (Hr : (parse "  SID = 31d4 ; Path=/" false start).1 = @Some loc 0%nat)
    by (vm_compute; reflexivity).
  destruct (parse_key_and_value "  SID = 31d4 ; Path=/" false start 0%nat
              (parse "  SID = 31d4 ; Path=/" false start).2)
    as (_ & _ & Hk & _).
  - rewrite <- Hr. apply pair_eta.
  - split; [exact Hk|]. split; vm_compute; reflexivity.
Defined.

(** ** From a cookie to its string and back *)

Lemma star_greedy {A} (p : ascii -> bool) (u rest : string) (k : string -> option A)
      (r : A) :
  all_chars p u = true -> Re.star p rest k = Some r ->
  Re.star p (u ++ rest) k = Some r.
Proof.
  intros Hu Hr. induction u as [|c u IH]; [exact Hr|].
  cbn [all_chars] in Hu. apply andb_true_iff in Hu as [Hc Hu].
  cbn [String.append Re.star]. now rewrite Hc, IH.
Qed.

Lemma star_to_end {A} (p : ascii -> bool) (s : string) (k : string -> option A) (r : A) :
  all_chars p s = true -> k EmptyString = Some r -> Re.star p s k = Some r.
Proof.
  intros Hs Hr. rewrite <- (app_empty_r s). now apply star_greedy.
Qed.

Lemma star_stops {A} (p : ascii -> bool) (s : string) (k : string -> option A) :
  match s with String c _ => p c = false | EmptyString => True end ->
  Re.star p s k = k s.
Proof. destruct s as [|c s]; [reflexivity|]. cbn [Re.star]. now intros ->. Qed.

Lemma all_chars_impl (p q : ascii -> bool) (s : string) :
  (forall c, p c = true -> q c = true) -> all_chars p s = true -> all_chars q s = true.
Proof.
  intros Hpq. induction s as [|c s IH]; [reflexivity|]. cbn [all_chars].
  intros [Hc Hs]%andb_true_iff. now rewrite (Hpq c Hc), IH.
Qed.

Lemma not_control_terminator (c : ascii) : not_control c = true -> not_terminator c = true.
Proof. destruct c as [[] [] [] [] [] [] [] []]; vm_compute; congruence. Qed.

Lemma trimmed_head (s : string) :
  Js.trim s = s -> match s with String c _ => Js.is_space c = false | EmptyString => True end.
Proof. intros Hs. pose proof (trim_head s) as Hh. now rewrite Hs in Hh. Qed.

Lemma trimmed_end (s : string) : Js.trim s = s -> Js.trimEnd s = s.
Proof.
  intros Hs. rewrite <- Hs at 1. unfold Js.trim. rewrite trimEnd_idem. exact Hs.
Qed.

Lemma trimEnd_app (a b : string) :
  Js.trimEnd b <> EmptyString -> Js.trimEnd (a ++ b) = (a ++ Js.trimEnd b)%string.
Proof.
  intros Hb. induction a as [|c a IH]; [reflexivity|].
  cbn [String.append Js.trimEnd]. rewrite IH.
  destruct (a ++ Js.trimEnd b)%string eqn:E; [|reflexivity].
  destruct a; [|discriminate]. cbn in E. contradiction.
Qed.

Lemma pair_trimmed (k v : string) :
  plain_pair k v -> Js.trim (k ++ "=" ++ v) = (k ++ "=" ++ v)%string.
Proof.
  intros [Hne Htk _ Htv _]. pose proof (trimmed_head k Htk) as Hh.
  destruct k as [|c k]; [contradiction|].
  unfold Js.trim. cbn [String.append Js.trimStart]. rewrite Hh.
  change (String c (k ++ String "=" v)) with (String c k ++ String "=" v)%string.
  assert (He : Js.trimEnd (String "=" v) = String "=" v).
  { rewrite trimEnd_cons by reflexivity. now rewrite (trimmed_end v Htv). }
  rewrite trimEnd_app by (rewrite He; discriminate). now rewrite He.
Qed.

Lemma indexOf_absent (x : ascii) (s : string) (i : nat) :
  all_chars (fun c => negb (Js.is_char x c)) s = true ->
  Js.indexOf_from i s (String x EmptyString) = -1.
Proof.
  revert i. induction s as [|c s IH]; intros i Hs; [reflexivity|].
  cbn [all_chars] in Hs. apply andb_true_iff in Hs as [Hc Hs].
  cbn [Js.indexOf_from String.prefix].
  unfold Js.is_char in Hc. destruct (Ascii.ascii_dec x c) as [->|Hne].
  - now rewrite Ascii.eqb_refl in Hc.
  - now apply IH.
Qed.

Lemma COOKIE_PAIR_plain (k v : string) :
  plain_pair k v ->
  Re.exec COOKIE_PAIR (k ++ "=" ++ v)
  = Some [(0%nat, (k ++ "=" ++ v)%string); (3%nat, v); (1%nat, k); (2%nat, k)].
Proof.
  intros [Hne Htk Hk Htv Hv].
  pose proof (trimmed_head v Htv) as Hvh.
  destruct k as [|c k]; [contradiction|]. clear Hne Htk.
  cbn [all_chars] in Hk. apply andb_true_iff in Hk as [Hc Hk].
  assert (Hc' : not_eq_semi c = true)
    by (unfold key_char in Hc; now apply andb_true_iff in Hc as [? _]).
  assert (Hk' : all_chars not_eq_semi k = true).
  { apply (all_chars_impl key_char); [|exact Hk].
    intros a Ha. unfold key_char in Ha. now apply andb_true_iff in Ha as [? _]. }
  assert (Hv' : all_chars not_terminator v = true).
  { apply (all_chars_impl value_char); [|exact Hv].
    intros a Ha. unfold value_char in Ha. apply andb_true_iff in Ha as [_ ?].
    now apply not_control_terminator. }
  unfold Re.exec, COOKIE_PAIR, Re.Plus, Re.Lit.
  cbn [Re.run String.append]. rewrite Hc'.
  erewrite star_greedy; [reflexivity | exact Hk' |].
  cbn [Re.star]. change (not_eq_semi "=") with false. cbv iota.
  change (Js.is_space "=") with false. cbv iota.
  change (Js.is_char "=" "=") with true. cbv iota.
  rewrite star_stops by exact Hvh.
  erewrite star_to_end; [reflexivity | exact Hv' |].
  rewrite consumed_all.
  change (String c (k ++ String "=" v)) with (String c k ++ String "=" v)%string.
  now rewrite consumed_app, consumed_all.
Qed.

Lemma not_control_test (s : string) :
  all_chars not_control s = true -> Re.test CONTROL_CHARS s = false.
Proof.
  unfold CONTROL_CHARS. rewrite Cls_test. unfold not_control.
  induction s as [|c s IH]; [reflexivity|]. cbn [some_char all_chars].
  destruct (Js.in_range 0 31 c); [discriminate|]. exact IH.
Qed.

Lemma all_chars_app (p : ascii -> bool) (a b : string) :
  all_chars p (a ++ b) = all_chars p a && all_chars p b.
Proof.
  induction a as [|c a IH]; [reflexivity|]. cbn [String.append all_chars].
  now rewrite IH, andb_assoc.
Qed.

(** X10.  In strict mode [parse] undoes [cookieString]: for a cookie whose
    key and value can stand in a cookie string as they are, parsing the
    string [key=value] gives a new cookie with that key and that value,
    and nothing else set. *)
Theorem parse_cookieString (c : Cookie) (rt : Runtime) :
  plain_pair (key c) (value c) ->
  exists rt',
    parse (cookieString c) false rt = (Some (length (heap rt)), rt')
    /\ deref (heap rt') (length (heap rt))
       = set_value (value c) (set_key (key c) (fresh_cookie rt)).
Proof.
  intros Hp. pose proof Hp as [Hne Htk Hk Htv Hv].
  set (k := key c) in *. set (v := value c) in *.
  assert (Hs : cookieString c = (k ++ "=" ++ v)%string).
  { unfold cookieString. fold k v. now destruct k. }
  rewrite Hs. unfold parse. cbv zeta. rewrite (pair_trimmed k v Hp).
  assert (Hsemi : Js.indexOf (k ++ "=" ++ v) ";" = -1).
  { apply indexOf_absent. rewrite !all_chars_app. apply andb_true_iff. split.
    - apply (all_chars_impl key_char); [|exact Hk]. intros a Ha.
      unfold key_char, not_eq_semi in Ha.
      now apply andb_true_iff in Ha as [[_ ?]%andb_true_iff _].
    - apply andb_true_iff. split; [reflexivity|].
      apply (all_chars_impl value_char); [|exact Hv]. intros a Ha.
      unfold value_char in Ha. now apply andb_true_iff in Ha as [? _]. }
  rewrite Hsemi. change (-1 =? -1) with true. cbv iota.
  unfold parse_pair. rewrite (COOKIE_PAIR_plain k v Hp).
  cbn [Re.get Nat.eqb default]. unfold id.
  assert (Hkt : Js.truthy (Some k) = true) by (now destruct k).
  rewrite Hkt, Htk, Htv.
  assert (Hkc : Re.test CONTROL_CHARS k = false).
  { apply not_control_test. apply (all_chars_impl key_char); [|exact Hk].
    intros a Ha. unfold key_char in Ha. now apply andb_true_iff in Ha as [_ ?]. }
  assert (Hvc : Re.test CONTROL_CHARS v = false).
  { apply not_control_test. apply (all_chars_impl value_char); [|exact Hv].
    intros a Ha. unfold value_char in Ha. now apply andb_true_iff in Ha as [_ ?]. }
  unfold new_Cookie. cbv zeta. fold (fresh_cookie rt).
  assert (Hc : deref (heap rt ++ [fresh_cookie rt]) (length (heap rt)) = fresh_cookie rt).
  { unfold deref. rewrite lookup_app_r by lia. now rewrite Nat.sub_diag. }
  cbn [heap with_heap]. rewrite Hc, Hkc, Hvc. cbn [orb].
  eexists. split; [reflexivity|]. cbn [heap with_heap].
  apply deref_insert. rewrite length_app. simpl. lia.
Qed.

(** The cookie [SID=31d4] goes to its string and comes back. *)
Lemma parse_cookieString_witness :
  exists rt',
    parse "SID=31d4" false start = (Some 0%nat, rt')
    /\ deref (heap rt') 0%nat
       = set_value "31d4" (set_key "SID" (fresh_cookie start)).
Proof.
  apply (parse_cookieString (set_value "31d4" (set_key "SID" Cookie_prototype)) start).
  split; [discriminate | reflexivity ..].
Defined.

(** ** A cookie that was set is in the scope of its host *)

Lemma option_string_eqb_refl (a : option string) : option_string_eqb a a = true.
Proof. destruct a as [s|]; [apply String.eqb_refl | reflexivity]. Qed.

Lemma scope_cookie_match `{Imports} host context c c1 :
  scope_cookie host context c = Some c1 ->
  Js.truthy (domain c) = true ->
  domainMatch host (cdomain c) false = Some true.
Proof.
  unfold scope_cookie. intros Hs Hd. rewrite Hd in Hs.
  destruct (domainMatch host (cdomain c) false) as [[|]|]; cbn in Hs;
    [reflexivity | discriminate | discriminate].
Qed.

Lemma parse_hostOnly str loose rt l rt' :
  parse str loose rt = (Some l, rt') -> hostOnly (deref (heap rt') l) = None.
Proof.
  intros Hp. apply parse_result in Hp as (k & v & _ & _ & _ & -> & _).
  now destruct (parse_avs_frame (attributes str)
                  (set_value v (set_key k (fresh_cookie rt)))) as (_ & _ & -> & _).
Qed.

(** X11.  A cookie string that [setCookie] accepts from a host passes the
    host test of [getCookies] for requests to that host: always when it
    was bound to the host alone, and when it came with a domain provided
    the domain is in canonical form (the test of [setCookie] is on the
    canonical form of the domain, that of [getCookies] on the domain as it
    is stored). *)
Theorem setCookie_host_in_scope `{Imports} {St : Type} `{!Store St}
        (jar : CookieJar St) (rt : Runtime) (str : string)
        (context : Context) (options : SetOptions)
        (l : loc) (jar' : CookieJar St) (rt' : Runtime) (rq : Request) :
  setCookie jar rt (inl str) context options = (SetDone (Some l), jar', rt') ->
  rq_host rq = canonicalDomain (hostname context) ->
  hostOnly (deref (heap rt') l) = Some true
  \/ cdomain (deref (heap rt') l) = domain (deref (heap rt') l) ->
  host_in_scope rq (deref (heap rt') l) = true.
Proof.
  intros Hset Hrq Hcanon. apply setCookie_accepts in Hset.
  assert (Hfinal : exists rt1 c1,
             incoming jar rt (inl str) options = (Some l, rt1)
             /\ scope_cookie (canonicalDomain (hostname context)) context
                             (deref (heap rt1) l) = Some c1
             /\ hostOnly (deref (heap rt') l) = hostOnly c1
             /\ domain (deref (heap rt') l) = domain c1).
  { destruct Hset as [rt1 c1 c2 s Hin Hsc Hf -> Hput -> -> |
                      rt1 c1 c2 s oldLoc oldCookie Hin Hsc Hf -> -> Hup -> ->];
      pose proof (incoming_allocated _ _ _ _ _ _ Hin) as Hl;
      exists rt1, c1; (split; [exact Hin|]); (split; [exact Hsc|]);
      cbn [heap with_heap]; rewrite deref_insert by exact Hl;
      split; reflexivity. }
  destruct Hfinal as (rt1 & c1 & Hin & Hsc & Hho & Hdo).
  set (c2 := deref (heap rt') l) in *. clearbody c2. clear Hset.
  unfold incoming in Hin. apply parse_hostOnly in Hin.
  pose proof (scope_cookie_match _ _ _ _ Hsc) as Hm.
  apply scope_cookie_fields in Hsc.
  set (c0 := deref (heap rt1) l) in *.
  assert (Hh1 : hostOnly c1 = scoped_hostOnly c0) by (now subst c1).
  assert (Hd1 : domain c1 = scoped_domain (canonicalDomain (hostname context)) c0)
    by (now subst c1).
  unfold host_in_scope. rewrite Hho, Hdo, Hh1, Hd1, Hrq.
  unfold scoped_hostOnly, scoped_domain. rewrite Hin. cbn [is_null].
  destruct (Js.truthy (domain c0)) eqn:Ht; cbn [default].
  - destruct Hcanon as [Hcanon | Hcanon].
    + rewrite Hho, Hh1 in Hcanon. unfold scoped_hostOnly in Hcanon.
      rewrite Ht, Hin in Hcanon. discriminate.
    + unfold cdomain in Hcanon, Hm. rewrite Hdo, Hd1 in Hcanon.
      unfold scoped_domain in Hcanon. rewrite Ht in Hcanon.
      destruct (domain c0) as [d|] eqn:Ed; [|discriminate].
      rewrite <- Hcanon. now rewrite (Hm eq_refl).
  - apply option_string_eqb_refl.
Qed.

(** A cookie for [example.com] set from [www.example.com] is in the host
    scope of a request to [www.example.com]. *)
Lemma setCookie_host_in_scope_witness :
  host_in_scope (request_of www_example_com get_defaults
                            (canonicalDomain (hostname www_example_com)) 1000)
                (deref (heap setting_domain.2) 0%nat) = true.
Proof.
  assert (Hr : setting_domain.1.1 = SetDone (Some 0%nat)) by (vm_compute; reflexivity).
  apply (setCookie_host_in_scope _ _ _ _ _ _ _ _ _ (setCookie_run _ _ _ _ _ _ Hr)).
  - reflexivity.
  - right. vm_compute. reflexivity.
Defined.

(** ** Paths *)

Lemma prefix_char (x c : ascii) (s : string) :
  String.prefix (String x EmptyString) (String c s) = Ascii.eqb c x.
Proof.
  cbn [String.prefix]. destruct (Ascii.ascii_dec x c) as [->|Hne].
  - rewrite Ascii.eqb_refl. now destruct s.
  - symmetry. apply Ascii.eqb_neq. congruence.
Qed.

(** The last occurrence of a character: [-1] when there is none, else the
    place after which the character does not occur. *)
Lemma lastIndexOf_char (x : ascii) (s : string) : forall i : nat,
  (Js.lastIndexOf_from i s (String x EmptyString) = -1 /\ has_char x s = false)
  \/ (exists a b, s = (a ++ String x b)%string /\ has_char x b = false
                  /\ Js.lastIndexOf_from i s (String x EmptyString)
                     = Z.of_nat (i + String.length a)).
Proof.
  induction s as [|c s IH]; intros i; [left; split; reflexivity|].
  cbn [Js.lastIndexOf_from has_char]. rewrite prefix_char.
  destruct (IH (S i)) as [[Hr Hs] | (a & b & -> & Hb & Hr)]; rewrite Hr.
  - change (0 <=? -1) with false. cbv iota. rewrite Hs, orb_false_r.
    destruct (Ascii.eqb c x) eqn:E; [|left; split; reflexivity].
    apply Ascii.eqb_eq in E as ->. right. exists EmptyString, s.
    split; [reflexivity|]. split; [exact Hs|]. f_equal. simpl. lia.
  - replace (0 <=? Z.of_nat (S i + String.length a)) with true
      by (symmetry; apply Z.leb_le; lia).
    right. exists (String c a), b. split; [reflexivity|]. split; [exact Hb|].
    f_equal. simpl. lia.
Qed.

Lemma has_char_here (x : ascii) (a b : string) : has_char x (a ++ String x b) = true.
Proof. rewrite has_char_app. cbn [has_char]. now rewrite Ascii.eqb_refl, orb_true_r. Qed.

(** Two ways of cutting a string at a [x], the second at its last [x]: the
    first cut is the same or further left. *)
Lemma cut_at_last (x : ascii) (q r a b : string) :
  (q ++ String x r = a ++ String x b)%string -> has_char x b = false ->
  q = a \/ exists rest, a = (q ++ String x rest)%string.
Proof.
  revert a. induction q as [|c q IH]; intros a E Hb.
  - destruct a as [|c a]; [now left|]. right. cbn in E. injection E as <- ->.
    now exists a.
  - destruct a as [|c' a].
    + cbn in E. injection E as -> <-. now rewrite has_char_here in Hb.
    + cbn in E. injection E as <- E. destruct (IH a E Hb) as [-> | [rest ->]].
      * now left.
      * right. now exists rest.
Qed.

Lemma substr_first (c : ascii) (p : string) :
  Js.substr (String c p) 0 1 = String c EmptyString.
Proof. now destruct p. Qed.

Lemma eqb_slash (c : ascii) : String.eqb (String c EmptyString) "/" = Ascii.eqb c "/".
Proof. cbn [String.eqb]. now destruct (Ascii.eqb c "/"). Qed.

(** X12.  [defaultPath] gives the directory of an absolute path: the path
    up to its last slash, that slash left out, or ["/"] when this is
    empty; and ["/"] for a path that is missing, empty or not absolute. *)
Theorem defaultPath_directory (p : string) :
  defaultPath None = "/"%string
  /\ (Js.first_char p <> Some "/"%char -> defaultPath (Some p) = "/"%string)
  /\ (Js.first_char p = Some "/"%char ->
      exists dir file,
        p = (dir ++ "/" ++ file)%string /\ has_char "/" file = false
        /\ defaultPath (Some p) = match dir with
                                  | EmptyString => "/"%string
                                  | _ => dir
                                  end).
Proof.
  split; [reflexivity|]. split.
  - destruct p as [|c p]; [reflexivity|]. intros Hc. unfold defaultPath.
    rewrite substr_first, eqb_slash.
    destruct (Ascii.eqb c "/") eqn:E; [|reflexivity].
    apply Ascii.eqb_eq in E as ->. now contradiction Hc.
  - destruct p as [|c p]; [discriminate|]. intros [= ->].
    destruct (lastIndexOf_char "/" (String "/" p) 0) as [[_ Hn] | (a & b & E & Hb & Hr)].
    { cbn [has_char] in Hn. discriminate. }
    exists a, b. split; [exact E|]. split; [exact Hb|].
    unfold defaultPath. rewrite substr_first, eqb_slash.
    change (Ascii.eqb "/" "/") with true. cbn [negb].
    destruct p as [|c p].
    + destruct a as [|x a]; [reflexivity|]. exfalso.
      apply (f_equal String.length) in E. rewrite app_length in E. simpl in E. lia.
    + replace (String.eqb (String "/" (String c p)) "/") with false
        by (cbn [String.eqb]; now rewrite Ascii.eqb_refl).
      unfold Js.lastIndexOf. rewrite Hr. cbn [Nat.add].
      destruct a as [|x a]; [reflexivity|].
      replace (Z.of_nat (String.length (String x a)) =? 0) with false
        by (symmetry; apply Z.eqb_neq; simpl; lia).
      unfold Js.slice. rewrite E. cbn [Z.to_nat]. rewrite Z.sub_0_r, Nat2Z.id.
      apply substring_take.
Qed.

Lemma substr_take (a b : string) :
  Js.substr (a ++ b) 0 (Z.of_nat (String.length a)) = a.
Proof.
  unfold Js.substr.
  replace ((0 <? 0) || (Z.of_nat (String.length a) <? 0)) with false
    by (symmetry; apply orb_false_iff; split; [reflexivity | apply Z.ltb_ge; lia]).
  change (Z.to_nat 0) with 0%nat. rewrite Nat2Z.id. apply substring_take.
Qed.

(** The loop of [permutePath] on an absolute path [cur]: it adds the
    prefixes of [cur] that end just before one of its slashes, the first
    slash left out. *)
Lemma permutePath_loop_members (fuel : nat) : forall (cur : string) (perms : list string),
  Js.first_char cur = Some "/"%char -> (String.length cur <= fuel)%nat ->
  forall q, In q (permutePath_loop fuel cur perms)
            <-> In q perms
                \/ (q <> EmptyString /\ exists rest, cur = (q ++ String "/" rest)%string).
Proof.
  induction fuel as [|fuel IH]; intros cur perms Habs Hlen q.
  { destruct cur; [discriminate | simpl in Hlen; lia]. }
  destruct cur as [|c cur]; [discriminate|]. injection Habs as ->.
  cbn [permutePath_loop].
  destruct (lastIndexOf_char "/" (String "/" cur) 0) as [[_ Hn] | (a & b & E & Hb & Hr)].
  { cbn [has_char] in Hn. discriminate. }
  unfold Js.lastIndexOf. rewrite Hr. cbn [Nat.add].
  assert (Hnone : a = EmptyString ->
                  ~ (q <> EmptyString
                     /\ exists rest, String "/" cur = (q ++ String "/" rest)%string)).
  { intros -> [Hq [rest Hc]]. cbn in E. injection E as ->.
    destruct q as [|x q]; [contradiction|]. cbn in Hc. injection Hc as _ ->.
    now rewrite has_char_here in Hb. }
  destruct (1 <? Js.len (String "/" cur)) eqn:Hlong.
  - destruct a as [|x a].
    + change (Z.of_nat (String.length "") =? 0) with true. cbv iota.
      split; [now left | intros [?|?]; [assumption | now destruct (Hnone eq_refl)]].
    + replace (Z.of_nat (String.length (String x a)) =? 0) with false
        by (symmetry; apply Z.eqb_neq; simpl; lia).
      rewrite E, substr_take, <- E.
      assert (Hx : x = "/"%char) by (cbn in E; now injection E as <- _).
      subst x. rewrite IH.
      * rewrite in_app_iff. cbn [In]. split.
        -- intros [[Hq | [<- | []]] | [Hq [rest Hc]]].
           ++ now left.
           ++ right. split; [discriminate|]. now exists b.
           ++ right. split; [exact Hq|]. exists (rest ++ String "/" b)%string.
              rewrite E, Hc. now rewrite app_assoc_s.
        -- intros [Hq | [Hq [rest Hc]]]; [now left; left|].
           rewrite E in Hc. symmetry in Hc.
           destruct (cut_at_last "/" q rest _ b Hc Hb) as [-> | [rest' Ha]].
           ++ left. right. now left.
           ++ right. split; [exact Hq|]. now exists rest'.
      * reflexivity.
      * apply (f_equal String.length) in E. rewrite app_length in E.
        simpl in E, Hlen |- *. lia.
  - split; [now left | intros [?|[Hq [rest Hc]]]; [assumption | exfalso]].
    apply Z.ltb_ge in Hlong. unfold Js.len in Hlong.
    destruct cur; [|simpl in Hlong; lia].
    destruct q as [|y q]; [contradiction|]. cbn in Hc. injection Hc as _ Hc.
    now destruct q.
Qed.

Lemma ends_with_slash (p : string) :
  p <> EmptyString ->
  (Js.lastIndexOf p "/" =? Js.len p - 1) = true <-> exists r, p = (r ++ "/")%string.
Proof.
  intros Hne. unfold Js.lastIndexOf, Js.len.
  destruct (lastIndexOf_char "/" p 0) as [[Hr Hn] | (a & b & E & Hb & Hr)]; rewrite Hr.
  - split.
    + intros H%Z.eqb_eq. destruct p; [contradiction | simpl in H; lia].
    + intros [r ->]. now rewrite has_char_here in Hn.
  - cbn [Nat.add]. split.
    + intros H%Z.eqb_eq. rewrite E, app_length in H. simpl in H.
      destruct b; [now exists a | simpl in H; lia].
    + intros [r Hp]. apply Z.eqb_eq. rewrite E in Hp |- *.
      destruct (cut_at_last "/" a b r EmptyString Hp eq_refl) as [-> | [rest ->]].
      * apply app_inv_head_s in Hp. injection Hp as ->.
        rewrite app_length. simpl. lia.
      * rewrite app_assoc_s in Hp. apply app_inv_head_s in Hp. cbn in Hp.
        assert (Hb' : b = (rest ++ "/")%string) by congruence.
        rewrite Hb', has_char_here in Hb. discriminate.
Qed.

(** X13.  For an absolute path, [permutePath] lists ["/"], the path itself
    unless it ends with a slash, and every part of the path that ends just
    before one of its slashes (the first slash apart), and nothing else. *)
Theorem permutePath_members (p q : string) :
  Js.first_char p = Some "/"%char ->
  In q (permutePath p)
  <-> q = "/"%string
      \/ (q = p /\ forall r, p <> (r ++ "/")%string)
      \/ (q <> EmptyString /\ exists rest, p = (q ++ String "/" rest)%string).
Proof.
  intros Habs. unfold permutePath.
  destruct (String.eqb p "/") eqn:Eroot.
  { apply String.eqb_eq in Eroot as ->. cbn [In]. split.
    - intros [<- | []]. now left.
    - intros [-> | [[_ Hn] | [Hq [rest Hc]]]]; [now left | |].
      + now destruct (Hn EmptyString).
      + destruct q as [|y q]; [contradiction|]. cbn in Hc. injection Hc as _ Hc.
        now destruct q. }
  apply String.eqb_neq in Eroot.
  destruct (Js.lastIndexOf p "/" =? Js.len p - 1) eqn:Eend.
  - apply ends_with_slash in Eend as [r ->]; [|now destruct p].
    assert (Hr : Js.first_char r = Some "/"%char).
    { destruct r as [|c r]; [now destruct Eroot | exact Habs]. }
    assert (Hsub : Js.substr (r ++ "/") 0 (Js.len (r ++ "/") - 1) = r).
    { unfold Js.len. rewrite app_length.
      replace (Z.of_nat (String.length r + String.length "/") - 1)
        with (Z.of_nat (String.length r)) by (simpl; lia).
      apply substr_take. }
    rewrite Hsub, in_app_iff, permutePath_loop_members by (exact Hr || lia).
    cbn [In]. split.
    + intros [[[<- | []] | [Hq [rest Hc]]] | [<- | []]].
      * right. right. split; [intros ->; discriminate Hr|]. now exists EmptyString.
      * right. right. split; [exact Hq|]. exists (rest ++ "/")%string.
        rewrite Hc. now rewrite app_assoc_s.
      * now left.
    + intros [-> | [[_ Hn] | [Hq [rest Hc]]]].
      * right. now left.
      * now destruct (Hn r).
      * left. symmetry in Hc.
        destruct (cut_at_last "/" q rest r EmptyString Hc eq_refl) as [-> | [rest' ->]].
        -- left. now left.
        -- right. split; [exact Hq|]. now exists rest'.
  - assert (Hno : forall r, p <> (r ++ "/")%string).
    { intros r Hp. assert (Hex : exists r, p = (r ++ "/")%string) by eauto.
      apply ends_with_slash in Hex; [congruence | now destruct p]. }
    rewrite in_app_iff, permutePath_loop_members by (exact Habs || lia).
    cbn [In]. split.
    + intros [[[<- | []] | Hq] | [<- | []]].
      * right. left. split; [reflexivity | exact Hno].
      * right. now right.
      * now left.
    + intros [-> | [[-> _] | Hq]].
      * right. now left.
      * left. left. now left.
      * left. now right.
Qed.

(** The paths under which a cookie for [/a/b/c] may be stored. *)
Lemma permutePath_members_witness :
  In "/a/b"%string (permutePath "/a/b/c") /\ ~ In "/a/b/"%string (permutePath "/a/b/c").
Proof.
  split.
  - apply (permutePath_members "/a/b/c" "/a/b" eq_refl). right. right.
    split; [discriminate|]. now exists "c"%string.
  - intros Hin. apply (permutePath_members "/a/b/c" "/a/b/" eq_refl) in Hin.
    destruct Hin as [Hq | [[Hq _] | [_ [rest Hc]]]]; discriminate.
Defined.

(** ** Canonical host names *)

Lemma lower_char_space (c : ascii) : Js.is_space (Js.lower_char c) = Js.is_space c.
Proof. destruct c as [[] [] [] [] [] [] [] []]; reflexivity. Qed.

Lemma lower_char_dot (c : ascii) : Js.is_char "." (Js.lower_char c) = Js.is_char "." c.
Proof. destruct c as [[] [] [] [] [] [] [] []]; reflexivity. Qed.

Lemma lower_char_ascii (c : ascii) :
  Js.in_range 1 127 (Js.lower_char c) = Js.in_range 1 127 c.
Proof. destruct c as [[] [] [] [] [] [] [] []]; reflexivity. Qed.

Lemma trimStart_lower (s : string) :
  Js.trimStart (Js.toLowerCase s) = Js.toLowerCase (Js.trimStart s).
Proof.
  induction s as [|c s IH]; [reflexivity|]. cbn [Js.toLowerCase Js.trimStart].
  rewrite lower_char_space. now destruct (Js.is_space c).
Qed.

Lemma trimEnd_lower (s : string) :
  Js.trimEnd (Js.toLowerCase s) = Js.toLowerCase (Js.trimEnd s).
Proof.
  induction s as [|c s IH]; [reflexivity|]. cbn [Js.toLowerCase Js.trimEnd].
  rewrite IH, lower_char_space.
  destruct (Js.trimEnd s); cbn [Js.toLowerCase]; [now destruct (Js.is_space c) | reflexivity].
Qed.

Lemma trim_lower (s : string) : Js.trim (Js.toLowerCase s) = Js.toLowerCase (Js.trim s).
Proof. unfold Js.trim. now rewrite trimStart_lower, trimEnd_lower. Qed.

Lemma strip_leading_dot_lower (s : string) :
  strip_leading_dot (Js.toLowerCase s) = Js.toLowerCase (strip_leading_dot s).
Proof.
  destruct s as [|c s]; [reflexivity|]. cbn [Js.toLowerCase strip_leading_dot].
  rewrite lower_char_dot. now destruct (Js.is_char "." c).
Qed.

Lemma NON_ASCII_test (s : string) : Re.test NON_ASCII s = negb (is_ascii s).
Proof.
  unfold NON_ASCII, is_ascii. rewrite Cls_test.
  induction s as [|c s IH]; [reflexivity|]. cbn [some_char all_chars].
  rewrite IH. now destruct (Js.in_range 1 127 c).
Qed.

Lemma is_ascii_lower (s : string) : is_ascii (Js.toLowerCase s) = is_ascii s.
Proof.
  unfold is_ascii. induction s as [|c s IH]; [reflexivity|].
  cbn [Js.toLowerCase all_chars]. now rewrite lower_char_ascii, IH.
Qed.

Lemma trimStart_ascii (s : string) : is_ascii s = true -> is_ascii (Js.trimStart s) = true.
Proof.
  unfold is_ascii. induction s as [|c s IH]; [reflexivity|]. cbn [Js.trimStart].
  destruct (Js.is_space c); [|easy]. cbn [all_chars].
  intros [_ Hs]%andb_true_iff. now apply IH.
Qed.

Lemma trimEnd_ascii (s : string) : is_ascii s = true -> is_ascii (Js.trimEnd s) = true.
Proof.
  unfold is_ascii. induction s as [|c s IH]; [reflexivity|]. cbn [Js.trimEnd all_chars].
  intros [Hc Hs]%andb_true_iff. specialize (IH Hs).
  destruct (Js.trimEnd s); [destruct (Js.is_space c)|]; cbn [all_chars] in *;
    rewrite ?Hc, ?IH; reflexivity.
Qed.

Lemma strip_leading_dot_ascii (s : string) :
  is_ascii s = true -> is_ascii (strip_leading_dot s) = true.
Proof.
  unfold is_ascii. destruct s as [|c s]; [reflexivity|]. cbn [strip_leading_dot].
  destruct (Js.is_char "." c); [|easy]. cbn [all_chars]. now intros [_ ?]%andb_true_iff.
Qed.

Lemma canonicalDomain_ascii `{Imports} (s : string) :
  is_ascii s = true ->
  canonicalDomain (Some s) = Some (Js.toLowerCase (strip_leading_dot (Js.trim s))).
Proof.
  intros Hs. unfold canonicalDomain. cbv zeta. rewrite NON_ASCII_test.
  unfold Js.trim at 1.
  now rewrite strip_leading_dot_ascii by (now apply trimEnd_ascii, trimStart_ascii).
Qed.

(** X14.  [canonicalDomain] gives a name in lower case for every string
    (and [null] only for [null]).  On US-ASCII names it does not depend on
    the case of the letters nor on white space around the name, and it
    drops one leading dot. *)
Theorem canonicalDomain_lower_case `{Imports} (s : string) :
  (exists d, canonicalDomain (Some s) = Some d /\ Js.toLowerCase d = d)
  /\ (is_ascii s = true ->
      canonicalDomain (Some s) = Some (Js.toLowerCase (strip_leading_dot (Js.trim s)))
      /\ canonicalDomain (Some (Js.toLowerCase s)) = canonicalDomain (Some s)
      /\ canonicalDomain (Some (Js.trim s)) = canonicalDomain (Some s)).
Proof.
  split.
  - unfold canonicalDomain. cbv zeta. eexists. split; [reflexivity|].
    apply toLowerCase_idem.
  - intros Hs. split; [now apply canonicalDomain_ascii|]. split.
    + rewrite !canonicalDomain_ascii by (now rewrite ?is_ascii_lower).
      now rewrite trim_lower, strip_leading_dot_lower, toLowerCase_idem.
    + rewrite !canonicalDomain_ascii;
        [now rewrite trim_idem | exact Hs |].
      unfold Js.trim. now apply trimEnd_ascii, trimStart_ascii.
Qed.

(** A host name as a user may type it. *)
Lemma canonicalDomain_lower_case_witness :
  canonicalDomain (H := sample_imports) (Some " .Example.COM "%string)
  = Some "example.com"%string.
Proof.
  destruct (canonicalDomain_lower_case (H := sample_imports) " .Example.COM ")
    as [_ Ha].
  destruct (Ha eq_refl) as (-> & _). reflexivity.
Defined.

(** ** The dates that [parseDate] gives *)

Lemma digit_val_nonneg (d : ascii) : Js.is_digit d = true -> 0 <= Js.digit_val d.
Proof.
  unfold Js.is_digit, Js.in_range, Js.digit_val.
  intros [H1 _]%andb_true_iff. apply Nat.leb_le in H1. lia.
Qed.

Lemma digits_from_nonneg (s : string) : forall acc, 0 <= acc -> 0 <= Js.digits_from acc s.
Proof.
  induction s as [|c s IH]; intros acc Hacc; [exact Hacc|]. cbn [Js.digits_from].
  destruct (Js.is_digit c) eqn:Hc; [|exact Hacc].
  apply IH. pose proof (digit_val_nonneg c Hc). lia.
Qed.

Lemma TIME_not_negative (token : string) (result : Re.captures) :
  Re.exec TIME token = Some result ->
  exists hour minutes seconds,
    Js.parseInt (default EmptyString (Re.get 1 result)) = Some hour
    /\ Js.parseInt (default EmptyString (Re.get 2 result)) = Some minutes
    /\ Js.parseInt (default EmptyString (Re.get 3 result)) = Some seconds
    /\ 0 <= hour /\ 0 <= minutes /\ 0 <= seconds.
Proof.
  intros Hx. apply exec_sound in Hx as (s' & cs' & HM & ->).
  unfold TIME, Re.Lit in HM.
  repeat match goal with
         | H : Matches (Re.Seq _ _) _ _ _ _ |- _ => inversion H; subst; clear H
         end.
  repeat match goal with
         | H : Matches (Re.Grp _ (Re.OneTwo _)) _ _ _ _ |- _ =>
             apply Grp_OneTwo_digits in H as (? & ? & ? & ? & ?); subst
         | H : Matches (Re.Star _) _ _ _ _ |- _ => apply Star_captures in H; subst
         | H : Matches (Re.Cls _) _ _ _ _ |- _ => apply Cls_captures in H; subst
         | H : Matches Re.Eos _ _ _ _ |- _ => inversion H; subst; clear H
         end.
  cbn [Re.get Nat.eqb default]. simpl default.
  do 3 eexists.
  repeat match goal with
         | |- _ /\ _ => split
         | |- Js.parseInt _ = Some _ => apply parseInt_digit; assumption
         end; apply digits_from_nonneg; lia.
Qed.

Lemma try_year_keeps_time f token f' :
  try_year f token = Next f' ->
  f_hour f' = f_hour f /\ f_minutes f' = f_minutes f /\ f_seconds f' = f_seconds f.
Proof.
  unfold try_year. destruct (is_null (f_year f)); [|now intros [= <-]].
  destruct (Re.exec YEAR token); [|now intros [= <-]].
  destruct (Js.parseInt _); [|discriminate].
  destruct (_ <? 1601); [discriminate|]. now intros [= <-].
Qed.

Lemma try_month_keeps_time f token f' :
  try_month f token = Next f' ->
  f_hour f' = f_hour f /\ f_minutes f' = f_minutes f /\ f_seconds f' = f_seconds f.
Proof.
  unfold try_month.
  destruct (if is_null (f_month f) then Re.exec MONTH token else None);
    [|apply try_year_keeps_time].
  destruct (assoc _ _); [|discriminate]. now intros [= <-].
Qed.

Lemma try_day_keeps_time f token f' :
  try_day f token = Next f' ->
  f_hour f' = f_hour f /\ f_minutes f' = f_minutes f /\ f_seconds f' = f_seconds f.
Proof.
  unfold try_day.
  destruct (if is_null (f_day f) then Re.exec DAY_OF_MONTH token else None);
    [|apply try_month_keeps_time].
  destruct (Js.parseInt _); [|discriminate].
  destruct (_ || _); [discriminate|]. now intros [= <-].
Qed.

Lemma parseDate_token_not_negative f raw f' :
  time_not_negative f -> parseDate_token f raw = Next f' -> time_not_negative f'.
Proof.
  intros Hf. unfold parseDate_token.
  destruct (Js.trim raw) as [|c token]; [now intros [= <-]|].
  unfold try_time.
  destruct (if is_null (f_seconds f) then Re.exec TIME (String c token) else None)
    as [result|] eqn:Hx.
  - destruct (is_null (f_seconds f)); [|discriminate].
    apply TIME_not_negative in Hx as (h & m & s & -> & -> & -> & Hh & Hm & Hs).
    destruct (_ || _); [discriminate|]. intros [= <-].
    split; cbn; intros ? [= <-]; assumption.
  - intros Hd. apply try_day_keeps_time in Hd as (Eh & Em & Es).
    destruct Hf as [Hh Hm Hs]. split; intros ?; rewrite ?Eh, ?Em, ?Es; auto.
Qed.

Lemma parseDate_loop_not_negative tokens : forall f f',
  time_not_negative f -> parseDate_loop tokens f = Some f' -> time_not_negative f'.
Proof.
  induction tokens as [|raw rest IH]; simpl; intros f f' Hf.
  - now intros [= <-].
  - destruct (parseDate_token f raw) eqn:Ht; [|discriminate].
    apply IH. eapply parseDate_token_not_negative; eassumption.
Qed.

Lemma DayFromYear_1601 (y : Z) : 1601 <= y -> -134774 <= JsDate.DayFromYear y.
Proof.
  intros Hy. unfold JsDate.DayFromYear. Z.div_mod_to_equations. lia.
Qed.

(** X15.  A date that [parseDate] returns was built from fields in range:
    a year of 1601 or more, a month from 0 to 11, a day from 1 to 31 (not
    checked against the month), an hour up to 23, minutes and seconds up to
    59.  It is never before the first of January 1601. *)
Theorem parseDate_fields_in_range (str : string) (date : Z) :
  parseDate str = Some date ->
  (exists year month day hour minutes seconds,
      date = JsDate.UTC year month day hour minutes seconds
      /\ 1601 <= year /\ 0 <= month <= 11 /\ 1 <= day <= 31
      /\ 0 <= hour <= 23 /\ 0 <= minutes <= 59 /\ 0 <= seconds <= 59)
  /\ -11644473600000 <= date.
Proof.
  unfold parseDate. destruct str as [|c str]; [discriminate|].
  destruct (parseDate_loop _ no_fields) as [f|] eqn:Hloop; [|discriminate].
  pose proof (parseDate_loop_checked _ _ _ no_fields_checked Hloop) as [Hy Hd Hm Ht].
  assert (H0 : time_not_negative no_fields) by (split; discriminate).
  pose proof (parseDate_loop_not_negative _ _ _ H0 Hloop) as [Nh Nm Ns].
  unfold parseDate_finish.
  destruct (f_seconds f) as [seconds|] eqn:Es; [|discriminate].
  destruct (f_day f) as [day|] eqn:Ed; [|discriminate].
  destruct (f_month f) as [month|] eqn:Em; [|discriminate].
  destruct (f_year f) as [year|] eqn:Ey; [|discriminate].
  destruct (Ht seconds eq_refl) as (Hs & hour & minutes & Eh & Emi & Hh & Hmi).
  rewrite Eh, Emi. cbn [default]. unfold id. intros [= <-].
  specialize (Hy year eq_refl). specialize (Hd day eq_refl). specialize (Hm month eq_refl).
  specialize (Nh hour Eh). specialize (Nm minutes Emi). specialize (Ns seconds eq_refl).
  split.
  - exists year, month, day, hour, minutes, seconds. repeat split; lia.
  - unfold JsDate.UTC, JsDate.MakeDate, JsDate.MakeDay, JsDate.MakeTime,
      JsDate.msPerDay, JsDate.msPerHour, JsDate.msPerMinute, JsDate.msPerSecond.
    replace ((0 <=? year) && (year <=? 99)) with false
      by (symmetry; apply andb_false_iff; right; apply Z.leb_gt; lia).
    replace (month / 12) with 0 by (symmetry; apply Z.div_small; lia).
    rewrite Z.mod_small by lia. rewrite Z.add_0_r.
    pose proof (DayFromYear_1601 year Hy) as Hdy.
    assert (Hb : 0 <= JsDate.DaysBeforeMonth
                        (if JsDate.DaysInYear year =? 366 then 1 else 0) month).
    { assert (Hc : month = 0 \/ month = 1 \/ month = 2 \/ month = 3 \/ month = 4
                   \/ month = 5 \/ month = 6 \/ month = 7 \/ month = 8
                   \/ month = 9 \/ month = 10 \/ month = 11) by lia.
      destruct (JsDate.DaysInYear year =? 366);
        repeat (destruct Hc as [-> | Hc]; [cbn; lia|]); subst; cbn; lia. }
    nia.
Qed.

(** A date of the form of RFC 850, with a two-digit year. *)
Lemma parseDate_fields_in_range_witness :
  -11644473600000 <= 784111777000.
Proof.
  apply (parseDate_fields_in_range "Sunday, 06-Nov-94 08:49:37 GMT" 784111777000).
  vm_compute. reflexivity.
Defined.

(** ** From a date to its text and back *)

Lemma time_token_TIME (h1 h2 m1 m2 s1 s2 : ascii) :
  Js.is_digit h1 = true -> Js.is_digit h2 = true -> Js.is_digit m1 = true ->
  Js.is_digit m2 = true -> Js.is_digit s1 = true -> Js.is_digit s2 = true ->
  Re.exec TIME (time_token h1 h2 m1 m2 s1 s2)
  = Some [(0%nat, time_token h1 h2 m1 m2 s1 s2); (3%nat, two_digits s1 s2);
          (2%nat, two_digits m1 m2); (1%nat, two_digits h1 h2)].
Proof.
  intros H1 H2 H3 H4 H5 H6. apply digit_is_seen in H1, H2, H3, H4, H5, H6.
  unfold TIME, time_token, two_digits.
  unfold Re.exec, Re.OneTwo, Re.Lit.
  repeat (cbn [Re.run Re.star]; use_digits;
          change (not_digit ":") with true;
          change (Js.is_char ":" ":") with true; cbv iota).
  cbn [String.length Nat.eqb]. reflexivity.
Qed.

(** *** The calendar *)

Lemma YearFromTime_bounds (t : Z) :
  JsDate.DayFromYear (JsDate.YearFromTime t) <= JsDate.Day t
  < JsDate.DayFromYear (JsDate.YearFromTime t + 1).
Proof.
  unfold JsDate.YearFromTime. cbv zeta. generalize (JsDate.Day t). intros d.
  set (y := 1970 + d * 400 / 146097).
  assert (Hlo : JsDate.DayFromYear (y - 1) <= d).
  { unfold JsDate.DayFromYear, y. Z.div_mod_to_equations. lia. }
  assert (Hhi : d < JsDate.DayFromYear (y + 2)).
  { unfold JsDate.DayFromYear, y. Z.div_mod_to_equations. lia. }
  destruct (Z.leb_spec (JsDate.DayFromYear (y + 1)) d).
  - replace (y + 1 + 1) with (y + 2) by lia. lia.
  - destruct (Z.leb_spec (JsDate.DayFromYear y) d); [lia|].
    replace (y - 1 + 1) with y by lia. lia.
Qed.

Lemma DaysInYear_step (y : Z) :
  JsDate.DayFromYear (y + 1) - JsDate.DayFromYear y = JsDate.DaysInYear y.
Proof.
  unfold JsDate.DayFromYear, JsDate.DaysInYear.
  destruct (Z.eqb_spec (y mod 4) 0); cbn [negb];
    [destruct (Z.eqb_spec (y mod 100) 0); cbn [negb];
     [destruct (Z.eqb_spec (y mod 400) 0); cbn [negb]|]|];
    Z.div_mod_to_equations; lia.
Qed.

Lemma time_of_day (t : Z) :
  0 <= JsDate.HourFromTime t <= 23 /\ 0 <= JsDate.MinFromTime t <= 59
  /\ 0 <= JsDate.SecFromTime t <= 59
  /\ JsDate.Day t * JsDate.msPerDay
     + JsDate.MakeTime (JsDate.HourFromTime t) (JsDate.MinFromTime t)
                       (JsDate.SecFromTime t) 0
     = t - t mod 1000.
Proof.
  unfold JsDate.HourFromTime, JsDate.MinFromTime, JsDate.SecFromTime, JsDate.Day,
    JsDate.MakeTime, JsDate.msPerDay, JsDate.msPerHour, JsDate.msPerMinute,
    JsDate.msPerSecond.
  repeat split; try (Z.div_mod_to_equations; lia).
Qed.

Lemma DayWithinYear_bounds (t : Z) :
  0 <= JsDate.DayWithinYear t < 365 + JsDate.InLeapYear t.
Proof.
  unfold JsDate.DayWithinYear, JsDate.InLeapYear.
  pose proof (YearFromTime_bounds t) as Hy.
  pose proof (DaysInYear_step (JsDate.YearFromTime t)) as Hs.
  assert (Hd : JsDate.DaysInYear (JsDate.YearFromTime t) = 365
               \/ JsDate.DaysInYear (JsDate.YearFromTime t) = 366).
  { unfold JsDate.DaysInYear. repeat destruct (negb _); auto. }
  destruct Hd as [Hd | Hd]; rewrite Hd in *; cbn [Z.eqb Pos.eqb]; lia.
Qed.

Lemma month_and_date (t : Z) :
  0 <= JsDate.MonthFromTime t <= 11 /\ 1 <= JsDate.DateFromTime t <= 31
  /\ JsDate.DaysBeforeMonth (JsDate.InLeapYear t) (JsDate.MonthFromTime t)
     + JsDate.DateFromTime t - 1 = JsDate.DayWithinYear t.
Proof.
  pose proof (DayWithinYear_bounds t) as Hd.
  assert (Hl : JsDate.InLeapYear t = 0 \/ JsDate.InLeapYear t = 1)
    by (unfold JsDate.InLeapYear; destruct (_ =? 366); auto).
  unfold JsDate.DateFromTime, JsDate.MonthFromTime. cbv zeta.
  generalize dependent (JsDate.DayWithinYear t). intros d Hd.
  generalize dependent (JsDate.InLeapYear t). intros leap Hd Hl.
  repeat match goal with
         | |- context [?a <? ?b] => destruct (Z.ltb_spec a b)
         end; cbn [JsDate.DaysBeforeMonth]; lia.
Qed.

Lemma MakeDay_of_time (t : Z) :
  JsDate.MakeDay (JsDate.YearFromTime t) (JsDate.MonthFromTime t) (JsDate.DateFromTime t)
  = JsDate.Day t.
Proof.
  destruct (month_and_date t) as (Hm & _ & Hd).
  unfold JsDate.MakeDay. cbv zeta.
  replace (JsDate.MonthFromTime t / 12) with 0 by (symmetry; apply Z.div_small; lia).
  rewrite Z.mod_small, Z.add_0_r by lia.
  fold (JsDate.InLeapYear t). unfold JsDate.DayWithinYear in Hd. lia.
Qed.

(** [Date.UTC] of the calendar fields of a date is the date, with its
    milliseconds dropped. *)
Lemma UTC_of_fields (t : Z) :
  99 < JsDate.YearFromTime t ->
  JsDate.UTC (JsDate.YearFromTime t) (JsDate.MonthFromTime t) (JsDate.DateFromTime t)
             (JsDate.HourFromTime t) (JsDate.MinFromTime t) (JsDate.SecFromTime t)
  = t - t mod 1000.
Proof.
  intros Hy. unfold JsDate.UTC, JsDate.MakeDate. cbv zeta.
  replace ((0 <=? JsDate.YearFromTime t) && (JsDate.YearFromTime t <=? 99)) with false
    by (symmetry; apply andb_false_iff; right; apply Z.leb_gt; lia).
  rewrite MakeDay_of_time. apply time_of_day.
Qed.

(** *** Numbers in a template *)

Lemma digit_facts (k : Z) :
  0 <= k <= 9 -> Js.is_digit (digit k) = true /\ digit_value (digit k) = k.
Proof.
  intros Hk.
  assert (Hc : k = 0 \/ k = 1 \/ k = 2 \/ k = 3 \/ k = 4 \/ k = 5 \/ k = 6 \/ k = 7
               \/ k = 8 \/ k = 9) by lia.
  repeat (destruct Hc as [-> | Hc]; [split; reflexivity|]). subst. split; reflexivity.
Qed.

Lemma show_step (fuel n : nat) (acc : string) :
  Js.show_nat_fuel (S fuel) n acc
  = if (n <? 10)%nat then String (ascii_of_nat (48 + n mod 10)) acc
    else Js.show_nat_fuel fuel (n / 10) (String (ascii_of_nat (48 + n mod 10)) acc).
Proof. reflexivity. Qed.

Lemma show_Z_step (z : Z) (fuel : nat) (acc : string) :
  0 <= z ->
  Js.show_nat_fuel (S fuel) (Z.to_nat z) acc
  = if z <? 10 then String (digit (z mod 10)) acc
    else Js.show_nat_fuel fuel (Z.to_nat (z / 10)) (String (digit (z mod 10)) acc).
Proof.
  intros Hz. rewrite show_step. unfold digit.
  rewrite Z2Nat.inj_mod, Z2Nat.inj_div by lia. change (Z.to_nat 10) with 10%nat.
  destruct (Z.ltb_spec z 10), (Nat.ltb_spec (Z.to_nat z) 10); try reflexivity; lia.
Qed.

Lemma pad2_digits (n : Z) :
  0 <= n <= 99 -> pad2 n = two_digits (digit (n / 10)) (digit (n mod 10)).
Proof.
  intros Hn. unfold pad2, Js.show_Z, two_digits.
  replace (n <? 0) with false by (symmetry; apply Z.ltb_ge; lia).
  destruct (Z.leb_spec 10 n).
  - replace (S (Z.to_nat n)) with (S (S (Z.to_nat n - 1))) by lia.
    rewrite show_Z_step by lia.
    replace (n <? 10) with false by (symmetry; apply Z.ltb_ge; lia).
    rewrite show_Z_step by (apply Z.div_pos; lia).
    replace (n / 10 <? 10) with true
      by (symmetry; apply Z.ltb_lt; apply Z.div_lt_upper_bound; lia).
    now rewrite (Z.mod_small (n / 10)) by (split; [apply Z.div_pos|
                                            apply Z.div_lt_upper_bound]; lia).
  - rewrite show_Z_step by lia.
    replace (n <? 10) with true by (symmetry; apply Z.ltb_lt; lia).
    rewrite Z.div_small, Z.mod_small by lia. reflexivity.
Qed.

Lemma show_year (y : Z) :
  1000 <= y <= 9999 ->
  Js.show_Z y = four_digits (digit (y / 1000)) (digit (y / 100 mod 10))
                            (digit (y / 10 mod 10)) (digit (y mod 10)).
Proof.
  intros Hy. unfold Js.show_Z, four_digits.
  replace (y <? 0) with false by (symmetry; apply Z.ltb_ge; lia).
  replace (S (Z.to_nat y)) with (S (S (S (S (Z.to_nat y - 3))))) by lia.
  assert (H1 : 100 <= y / 10 <= 999) by (Z.div_mod_to_equations; lia).
  assert (H2 : 10 <= y / 10 / 10 <= 99) by (Z.div_mod_to_equations; lia).
  assert (H3 : 1 <= y / 10 / 10 / 10 <= 9) by (Z.div_mod_to_equations; lia).
  rewrite show_Z_step by lia.
  replace (y <? 10) with false by (symmetry; apply Z.ltb_ge; lia).
  rewrite show_Z_step by lia.
  replace (y / 10 <? 10) with false by (symmetry; apply Z.ltb_ge; lia).
  rewrite show_Z_step by lia.
  replace (y / 10 / 10 <? 10) with false by (symmetry; apply Z.ltb_ge; lia).
  rewrite show_Z_step by lia.
  replace (y / 10 / 10 / 10 <? 10) with true by (symmetry; apply Z.ltb_lt; lia).
  rewrite (Z.mod_small (y / 10 / 10 / 10)) by lia.
  rewrite !Z.div_div by lia. reflexivity.
Qed.

(** *** The tokens of a printed date *)

Lemma two_digits_DAY (d1 d2 : ascii) :
  Js.is_digit d1 = true -> Js.is_digit d2 = true ->
  Re.exec DAY_OF_MONTH (two_digits d1 d2) = whole_match (two_digits d1 d2).
Proof.
  intros H1 H2. apply digit_is_seen in H1, H2.
  unfold DAY_OF_MONTH, two_digits. run_pattern; reflexivity.
Qed.

Lemma day_token (f : DateFields) (d1 d2 : ascii) :
  Js.is_digit d1 = true -> Js.is_digit d2 = true ->
  f_seconds f = None -> f_day f = None ->
  1 <= 10 * digit_value d1 + digit_value d2 <= 31 ->
  parseDate_token f (two_digits d1 d2)
  = Next (mkDateFields (f_hour f) (f_minutes f) (f_seconds f)
                       (Some (10 * digit_value d1 + digit_value d2))
                       (f_month f) (f_year f)).
Proof.
  intros H1 H2 Hs Hd Hr.
  assert (Hall : all_chars Js.is_digit (two_digits d1 d2) = true)
    by (cbn [two_digits all_chars]; now rewrite H1, H2).
  unfold parseDate_token. rewrite (digits_trim _ Hall).
  unfold two_digits at 1. cbv iota. unfold try_time.
  rewrite Hs. cbn [is_null]. rewrite (digits_not_TIME _ Hall).
  unfold try_day. rewrite Hd. cbn [is_null]. rewrite (two_digits_DAY d1 d2 H1 H2).
  unfold whole_match, result_to_string. cbn [Re.get Nat.eqb default]. unfold id.
  unfold two_digits. cbn [String.append].
  rewrite (parseInt_digit d1 _ H1). cbn [Js.digits_from]. rewrite H1, H2.
  change (Js.is_digit ",") with false. cbv iota.
  replace (10 * (10 * 0 + Js.digit_val d1) + Js.digit_val d2)
    with (10 * digit_value d1 + digit_value d2) by (unfold digit_value; lia).
  replace ((10 * digit_value d1 + digit_value d2 <? 1)
           || (31 <? 10 * digit_value d1 + digit_value d2)) with false;
    [now rewrite ?Hs|].
  symmetry. apply orb_false_iff. split; [apply Z.ltb_ge | apply Z.ltb_ge]; lia.
Qed.

Lemma month_token (day month : Z) :
  0 <= month <= 11 ->
  parseDate_token (mkDateFields None None None (Some day) None None)
                  (nth_string NUM_TO_MONTH month)
  = Next (mkDateFields None None None (Some day) (Some month) None).
Proof.
  intros Hm.
  assert (Hc : month = 0 \/ month = 1 \/ month = 2 \/ month = 3 \/ month = 4
               \/ month = 5 \/ month = 6 \/ month = 7 \/ month = 8
               \/ month = 9 \/ month = 10 \/ month = 11) by lia.
  repeat (destruct Hc as [-> | Hc]; [reflexivity|]). subst. reflexivity.
Qed.

Lemma weekday_token (day : Z) :
  0 <= day <= 6 ->
  parseDate_token no_fields (nth_string NUM_TO_DAY day) = Next no_fields.
Proof.
  intros Hd.
  assert (Hc : day = 0 \/ day = 1 \/ day = 2 \/ day = 3 \/ day = 4 \/ day = 5
               \/ day = 6) by lia.
  repeat (destruct Hc as [-> | Hc]; [reflexivity|]). subst. reflexivity.
Qed.

Lemma year_token_with_line_break (f : DateFields) (d1 d2 d3 d4 : ascii) :
  Js.is_digit d1 = true -> Js.is_digit d2 = true ->
  Js.is_digit d3 = true -> Js.is_digit d4 = true ->
  parseDate_token f (four_digits d1 d2 d3 d4 ++ String newline EmptyString)
  = parseDate_token f (four_digits d1 d2 d3 d4).
Proof.
  intros H1 H2 H3 H4.
  assert (Hall : all_chars Js.is_digit (four_digits d1 d2 d3 d4) = true)
    by (cbn [four_digits all_chars]; now rewrite H1, H2, H3, H4).
  unfold parseDate_token. rewrite (digits_trim _ Hall).
  replace (Js.trim (four_digits d1 d2 d3 d4 ++ String newline EmptyString))
    with (four_digits d1 d2 d3 d4); [reflexivity|].
  unfold Js.trim, four_digits. cbn [String.append Js.trimStart].
  rewrite (digit_not_space d1 H1). cbn [Js.trimEnd].
  rewrite (digit_not_space d1 H1), (digit_not_space d2 H2), (digit_not_space d3 H3),
    (digit_not_space d4 H4).
  reflexivity.
Qed.

Lemma time_token_step (f : DateFields) (h1 h2 m1 m2 s1 s2 : ascii) :
  Js.is_digit h1 = true -> Js.is_digit h2 = true -> Js.is_digit m1 = true ->
  Js.is_digit m2 = true -> Js.is_digit s1 = true -> Js.is_digit s2 = true ->
  f_seconds f = None ->
  10 * digit_value h1 + digit_value h2 <= 23 ->
  10 * digit_value m1 + digit_value m2 <= 59 ->
  10 * digit_value s1 + digit_value s2 <= 59 ->
  parseDate_token f (time_token h1 h2 m1 m2 s1 s2)
  = Next (mkDateFields (Some (10 * digit_value h1 + digit_value h2))
                       (Some (10 * digit_value m1 + digit_value m2))
                       (Some (10 * digit_value s1 + digit_value s2))
                       (f_day f) (f_month f) (f_year f)).
Proof.
  intros H1 H2 H3 H4 H5 H6 Hs Rh Rm Rs.
  assert (Htrim : Js.trim (time_token h1 h2 m1 m2 s1 s2) = time_token h1 h2 m1 m2 s1 s2).
  { unfold Js.trim, time_token. cbn [Js.trimStart]. rewrite (digit_not_space h1 H1).
    cbn [Js.trimEnd].
    rewrite (digit_not_space h1 H1), (digit_not_space h2 H2), (digit_not_space m1 H3),
      (digit_not_space m2 H4), (digit_not_space s1 H5), (digit_not_space s2 H6).
    reflexivity. }
  unfold parseDate_token. rewrite Htrim. unfold time_token at 1. cbv iota.
  unfold try_time. rewrite Hs. cbn [is_null].
  rewrite (time_token_TIME _ _ _ _ _ _ H1 H2 H3 H4 H5 H6).
  cbn [Re.get Nat.eqb default]. unfold id.
  rewrite !two_digits_parseInt by assumption.
  replace ((23 <? 10 * digit_value h1 + digit_value h2)
           || (59 <? 10 * digit_value m1 + digit_value m2)
           || (59 <? 10 * digit_value s1 + digit_value s2)) with false; [reflexivity|].
  symmetry. rewrite !orb_false_iff. repeat split; apply Z.ltb_ge; lia.
Qed.

Lemma found_all_token (f : DateFields) (raw : string) :
  f_seconds f <> None -> f_day f <> None -> f_month f <> None -> f_year f <> None ->
  parseDate_token f raw = Next f.
Proof.
  intros Hs Hd Hm Hy. unfold parseDate_token.
  destruct (Js.trim raw) as [|c token]; [reflexivity|].
  unfold try_time, try_day, try_month, try_year.
  destruct (f_seconds f), (f_day f), (f_month f), (f_year f); try contradiction.
  reflexivity.
Qed.

Lemma split_piece (sep : ascii -> bool) (a : string) (c : ascii) (s : string) :
  all_chars (fun x => negb (sep x)) a = true -> sep c = true ->
  Js.split sep (a ++ String c s) = a :: Js.split sep s.
Proof.
  intros Ha Hc. induction a as [|x a IH].
  - cbn [String.append Js.split]. now rewrite Hc.
  - cbn [all_chars] in Ha. apply andb_true_iff in Ha as [Hx Ha].
    cbn [String.append Js.split]. rewrite IH by exact Ha.
    now destruct (sep x).
Qed.

Lemma split_last (sep : ascii -> bool) (a : string) :
  all_chars (fun x => negb (sep x)) a = true -> Js.split sep a = [a].
Proof.
  intros Ha. induction a as [|x a IH]; [reflexivity|].
  cbn [all_chars] in Ha. apply andb_true_iff in Ha as [Hx Ha].
  cbn [Js.split]. rewrite IH by exact Ha. now destruct (sep x).
Qed.

Lemma split_delimiter (sep : ascii -> bool) (c : ascii) (s : string) :
  sep c = true -> Js.split sep (String c s) = EmptyString :: Js.split sep s.
Proof. intros Hc. cbn [Js.split]. now rewrite Hc. Qed.

Lemma digit_not_delimiter (d : ascii) : Js.is_digit d = true -> DATE_DELIM d = false.
Proof.
  intros Hd. apply digit_cases in Hd. simpl in Hd.
  repeat (destruct Hd as [<- | Hd]; [reflexivity|]). contradiction.
Qed.

(** The text of [formatDate], cut at the delimiters. *)
Lemma split_printed_date (wd dd mon yyyy tm : string) :
  delimiter_free wd = true -> delimiter_free dd = true -> delimiter_free mon = true ->
  delimiter_free yyyy = true -> delimiter_free tm = true ->
  Js.split DATE_DELIM
    (wd ++ ", " ++ dd ++ " " ++ mon ++ " " ++ yyyy ++ String newline "    "
        ++ tm ++ " GMT")
  = [wd; EmptyString; dd; mon; (yyyy ++ String newline EmptyString)%string;
     EmptyString; EmptyString; EmptyString; tm; "GMT"%string].
Proof.
  intros Hwd Hdd Hmon Hy Htm. unfold delimiter_free in *.
  cbn [String.append].
  rewrite split_piece by (exact Hwd || reflexivity).
  rewrite split_delimiter by reflexivity.
  rewrite split_piece by (exact Hdd || reflexivity).
  rewrite split_piece by (exact Hmon || reflexivity).
  replace (yyyy ++ String newline (String " " (String " " (String " " (String " "
             (tm ++ String " " "GMT"))))))%string
    with ((yyyy ++ String newline EmptyString)
            ++ String " " (String " " (String " " (String " " (tm ++ String " " "GMT")))))%string
    by (now rewrite app_assoc_s).
  rewrite split_piece;
    [|rewrite all_chars_app, Hy; reflexivity | reflexivity].
  rewrite !split_delimiter by reflexivity.
  rewrite split_piece by (exact Htm || reflexivity).
  reflexivity.
Qed.

Lemma parseDate_of_text (s : string) :
  s <> EmptyString ->
  parseDate s = match parseDate_loop (Js.split DATE_DELIM s) no_fields with
                | Some f => parseDate_finish f
                | None => None
                end.
Proof. destruct s; [contradiction | reflexivity]. Qed.

Lemma digits_free (s : string) :
  all_chars Js.is_digit s = true -> delimiter_free s = true.
Proof.
  unfold delimiter_free. apply all_chars_impl. intros c Hc.
  now rewrite (digit_not_delimiter c Hc).
Qed.

Lemma two_digits_of (n : Z) :
  0 <= n <= 99 ->
  exists d1 d2, pad2 n = two_digits d1 d2
                /\ Js.is_digit d1 = true /\ Js.is_digit d2 = true
                /\ 10 * digit_value d1 + digit_value d2 = n.
Proof.
  intros Hn. exists (digit (n / 10)), (digit (n mod 10)).
  destruct (digit_facts (n / 10)) as [H1 V1]; [Z.div_mod_to_equations; lia|].
  destruct (digit_facts (n mod 10)) as [H2 V2]; [Z.div_mod_to_equations; lia|].
  split; [now apply pad2_digits|]. split; [exact H1|]. split; [exact H2|].
  rewrite V1, V2. Z.div_mod_to_equations. lia.
Qed.

Lemma four_digits_of (y : Z) :
  1000 <= y <= 9999 ->
  exists d1 d2 d3 d4,
    Js.show_Z y = four_digits d1 d2 d3 d4
    /\ Js.is_digit d1 = true /\ Js.is_digit d2 = true
    /\ Js.is_digit d3 = true /\ Js.is_digit d4 = true
    /\ 1000 * digit_value d1 + 100 * digit_value d2 + 10 * digit_value d3
       + digit_value d4 = y.
Proof.
  intros Hy.
  exists (digit (y / 1000)), (digit (y / 100 mod 10)), (digit (y / 10 mod 10)),
    (digit (y mod 10)).
  destruct (digit_facts (y / 1000)) as [H1 V1]; [Z.div_mod_to_equations; lia|].
  destruct (digit_facts (y / 100 mod 10)) as [H2 V2]; [Z.div_mod_to_equations; lia|].
  destruct (digit_facts (y / 10 mod 10)) as [H3 V3]; [Z.div_mod_to_equations; lia|].
  destruct (digit_facts (y mod 10)) as [H4 V4]; [Z.div_mod_to_equations; lia|].
  split; [now apply show_year|]. repeat (split; [assumption|]).
  rewrite V1, V2, V3, V4. Z.div_mod_to_equations. lia.
Qed.

Lemma names_free :
  Forall (fun w => delimiter_free w = true) NUM_TO_DAY
  /\ Forall (fun w => delimiter_free w = true) NUM_TO_MONTH.
Proof. split; repeat constructor. Qed.

Lemma nth_string_free (l : list string) (i : Z) :
  Forall (fun w => delimiter_free w = true) l -> 0 <= i < Z.of_nat (length l) ->
  delimiter_free (nth_string l i) = true.
Proof.
  intros Hall Hi. unfold nth_string.
  apply (proj1 (List.Forall_forall _ l) Hall). apply nth_In. lia.
Qed.

(** The printed text, token by token. *)
Lemma printed_date_reads (date : Z) :
  1601 <= JsDate.YearFromTime date <= 9999 ->
  parseDate (formatDate date) = Some (date - date mod 1000).
Proof.
  intros Hy.
  destruct (month_and_date date) as (HM & HD & _).
  destruct (time_of_day date) as (Hh & Hm & Hs & _).
  assert (Hw : 0 <= JsDate.WeekDay date <= 6)
    by (unfold JsDate.WeekDay; Z.div_mod_to_equations; lia).
  unfold formatDate. cbv zeta.
  unfold JsDate.getUTCDate, JsDate.getUTCHours, JsDate.getUTCMinutes,
    JsDate.getUTCSeconds, JsDate.getUTCDay, JsDate.getUTCMonth, JsDate.getUTCFullYear.
  destruct (two_digits_of (JsDate.DateFromTime date)) as (a1 & a2 & -> & A1 & A2 & VA);
    [lia|].
  destruct (two_digits_of (JsDate.HourFromTime date)) as (h1 & h2 & -> & H1 & H2 & VH);
    [lia|].
  destruct (two_digits_of (JsDate.MinFromTime date)) as (m1 & m2 & -> & M1 & M2 & VM);
    [lia|].
  destruct (two_digits_of (JsDate.SecFromTime date)) as (s1 & s2 & -> & S1 & S2 & VS);
    [lia|].
  destruct (four_digits_of (JsDate.YearFromTime date))
    as (y1 & y2 & y3 & y4 & -> & Y1 & Y2 & Y3 & Y4 & VY); [lia|].
  set (wd := nth_string NUM_TO_DAY (JsDate.WeekDay date)).
  set (mon := nth_string NUM_TO_MONTH (JsDate.MonthFromTime date)).
  change (two_digits h1 h2 ++ ":" ++ two_digits m1 m2 ++ ":" ++ two_digits s1 s2
            ++ " GMT")%string
    with (time_token h1 h2 m1 m2 s1 s2 ++ " GMT")%string.
  rewrite parseDate_of_text by (destruct wd; discriminate).
  rewrite split_printed_date.
  2: { apply nth_string_free; [apply names_free | simpl; lia]. }
  2: { apply digits_free. cbn [two_digits all_chars]. now rewrite A1, A2. }
  2: { apply nth_string_free; [apply names_free | simpl; lia]. }
  2: { apply digits_free. cbn [four_digits all_chars]. now rewrite Y1, Y2, Y3, Y4. }
  2: { unfold delimiter_free, time_token. cbn [all_chars].
       rewrite (digit_not_delimiter h1 H1), (digit_not_delimiter h2 H2),
         (digit_not_delimiter m1 M1), (digit_not_delimiter m2 M2),
         (digit_not_delimiter s1 S1), (digit_not_delimiter s2 S2). reflexivity. }
  cbn [parseDate_loop]. unfold wd. rewrite (weekday_token _ Hw).
  change (parseDate_token no_fields EmptyString) with (Next no_fields). cbv iota.
  rewrite (day_token no_fields a1 a2 A1 A2 eq_refl eq_refl) by lia.
  cbn [f_hour f_minutes f_seconds f_month f_year no_fields]. rewrite VA.
  unfold mon. rewrite (month_token _ _ HM).
  rewrite year_token_with_line_break by assumption.
  rewrite four_digit_year_token by (assumption || reflexivity). cbv zeta. rewrite VY.
  unfold adjust_year.
  replace ((70 <=? JsDate.YearFromTime date) && (JsDate.YearFromTime date <=? 99))
    with false by (symmetry; apply andb_false_iff; right; apply Z.leb_gt; lia).
  replace ((0 <=? JsDate.YearFromTime date) && (JsDate.YearFromTime date <=? 69))
    with false by (symmetry; apply andb_false_iff; right; apply Z.leb_gt; lia).
  replace (JsDate.YearFromTime date <? 1601) with false
    by (symmetry; apply Z.ltb_ge; lia).
  unfold with_year. cbn [f_hour f_minutes f_seconds f_day f_month f_year].
  change (parseDate_token ?f EmptyString) with (Next f). cbv iota.
  rewrite time_token_step by (assumption || reflexivity || lia).
  cbn [f_day f_month f_year]. rewrite VH, VM, VS.
  rewrite found_all_token by discriminate.
  unfold parseDate_finish. cbn [f_hour f_minutes f_seconds f_day f_month f_year default].
  unfold id. f_equal. apply UTC_of_fields. lia.
Qed.

Lemma whole_seconds_div (t k : Z) :
  0 < k -> (t - t mod 1000) / (1000 * k) = t / (1000 * k).
Proof.
  intros Hk.
  replace (t - t mod 1000) with (1000 * (t / 1000))
    by (pose proof (Z.div_mod t 1000); lia).
  rewrite Z.div_mul_cancel_l by lia. now rewrite <- Z.div_div by lia.
Qed.

Lemma formatDate_whole_seconds (date : Z) :
  formatDate (date - date mod 1000) = formatDate date.
Proof.
  assert (Hd : JsDate.Day (date - date mod 1000) = JsDate.Day date)
    by (apply (whole_seconds_div date 86400); lia).
  assert (Hh : (date - date mod 1000) / JsDate.msPerHour = date / JsDate.msPerHour)
    by (apply (whole_seconds_div date 3600); lia).
  assert (Hm : (date - date mod 1000) / JsDate.msPerMinute = date / JsDate.msPerMinute)
    by (apply (whole_seconds_div date 60); lia).
  assert (Hs : (date - date mod 1000) / JsDate.msPerSecond = date / JsDate.msPerSecond)
    by (apply (whole_seconds_div date 1); lia).
  assert (Hy : JsDate.YearFromTime (date - date mod 1000) = JsDate.YearFromTime date)
    by (unfold JsDate.YearFromTime; now rewrite Hd).
  assert (Hw : JsDate.DayWithinYear (date - date mod 1000) = JsDate.DayWithinYear date)
    by (unfold JsDate.DayWithinYear; now rewrite Hd, Hy).
  assert (Hl : JsDate.InLeapYear (date - date mod 1000) = JsDate.InLeapYear date)
    by (unfold JsDate.InLeapYear; now rewrite Hy).
  assert (Hmo : JsDate.MonthFromTime (date - date mod 1000) = JsDate.MonthFromTime date)
    by (unfold JsDate.MonthFromTime; now rewrite Hw, Hl).
  assert (Hda : JsDate.getUTCDate (date - date mod 1000) = JsDate.getUTCDate date)
    by (unfold JsDate.getUTCDate, JsDate.DateFromTime; now rewrite Hw, Hl, Hmo).
  assert (Hwd : JsDate.getUTCDay (date - date mod 1000) = JsDate.getUTCDay date)
    by (unfold JsDate.getUTCDay, JsDate.WeekDay; now rewrite Hd).
  assert (Hho : JsDate.getUTCHours (date - date mod 1000) = JsDate.getUTCHours date)
    by (unfold JsDate.getUTCHours, JsDate.HourFromTime; now rewrite Hh).
  assert (Hmi : JsDate.getUTCMinutes (date - date mod 1000) = JsDate.getUTCMinutes date)
    by (unfold JsDate.getUTCMinutes, JsDate.MinFromTime; now rewrite Hm).
  assert (Hse : JsDate.getUTCSeconds (date - date mod 1000) = JsDate.getUTCSeconds date)
    by (unfold JsDate.getUTCSeconds, JsDate.SecFromTime; now rewrite Hs).
  unfold formatDate.
  change (JsDate.getUTCMonth (date - date mod 1000))
    with (JsDate.MonthFromTime (date - date mod 1000)).
  change (JsDate.getUTCFullYear (date - date mod 1000))
    with (JsDate.YearFromTime (date - date mod 1000)).
  now rewrite Hda, Hwd, Hho, Hmi, Hse, Hmo, Hy.
Qed.

(** X16.  [parseDate] reads back what [formatDate] prints: for a date
    whose year is from 1601 to 9999, parsing the printed text gives the
    same instant with its milliseconds dropped, and that instant prints as
    the same text.  (The line break that the text carries after the year
    is trimmed away with the year token.) *)
Theorem parseDate_formatDate (date : Z) :
  1601 <= JsDate.YearFromTime date <= 9999 ->
  parseDate (formatDate date) = Some (date - date mod 1000)
  /\ formatDate (date - date mod 1000) = formatDate date.
Proof.
  intros Hy. split.
  - now apply printed_date_reads.
  - apply formatDate_whole_seconds.
Qed.

(** The date of RFC 1123's own example. *)
Lemma parseDate_formatDate_witness :
  parseDate (formatDate 784111777123) = Some (784111777123 - 784111777123 mod 1000)
  /\ formatDate (784111777123 - 784111777123 mod 1000) = formatDate 784111777123.
Proof. apply parseDate_formatDate. vm_compute. split; discriminate. Defined.

(** ** The errors of [setCookie] *)

Lemma reject_error options e e' :
  reject options e = SetError e' -> so_ignoreError options = false /\ e' = e.
Proof. unfold reject. destruct (so_ignoreError options); [discriminate|]. now intros [= <-]. Qed.



(** ** From a cookie to its [Set-Cookie] string and back *)

(** *** The string *)

Lemma fold_attributes_text (avs : list string) (s : string) :
  fold_left (fun str ext => (str ++ "; " ++ ext)%string) avs s
  = (s ++ attributes_text avs)%string.
Proof.
  revert s. induction avs as [|av rest IH]; intros s; cbn [fold_left attributes_text].
  - now rewrite app_empty_r.
  - rewrite IH. now rewrite !app_assoc_s.
Qed.

Lemma attributes_text_app (l1 l2 : list string) :
  attributes_text (l1 ++ l2) = (attributes_text l1 ++ attributes_text l2)%string.
Proof.
  induction l1 as [|av rest IH]; [reflexivity|].
  cbn [app attributes_text]. rewrite IH. now rewrite !app_assoc_s.
Qed.

Lemma print_expires (e : Expires) (str : string) :
  match e with
  | Forever => str
  | At t => (str ++ "; Expires=" ++ formatDate t)%string
  | Text s => (str ++ "; Expires=" ++ s)%string
  end
  = (str ++ attributes_text match e with
                            | Forever => []
                            | At t => [("Expires=" ++ formatDate t)%string]
                            | Text s => [("Expires=" ++ s)%string]
                            end)%string.
Proof. destruct e; cbn [attributes_text]; now rewrite app_empty_r. Qed.

Lemma print_maxAge (m : option MaxAge) (str : string) :
  match m with
  | Some (Seconds n) => (str ++ "; Max-Age=" ++ Js.show_Z n)%string
  | Some MinusInfinity => (str ++ "; Max-Age=-Infinity")%string
  | Some PlusInfinity | None => str
  end
  = (str ++ attributes_text match m with
                            | Some (Seconds n) => [("Max-Age=" ++ Js.show_Z n)%string]
                            | Some MinusInfinity => ["Max-Age=-Infinity"%string]
                            | Some PlusInfinity | None => []
                            end)%string.
Proof. destruct m as [[n| |]|]; cbn [attributes_text]; now rewrite app_empty_r. Qed.

Lemma print_domain (c : Cookie) (str : string) :
  (if Js.truthy (domain c) && negb (default false (hostOnly c))
   then (str ++ "; Domain=" ++ default EmptyString (domain c))%string
   else str)
  = (str ++ attributes_text match printed_domain c with
                            | Some d => [("Domain=" ++ d)%string]
                            | None => []
                            end)%string.
Proof.
  unfold printed_domain.
  destruct (Js.truthy (domain c) && negb (default false (hostOnly c))) eqn:Hd;
    [destruct (domain c) as [d|]; [|discriminate]|];
    cbn [attributes_text default]; unfold id; now rewrite app_empty_r.
Qed.

Lemma print_when (b : bool) (av str : string) :
  (if b then (str ++ "; " ++ av)%string else str)
  = (str ++ attributes_text (if b then [av] else []))%string.
Proof. destruct b; cbn [attributes_text]; now rewrite app_empty_r. Qed.

Lemma toString_attributes (c : Cookie) :
  toString c = (cookieString c ++ attributes_text (printed_attributes c))%string.
Proof.
  unfold toString, printed_attributes. cbv zeta.
  rewrite fold_attributes_text, !attributes_text_app.
  rewrite (print_when (httpOnly c) "HttpOnly"), (print_when (secure c) "Secure").
  rewrite (print_when (Js.truthy (path c)) ("Path=" ++ default EmptyString (path c))).
  rewrite print_domain, print_maxAge, print_expires.
  now rewrite !app_assoc_s.
Qed.

Lemma trimmed_end_app (a b : string) :
  Js.trimEnd b = b -> b <> EmptyString ->
  Js.trimEnd (a ++ b) = (a ++ b)%string /\ (a ++ b)%string <> EmptyString.
Proof.
  intros Hb Hne. split.
  - rewrite trimEnd_app by (now rewrite Hb). now rewrite Hb.
  - destruct a; [exact Hne | discriminate].
Qed.

Lemma attributes_text_end (avs : list string) (av : string) :
  Forall (fun av => attribute_text av /\ av <> EmptyString) avs ->
  Js.trim av = av -> av <> EmptyString ->
  Js.trimEnd (av ++ attributes_text avs) = (av ++ attributes_text avs)%string
  /\ (av ++ attributes_text avs)%string <> EmptyString.
Proof.
  intros Hall. revert av. induction Hall as [|b rest [[Hb _] Hne] _ IH]; intros av Hav Hn.
  - cbn [attributes_text]. rewrite app_empty_r. split; [now apply trimmed_end | exact Hn].
  - cbn [attributes_text]. apply trimmed_end_app.
    + apply (trimmed_end_app "; "); now apply IH.
    + discriminate.
Qed.

(** The first occurrence of a character. *)
Lemma indexOf_first (x : ascii) (a r : string) (i : nat) :
  all_chars (fun c => negb (Js.is_char x c)) a = true ->
  Js.indexOf_from i (a ++ String x r) (String x EmptyString)
  = Z.of_nat (i + String.length a).
Proof.
  revert i. induction a as [|c a IH]; intros i Ha.
  - cbn [String.append Js.indexOf_from]. rewrite prefix_char, Ascii.eqb_refl.
    cbn [String.length]. f_equal. lia.
  - cbn [all_chars] in Ha. apply andb_true_iff in Ha as [Hc Ha].
    cbn [String.append Js.indexOf_from]. rewrite prefix_char.
    unfold Js.is_char in Hc. rewrite Ascii.eqb_sym.
    destruct (Ascii.eqb x c); [discriminate|].
    rewrite IH by exact Ha. cbn [String.length]. f_equal. lia.
Qed.

Lemma drop_past (a : string) (c : ascii) (r : string) :
  Js.drop (S (String.length a)) (a ++ String c r) = r.
Proof. induction a as [|x a IH]; [reflexivity | exact IH]. Qed.

Lemma split_attributes (avs : list string) (a : string) :
  all_chars (fun c => negb (Js.is_char ";" c)) a = true ->
  Forall (fun av => attribute_text av /\ av <> EmptyString) avs ->
  Js.split (Js.is_char ";") (a ++ attributes_text avs) = a :: map (String " ") avs.
Proof.
  intros Ha Hall. revert a Ha.
  induction Hall as [|b rest [[_ Hb] _] _ IH]; intros a Ha.
  - cbn [attributes_text map]. rewrite app_empty_r. now apply split_last.
  - cbn [attributes_text map String.append].
    rewrite split_piece by (exact Ha || reflexivity).
    change (String " " (b ++ attributes_text rest))
      with (String " " b ++ attributes_text rest)%string.
    now rewrite IH.
Qed.

Lemma parse_av_blank (b : string) (c : Cookie) : parse_av (String " " b) c = parse_av b c.
Proof. reflexivity. Qed.

Lemma parse_avs_blank (avs : list string) (c : Cookie) :
  fold_left (fun c av => parse_av av c) (map (String " ") avs) c
  = fold_left (fun c av => parse_av av c) avs c.
Proof.
  revert c. induction avs as [|b rest IH]; intros c; [reflexivity|].
  cbn [map fold_left]. now rewrite parse_av_blank, IH.
Qed.

Lemma plain_pair_chars (k v : string) :
  plain_pair k v ->
  all_chars (fun c => negb (Js.is_char ";" c)) (k ++ "=" ++ v) = true
  /\ Re.test CONTROL_CHARS k = false /\ Re.test CONTROL_CHARS v = false.
Proof.
  intros [Hne Htk Hk Htv Hv]. split; [|split].
  - rewrite !all_chars_app. apply andb_true_iff. split.
    + apply (all_chars_impl key_char); [|exact Hk]. intros a Ha.
      unfold key_char, not_eq_semi in Ha.
      now apply andb_true_iff in Ha as [[_ ?]%andb_true_iff _].
    + apply andb_true_iff. split; [reflexivity|].
      apply (all_chars_impl value_char); [|exact Hv]. intros a Ha.
      unfold value_char in Ha. now apply andb_true_iff in Ha as [? _].
  - apply not_control_test. apply (all_chars_impl key_char); [|exact Hk].
    intros a Ha. unfold key_char in Ha. now apply andb_true_iff in Ha as [_ ?].
  - apply not_control_test. apply (all_chars_impl value_char); [|exact Hv].
    intros a Ha. unfold value_char in Ha. now apply andb_true_iff in Ha as [_ ?].
Qed.

(** The pair and the attributes of a printed cookie, as [parse] cuts
    them. *)
Lemma parse_printed (k v : string) (avs : list string) (rt : Runtime) :
  plain_pair k v ->
  Forall (fun av => attribute_text av /\ av <> EmptyString) avs ->
  exists rt',
    parse ((k ++ "=" ++ v) ++ attributes_text avs) false rt
    = (Some (length (heap rt)), rt')
    /\ deref (heap rt') (length (heap rt))
       = fold_left (fun c av => parse_av av c) avs
                   (set_value v (set_key k (fresh_cookie rt))).
Proof.
  intros Hp Hall. pose proof Hp as [Hne Htk Hk Htv Hv].
  destruct (plain_pair_chars k v Hp) as (Hsemi & Hkc & Hvc).
  set (head := (k ++ "=" ++ v)%string) in *.
  assert (Hhead : Js.trim head = head) by (now apply pair_trimmed).
  assert (Hkt : Js.truthy (Some k) = true) by (now destruct k).
  assert (Hc : deref (heap rt ++ [fresh_cookie rt]) (length (heap rt)) = fresh_cookie rt).
  { unfold deref. rewrite lookup_app_r by lia. now rewrite Nat.sub_diag. }
  assert (Hpair : parse_pair head false = Some (k, v)).
  { unfold parse_pair, head. rewrite (COOKIE_PAIR_plain k v Hp).
    cbn [Re.get Nat.eqb default]. unfold id. now rewrite Hkt, Htk, Htv. }
  destruct Hall as [|a rest [[Ha Has] Han] Hrest].
  - cbn [attributes_text fold_left]. rewrite app_empty_r.
    unfold parse. cbv zeta. rewrite Hhead.
    rewrite (indexOf_absent ";" head 0 Hsemi : Js.indexOf head ";" = -1).
    change (-1 =? -1) with true. cbv iota. rewrite Hpair.
    unfold new_Cookie. cbv zeta. fold (fresh_cookie rt).
    cbn [heap with_heap]. rewrite Hc, Hkc, Hvc. cbn [orb].
    eexists. split; [reflexivity|]. cbn [heap with_heap].
    apply deref_insert. rewrite length_app. simpl. lia.
  - assert (Htail : Js.trimEnd (a ++ attributes_text rest) = (a ++ attributes_text rest)%string
                    /\ (a ++ attributes_text rest)%string <> EmptyString)
      by (now apply attributes_text_end).
    cbn [attributes_text].
    set (tail := (a ++ attributes_text rest)%string) in *.
    assert (Hs : Js.trim (head ++ "; " ++ tail) = (head ++ "; " ++ tail)%string).
    { pose proof (trimmed_head head Hhead) as Hh. unfold Js.trim.
      assert (Hst : Js.trimStart (head ++ "; " ++ tail) = (head ++ "; " ++ tail)%string).
      { unfold head in *. destruct k as [|x k]; [contradiction|].
        cbn [String.append Js.trimStart] in *. now rewrite Hh. }
      rewrite Hst. apply trimmed_end_app; [|discriminate].
      apply (trimmed_end_app "; "); apply Htail. }
    unfold parse. cbv zeta. rewrite Hs.
    assert (Hi : Js.indexOf (head ++ "; " ++ tail) ";" = Js.len head).
    { unfold Js.indexOf. cbn [String.append].
      rewrite (indexOf_first ";" head _ 0 Hsemi). reflexivity. }
    rewrite Hi.
    assert (Hlen : (Js.len head =? -1) = false)
      by (apply Z.eqb_neq; unfold Js.len; lia).
    rewrite Hlen.
    assert (Hsub : Js.substr (head ++ "; " ++ tail) 0 (Js.len head) = head).
    { unfold Js.substr, Js.len.
      replace ((0 <? 0) || (Z.of_nat (String.length head) <? 0)) with false
        by (symmetry; apply orb_false_iff; split; [reflexivity | apply Z.ltb_ge; lia]).
      rewrite Nat2Z.id. change (Z.to_nat 0) with 0%nat. apply substring_take. }
    rewrite Hsub, Hpair.
    unfold new_Cookie. cbv zeta. fold (fresh_cookie rt).
    cbn [heap with_heap]. rewrite Hc, Hkc, Hvc. cbn [orb].
    assert (Hrest' : Js.trim (Js.slice_from (head ++ "; " ++ tail) (Js.len head + 1)) = tail).
    { unfold Js.slice_from, Js.len.
      replace (Z.to_nat (Z.of_nat (String.length head) + 1)) with (S (String.length head))
        by lia.
      cbn [String.append]. rewrite drop_past.
      change (Js.trim (String " " tail)) with (Js.trim tail).
      unfold Js.trim.
      assert (Hst : Js.trimStart tail = tail).
      { pose proof (trimmed_head a Ha) as Hh. unfold tail.
        destruct a as [|x a]; [contradiction|].
        cbn [String.append Js.trimStart]. now rewrite Hh. }
      rewrite Hst. apply Htail. }
    rewrite Hrest'.
    destruct tail as [|x tail'] eqn:Et; [now destruct Htail|].
    rewrite <- Et. unfold tail.
    rewrite split_attributes by (exact Has || exact Hrest).
    eexists. split; [reflexivity|]. cbn [heap with_heap].
    rewrite deref_insert by (rewrite length_insert, length_app; simpl; lia).
    cbn [fold_left]. now rewrite parse_avs_blank.
Qed.

(** *** Numbers as the template prints them *)

Lemma digits_from_app (u r : string) (a : Z) :
  all_chars Js.is_digit u = true ->
  Js.digits_from a (u ++ r) = Js.digits_from (Js.digits_from a u) r.
Proof.
  revert a. induction u as [|d u IH]; intros a Hu; [reflexivity|].
  cbn [all_chars] in Hu. apply andb_true_iff in Hu as [Hd Hu].
  cbn [String.append Js.digits_from]. rewrite Hd. now apply IH.
Qed.

Lemma show_nat_digits (fuel n : nat) (acc : string) :
  (n < fuel)%nat ->
  exists ds,
    Js.show_nat_fuel fuel n acc = (ds ++ acc)%string
    /\ ds <> EmptyString /\ all_chars Js.is_digit ds = true
    /\ forall a, Js.digits_from a ds
                 = a * 10 ^ Z.of_nat (String.length ds) + Z.of_nat n.
Proof.
  revert n acc. induction fuel as [|fuel IH]; intros n acc Hn; [lia|].
  rewrite show_step.
  assert (Hd : ascii_of_nat (48 + n mod 10) = digit (Z.of_nat (n mod 10)))
    by (unfold digit; now rewrite Nat2Z.id).
  assert (Hm : 0 <= Z.of_nat (n mod 10) <= 9).
  { pose proof (Nat.mod_upper_bound n 10). lia. }
  destruct (digit_facts _ Hm) as [Hdig Hval]. rewrite Hd.
  set (d := digit (Z.of_nat (n mod 10))) in *. unfold digit_value in Hval.
  destruct (Nat.ltb_spec n 10) as [Hlt|Hge].
  - exists (String d EmptyString). split; [reflexivity|]. split; [discriminate|].
    split; [cbn [all_chars]; now rewrite Hdig|].
    intros a. cbn [Js.digits_from String.length]. rewrite Hdig, Hval.
    rewrite Nat.mod_small by exact Hlt. change (10 ^ Z.of_nat 1) with 10. lia.
  - assert (Hq : (n / 10 < fuel)%nat).
    { pose proof (Nat.div_lt n 10). lia. }
    destruct (IH (n / 10)%nat (String d acc) Hq) as (ds & Hs & Hne & Hall & Hv).
    exists (ds ++ String d EmptyString)%string.
    split; [rewrite Hs; now rewrite app_assoc_s|].
    split; [destruct ds; [contradiction | discriminate]|].
    split; [rewrite all_chars_app, Hall; cbn [all_chars]; now rewrite Hdig|].
    intros a. rewrite digits_from_app by exact Hall. rewrite Hv.
    cbn [Js.digits_from]. rewrite Hdig, Hval, app_length. cbn [String.length].
    rewrite Nat2Z.inj_add, Z.pow_add_r by lia. change (10 ^ Z.of_nat 1) with 10.
    rewrite Nat2Z.inj_mod. pose proof (Nat2Z.inj_div n 10) as Hdiv.
    rewrite Hdiv. change (Z.of_nat 10) with 10. Z.div_mod_to_equations. lia.
Qed.

(** The digits of an integer, with a minus sign when it is negative. *)
Lemma show_Z_digits (n : Z) :
  exists ds,
    Js.show_Z n = (if n <? 0 then String "-" ds else ds)
    /\ ds <> EmptyString /\ all_chars Js.is_digit ds = true
    /\ Js.digits_from 0 ds = Z.abs n.
Proof.
  unfold Js.show_Z. destruct (Z.ltb_spec n 0) as [Hn|Hn].
  - destruct (show_nat_digits (S (Z.to_nat (- n))) (Z.to_nat (- n)) EmptyString)
      as (ds & Hs & Hne & Hall & Hv); [lia|].
    exists ds. rewrite Hs, app_empty_r. repeat split; try assumption.
    rewrite Hv. lia.
  - destruct (show_nat_digits (S (Z.to_nat n)) (Z.to_nat n) EmptyString)
      as (ds & Hs & Hne & Hall & Hv); [lia|].
    exists ds. rewrite Hs, app_empty_r. repeat split; try assumption.
    rewrite Hv. lia.
Qed.

Lemma digits_match_MAX_AGE (ds : string) :
  ds <> EmptyString -> all_chars Js.is_digit ds = true ->
  matches MAX_AGE_VALUE ds = true /\ matches MAX_AGE_VALUE (String "-" ds) = true.
Proof.
  intros Hne Hall. destruct ds as [|d ds]; [contradiction|].
  cbn [all_chars] in Hall. apply andb_true_iff in Hall as [Hd Hall].
  destruct (digit_not_sign d Hd) as [Hminus _].
  unfold matches, Re.exec, MAX_AGE_VALUE, Re.Plus, Re.Lit.
  split.
  - cbn [Re.run]. rewrite Hminus. change (Js.in_range 48 57 d) with (Js.is_digit d).
    rewrite Hd. erewrite star_to_end; [reflexivity | exact Hall | reflexivity].
  - cbn [Re.run]. change (Js.is_char "-" "-") with true. cbv iota.
    cbn [String.length]. rewrite (proj2 (Nat.eqb_neq _ _)) by lia.
    change (Js.in_range 48 57 d) with (Js.is_digit d).
    rewrite Hd. erewrite star_to_end; [reflexivity | exact Hall | reflexivity].
Qed.

Lemma no_space_trimmed (s : string) :
  all_chars (fun c => negb (Js.is_space c)) s = true -> Js.trim s = s.
Proof.
  intros Hs. unfold Js.trim.
  assert (Hst : Js.trimStart s = s).
  { destruct s as [|c s]; [reflexivity|]. cbn [all_chars] in Hs.
    apply andb_true_iff in Hs as [Hc _]. cbn [Js.trimStart].
    now destruct (Js.is_space c). }
  rewrite Hst. induction s as [|c s IH]; [reflexivity|].
  cbn [all_chars] in Hs. apply andb_true_iff in Hs as [Hc Hs].
  rewrite trimEnd_cons by (now destruct (Js.is_space c)).
  f_equal. apply IH; [exact Hs|].
  destruct s as [|c' s]; [reflexivity|]. cbn [all_chars] in Hs.
  apply andb_true_iff in Hs as [Hc' _]. cbn [Js.trimStart].
  now destruct (Js.is_space c').
Qed.

Lemma number_char_plain (c : ascii) :
  number_char c = true -> Js.is_space c = false /\ Js.is_char ";" c = false.
Proof.
  unfold number_char. intros [Hd | Hm]%orb_true_iff.
  - split; [now apply digit_not_space|].
    apply digit_cases in Hd. simpl in Hd.
    repeat (destruct Hd as [<- | Hd]; [reflexivity|]). contradiction.
  - unfold Js.is_char in Hm. apply Ascii.eqb_eq in Hm as <-. split; reflexivity.
Qed.

Lemma show_Z_chars (n : Z) :
  all_chars number_char (Js.show_Z n) = true /\ Js.show_Z n <> EmptyString.
Proof.
  destruct (show_Z_digits n) as (ds & -> & Hne & Hall & _).
  assert (Hds : all_chars number_char ds = true).
  { apply (all_chars_impl Js.is_digit); [|exact Hall].
    intros c Hc. unfold number_char. now rewrite Hc. }
  destruct (n <? 0); [split; [cbn [all_chars]; now rewrite Hds | discriminate]|].
  now split.
Qed.

(** What [parseInt] and the pattern of [Max-Age] make of a printed
    integer. *)
Lemma show_Z_reads (n : Z) :
  matches MAX_AGE_VALUE (Js.show_Z n) = true /\ Js.parseInt (Js.show_Z n) = Some n.
Proof.
  destruct (show_Z_digits n) as (ds & -> & Hne & Hall & Hv).
  destruct (digits_match_MAX_AGE ds Hne Hall) as [Hpos Hneg].
  destruct ds as [|d ds]; [contradiction|].
  pose proof Hall as Hall'. cbn [all_chars] in Hall'.
  apply andb_true_iff in Hall' as [Hd _].
  destruct (Z.ltb_spec n 0) as [Hn|Hn]; (split; [assumption|]).
  - unfold Js.parseInt. cbn [Js.trimStart]. change (Js.is_space "-") with false.
    cbv iota. change (Js.is_char "-" "-") with true. cbv iota. rewrite Hd, Hv.
    f_equal. lia.
  - rewrite parseInt_digit by exact Hd. rewrite Hv. f_equal. lia.
Qed.

(** *** The attributes, one by one *)

Lemma trim_after_name (name x : string) :
  match name with String c _ => Js.is_space c = false | EmptyString => False end ->
  Js.trim x = x -> x <> EmptyString -> Js.trim (name ++ x) = (name ++ x)%string.
Proof.
  intros Hname Hx Hne. destruct name as [|c name]; [contradiction|].
  unfold Js.trim. cbn [String.append Js.trimStart]. rewrite Hname.
  change (String c (name ++ x)) with (String c name ++ x)%string.
  apply trimmed_end_app; [now apply trimmed_end | exact Hne].
Qed.

Lemma truthy_not_empty (x : string) : x <> EmptyString -> Js.truthy (Some x) = true.
Proof. now destruct x. Qed.

Lemma parse_av_Expires (x : string) (t : Z) (c : Cookie) :
  Js.trim x = x -> x <> EmptyString -> parseDate x = Some t ->
  parse_av ("Expires=" ++ x) c = set_expires (At t) c.
Proof.
  intros Hx Hne Hd. unfold parse_av. cbv zeta.
  rewrite (trim_after_name "Expires=" x eq_refl Hx Hne).
  rewrite (indexOf_first "=" "Expires" x 0 eq_refl : Js.indexOf ("Expires=" ++ x) "=" = 7).
  change (Js.substr ("Expires=" ++ x) 0 7) with "Expires"%string.
  change (Js.slice_from ("Expires=" ++ x) (7 + 1)) with x.
  cbn [String.append]. change (7 =? -1) with false. cbv iota.
  change (Js.toLowerCase (Js.trim "Expires")) with "expires"%string.
  rewrite (truthy_not_empty x Hne). cbn [option_map default]. unfold id.
  rewrite ?Hx, ?(truthy_not_empty x Hne).
  change (String.eqb "expires" "expires") with true. cbv iota.
  now rewrite Hd.
Qed.

Lemma parse_av_MaxAge (n : Z) (c : Cookie) :
  parse_av ("Max-Age=" ++ Js.show_Z n) c = set_maxAge (Some (Seconds n)) c.
Proof.
  destruct (show_Z_chars n) as [Hchars Hne].
  destruct (show_Z_reads n) as [Hre Hint].
  assert (Hx : Js.trim (Js.show_Z n) = Js.show_Z n).
  { apply no_space_trimmed. apply (all_chars_impl number_char); [|exact Hchars].
    intros a Ha. now rewrite (proj1 (number_char_plain a Ha)). }
  revert Hx Hne Hre Hint. generalize (Js.show_Z n). intros x Hx Hne Hre Hint.
  unfold parse_av. cbv zeta.
  rewrite (trim_after_name "Max-Age=" x eq_refl Hx Hne).
  rewrite (indexOf_first "=" "Max-Age" x 0 eq_refl : Js.indexOf ("Max-Age=" ++ x) "=" = 7).
  change (Js.substr ("Max-Age=" ++ x) 0 7) with "Max-Age"%string.
  change (Js.slice_from ("Max-Age=" ++ x) (7 + 1)) with x.
  cbn [String.append]. change (7 =? -1) with false. cbv iota.
  change (Js.toLowerCase (Js.trim "Max-Age")) with "max-age"%string.
  rewrite (truthy_not_empty x Hne). cbn [option_map default]. unfold id.
  rewrite ?Hx, ?(truthy_not_empty x Hne).
  change (String.eqb "max-age" "expires") with false.
  change (String.eqb "max-age" "max-age") with true. cbv iota.
  rewrite Hre, Hint. reflexivity.
Qed.

Lemma parse_av_Domain (d : string) (c : Cookie) :
  Js.trim d = d -> d <> EmptyString -> Js.toLowerCase d = d ->
  Js.first_char d <> Some "."%char ->
  parse_av ("Domain=" ++ d) c = set_domain (Some d) c.
Proof.
  intros Hx Hne Hlow Hdot. unfold parse_av. cbv zeta.
  rewrite (trim_after_name "Domain=" d eq_refl Hx Hne).
  rewrite (indexOf_first "=" "Domain" d 0 eq_refl : Js.indexOf ("Domain=" ++ d) "=" = 6).
  change (Js.substr ("Domain=" ++ d) 0 6) with "Domain"%string.
  change (Js.slice_from ("Domain=" ++ d) (6 + 1)) with d.
  cbn [String.append]. change (6 =? -1) with false. cbv iota.
  change (Js.toLowerCase (Js.trim "Domain")) with "domain"%string.
  rewrite (truthy_not_empty d Hne). cbn [option_map default]. unfold id.
  rewrite ?Hx, ?(truthy_not_empty d Hne).
  change (String.eqb "domain" "expires") with false.
  change (String.eqb "domain" "max-age") with false.
  change (String.eqb "domain" "domain") with true. cbv iota.
  rewrite ?Hx.
  assert (Hs : strip_leading_dot d = d).
  { destruct d as [|a d]; [reflexivity|]. cbn [strip_leading_dot].
    unfold Js.is_char. destruct (Ascii.eqb_spec "." a) as [<-|]; [|reflexivity].
    now contradiction Hdot. }
  rewrite Hs. destruct d; [contradiction|]. now rewrite Hlow.
Qed.

Lemma parse_av_Path (p : string) (c : Cookie) :
  Js.trim p = p -> Js.first_char p = Some "/"%char ->
  parse_av ("Path=" ++ p) c = set_path (Some p) c.
Proof.
  intros Hx Hslash.
  assert (Hne : p <> EmptyString) by (now destruct p).
  unfold parse_av. cbv zeta.
  rewrite (trim_after_name "Path=" p eq_refl Hx Hne).
  rewrite (indexOf_first "=" "Path" p 0 eq_refl : Js.indexOf ("Path=" ++ p) "=" = 4).
  change (Js.substr ("Path=" ++ p) 0 4) with "Path"%string.
  change (Js.slice_from ("Path=" ++ p) (4 + 1)) with p.
  cbn [String.append]. change (4 =? -1) with false. cbv iota.
  change (Js.toLowerCase (Js.trim "Path")) with "path"%string.
  rewrite (truthy_not_empty p Hne). cbn [option_map default]. unfold id.
  rewrite ?Hx, ?(truthy_not_empty p Hne).
  change (String.eqb "path" "expires") with false.
  change (String.eqb "path" "max-age") with false.
  change (String.eqb "path" "domain") with false.
  change (String.eqb "path" "path") with true. cbv iota.
  destruct p as [|a p]; [discriminate|].
  injection Hslash as ->. reflexivity.
Qed.

Lemma parse_av_flags (c : Cookie) :
  parse_av "Secure" c = set_secure true c /\ parse_av "HttpOnly" c = set_httpOnly true c.
Proof. split; reflexivity. Qed.

Lemma parse_av_extension (ext : string) (c : Cookie) :
  Js.trim ext = ext -> ext <> EmptyString -> known_attribute (av_name ext) = false ->
  parse_av ext c = set_extensions (Some (default [] (extensions c) ++ [ext])) c.
Proof.
  intros Hx Hne Hk. unfold parse_av, av_name in *. cbv zeta in *. rewrite Hx in *.
  destruct ext as [|a ext]; [contradiction|].
  set (av := String a ext) in *.
  unfold known_attribute in Hk.
  repeat (apply orb_false_iff in Hk as [Hk ?]).
  destruct (Js.indexOf av "=" =? -1); cbv iota beta;
    repeat match goal with
           | H : String.eqb _ _ = false |- _ => rewrite H; clear H
           end; reflexivity.
Qed.

Lemma parse_avs_extensions (exts : list string) (c : Cookie) :
  exts <> [] ->
  Forall (fun ext => attribute_text ext /\ ext <> EmptyString
                     /\ known_attribute (av_name ext) = false) exts ->
  fold_left (fun c av => parse_av av c) exts c
  = set_extensions (Some (default [] (extensions c) ++ exts)) c.
Proof.
  intros Hne Hall. revert c Hne.
  induction Hall as [|ext rest ([Hx _] & Hn & Hk) Hrest IH]; intros c Hne;
    [contradiction|].
  cbn [fold_left]. rewrite (parse_av_extension ext c Hx Hn Hk).
  destruct rest as [|e2 rest]; [reflexivity|].
  rewrite IH by discriminate. cbn [extensions set_extensions default]. unfold id.
  destruct c. cbn. now rewrite <- app_assoc.
Qed.

(** *** The printed attributes are attributes *)

Lemma nth_string_all (P : string -> Prop) (l : list string) (i : Z) :
  Forall P l -> P "undefined"%string -> P (nth_string l i).
Proof.
  intros Hall Hdef. unfold nth_string.
  destruct (Nat.lt_ge_cases (Z.to_nat i) (length l)) as [Hi|Hi].
  - apply (proj1 (List.Forall_forall P l) Hall). now apply nth_In.
  - now rewrite nth_overflow.
Qed.

Lemma no_semicolon_number (n : Z) :
  all_chars (fun c => negb (Js.is_char ";" c)) (Js.show_Z n) = true.
Proof.
  apply (all_chars_impl number_char); [|apply show_Z_chars].
  intros a Ha. now rewrite (proj2 (number_char_plain a Ha)).
Qed.

Lemma no_semicolon_pad2 (n : Z) :
  all_chars (fun c => negb (Js.is_char ";" c)) (pad2 n) = true.
Proof.
  unfold pad2. destruct (10 <=? n); [apply no_semicolon_number|].
  cbn [all_chars]. now rewrite no_semicolon_number.
Qed.

Lemma trimmed_end_step (a b : string) :
  Js.trimEnd b = b /\ b <> EmptyString ->
  Js.trimEnd (a ++ b) = (a ++ b)%string /\ (a ++ b)%string <> EmptyString.
Proof. intros [Hb Hne]. now apply trimmed_end_app. Qed.

Lemma formatDate_text (date : Z) :
  attribute_text (formatDate date) /\ formatDate date <> EmptyString.
Proof.
  assert (Hday : match nth_string NUM_TO_DAY (JsDate.getUTCDay date) with
                 | String c _ => Js.is_space c = false
                 | EmptyString => False
                 end).
  { apply (nth_string_all (fun w => match w with
                                    | String c _ => Js.is_space c = false
                                    | EmptyString => False
                                    end)); [|reflexivity].
    repeat constructor. }
  assert (Hend : Js.trimEnd (formatDate date) = formatDate date
                 /\ formatDate date <> EmptyString).
  { unfold formatDate. cbv zeta.
    repeat match goal with
           | |- Js.trimEnd (?a ++ ?b) = _ /\ _ => apply (trimmed_end_step a b)
           end.
    split; [reflexivity | discriminate]. }
  split; [split|apply Hend].
  - unfold Js.trim.
    assert (Hst : Js.trimStart (formatDate date) = formatDate date).
    { unfold formatDate. cbv zeta.
      destruct (nth_string NUM_TO_DAY (JsDate.getUTCDay date)) as [|c w];
        [contradiction|].
      cbn [String.append Js.trimStart]. now rewrite Hday. }
    rewrite Hst. apply Hend.
  - unfold formatDate. cbv zeta. rewrite !all_chars_app, !no_semicolon_pad2,
      no_semicolon_number.
    assert (Hn : forall l i,
               Forall (fun w => all_chars (fun c => negb (Js.is_char ";" c)) w = true) l ->
               all_chars (fun c => negb (Js.is_char ";" c)) (nth_string l i) = true).
    { intros l i Hl. now apply (nth_string_all _ l i Hl). }
    rewrite !Hn by (repeat constructor). reflexivity.
Qed.

Lemma named_attribute_text (name x : string) :
  match name with String c _ => Js.is_space c = false | EmptyString => False end ->
  all_chars (fun c => negb (Js.is_char ";" c)) name = true ->
  attribute_text x -> x <> EmptyString ->
  attribute_text (name ++ x) /\ (name ++ x)%string <> EmptyString.
Proof.
  intros Hname Hsemi [Hx Hs] Hne. split; [split|].
  - now apply trim_after_name.
  - now rewrite all_chars_app, Hsemi, Hs.
  - destruct name; [contradiction | discriminate].
Qed.

Lemma number_text (n : Z) : attribute_text (Js.show_Z n) /\ Js.show_Z n <> EmptyString.
Proof.
  destruct (show_Z_chars n) as [Hchars Hne]. split; [split|exact Hne].
  - apply no_space_trimmed. apply (all_chars_impl number_char); [|exact Hchars].
    intros a Ha. now rewrite (proj1 (number_char_plain a Ha)).
  - apply no_semicolon_number.
Qed.

Lemma first_char_not_empty (s : string) (a : ascii) :
  Js.first_char s = Some a -> s <> EmptyString.
Proof. now destruct s. Qed.

Lemma printed_domain_not_empty (c : Cookie) (d : string) :
  printed_domain c = Some d -> d <> EmptyString.
Proof.
  unfold printed_domain. destruct (domain c) as [[|a x]|]; cbn [Js.truthy andb];
    try discriminate.
  destruct (negb _); [now intros [= <-] | discriminate].
Qed.

Lemma printed_attributes_text (c : Cookie) :
  prints_without_loss c ->
  Forall (fun av => attribute_text av /\ av <> EmptyString) (printed_attributes c).
Proof.
  intros [_ He Hm Hd Hp Hx]. unfold printed_attributes.
  repeat (apply Forall_app; split).
  - destruct (expires c) as [|t|s]; [constructor | | contradiction].
    constructor; [|constructor].
    apply (named_attribute_text "Expires="); try reflexivity; apply formatDate_text.
  - destruct (maxAge c) as [[n| |]|]; try contradiction; [|constructor].
    constructor; [|constructor].
    apply (named_attribute_text "Max-Age="); try reflexivity; apply number_text.
  - pose proof (printed_domain_not_empty c) as Hne.
    destruct (printed_domain c) as [d|]; [|constructor].
    constructor; [|constructor].
    apply (named_attribute_text "Domain="); try reflexivity; [apply Hd | now apply Hne].
  - destruct (path c) as [p|]; [|constructor]. destruct Hp as [Hp Hslash].
    pose proof (first_char_not_empty p _ Hslash) as Hne.
    rewrite (truthy_not_empty p Hne). constructor; [|constructor].
    cbn [default]. unfold id.
    now apply (named_attribute_text "Path=").
  - destruct (secure c); repeat constructor; discriminate.
  - destruct (httpOnly c); repeat constructor; discriminate.
  - destruct (extensions c) as [exts|]; [|constructor]. cbn [default]. unfold id.
    destruct Hx as [_ Hx]. eapply Forall_impl; [exact Hx|].
    intros ext (H1 & H2 & _). now split.
Qed.

Lemma parse_av_printed_date (t : Z) (c : Cookie) :
  1601 <= JsDate.YearFromTime t <= 9999 ->
  parse_av ("Expires=" ++ formatDate t) c = set_expires (At (t - t mod 1000)) c.
Proof.
  intros Ht. destruct (formatDate_text t) as [[Hx _] Hne].
  apply parse_av_Expires; [exact Hx | exact Hne | now apply printed_date_reads].
Qed.

Lemma parse_av_printed_domain (d : string) (c : Cookie) :
  attribute_text d /\ Js.toLowerCase d = d /\ Js.first_char d <> Some "."%char ->
  d <> EmptyString ->
  parse_av ("Domain=" ++ d) c = set_domain (Some d) c.
Proof. intros ([Hx _] & Hlow & Hdot) Hne. now apply parse_av_Domain. Qed.

Lemma parse_av_printed_path (p : string) (c : Cookie) :
  attribute_text p /\ Js.first_char p = Some "/"%char ->
  Js.truthy (Some p) = true /\ parse_av ("Path=" ++ p) c = set_path (Some p) c.
Proof.
  intros [[Hx _] Hslash]. split; [|now apply parse_av_Path].
  apply truthy_not_empty. now apply (first_char_not_empty p "/").
Qed.

(** *** The attributes, group by group *)

Lemma read_expires (e : Expires) (c0 : Cookie) :
  expires c0 = Forever ->
  match e with
  | Forever => True
  | At t => 1601 <= JsDate.YearFromTime t <= 9999
  | Text _ => False
  end ->
  fold_left (fun c av => parse_av av c)
            match e with
            | Forever => []
            | At t => [("Expires=" ++ formatDate t)%string]
            | Text s => [("Expires=" ++ s)%string]
            end c0
  = set_expires (whole_seconds e) c0.
Proof.
  intros H0 He. destruct e as [|t|s]; [| |contradiction]; cbn [fold_left whole_seconds].
  - destruct c0. cbn in *. now subst.
  - now apply parse_av_printed_date.
Qed.

Lemma read_maxAge (m : option MaxAge) (c0 : Cookie) :
  maxAge c0 = None ->
  match m with
  | None => True
  | Some (Seconds n) => Z.abs n <= 9007199254740992
  | Some _ => False
  end ->
  fold_left (fun c av => parse_av av c)
            match m with
            | Some (Seconds n) => [("Max-Age=" ++ Js.show_Z n)%string]
            | Some MinusInfinity => ["Max-Age=-Infinity"%string]
            | Some PlusInfinity | None => []
            end c0
  = set_maxAge m c0.
Proof.
  intros H0 Hm. destruct m as [[n| |]|]; try contradiction; cbn [fold_left].
  - apply parse_av_MaxAge.
  - destruct c0. cbn in *. now subst.
Qed.

Lemma read_domain (d : option string) (c0 : Cookie) :
  domain c0 = None ->
  match d with
  | Some d => (attribute_text d /\ Js.toLowerCase d = d
               /\ Js.first_char d <> Some "."%char) /\ d <> EmptyString
  | None => True
  end ->
  fold_left (fun c av => parse_av av c)
            match d with
            | Some d => [("Domain=" ++ d)%string]
            | None => []
            end c0
  = set_domain d c0.
Proof.
  intros H0 Hd. destruct d as [d|]; cbn [fold_left].
  - now apply parse_av_printed_domain.
  - destruct c0. cbn in *. now subst.
Qed.

Lemma read_path (p : option string) (c0 : Cookie) :
  path c0 = None ->
  match p with
  | Some p => attribute_text p /\ Js.first_char p = Some "/"%char
  | None => True
  end ->
  fold_left (fun c av => parse_av av c)
            (if Js.truthy p then [("Path=" ++ default EmptyString p)%string] else []) c0
  = set_path p c0.
Proof.
  intros H0 Hp. destruct p as [p|].
  - destruct (parse_av_printed_path p c0 Hp) as [-> Hr]. exact Hr.
  - cbn [Js.truthy fold_left]. destruct c0. cbn in *. now subst.
Qed.

Lemma read_flags (s h : bool) (c0 : Cookie) :
  secure c0 = false -> httpOnly c0 = false ->
  fold_left (fun c av => parse_av av c) (if h then ["HttpOnly"%string] else [])
    (fold_left (fun c av => parse_av av c) (if s then ["Secure"%string] else []) c0)
  = set_httpOnly h (set_secure s c0).
Proof.
  intros Hs Hh. destruct c0. cbn in Hs, Hh. subst. now destruct s, h.
Qed.

Lemma read_extensions (x : option (list string)) (c0 : Cookie) :
  extensions c0 = None ->
  match x with
  | Some exts =>
      exts <> []
      /\ Forall (fun ext => attribute_text ext /\ ext <> EmptyString
                            /\ known_attribute (av_name ext) = false) exts
  | None => True
  end ->
  fold_left (fun c av => parse_av av c) (default [] x) c0 = set_extensions x c0.
Proof.
  intros H0 Hx. destruct x as [exts|]; cbn [default fold_left]; unfold id.
  - destruct Hx as [Hne Hall]. rewrite (parse_avs_extensions exts c0 Hne Hall).
    now rewrite H0.
  - destruct c0. cbn in *. now subst.
Qed.



(** ** Loose mode *)

Lemma space_not_eq_semi (c : ascii) : Js.is_space c = true -> not_eq_semi c = true.
Proof. destruct c as [[] [] [] [] [] [] [] []]; (reflexivity || discriminate). Qed.

(** A head that the strict pattern matches has an [=] after one character
    or more that are neither [=] nor [;]. *)
Lemma COOKIE_PAIR_shape (head : string) (cs : Re.captures) :
  Re.exec COOKIE_PAIR head = Some cs ->
  exists a w, head = (a ++ String "=" w)%string /\ a <> EmptyString
              /\ all_chars not_eq_semi a = true.
Proof.
  intros Hex. apply exec_sound in Hex as (s' & cs' & Hm & _).
  unfold COOKIE_PAIR, Re.Plus, Re.Lit in Hm.
  inversion Hm as [| | | |? ? ? s1 ? ? cs1 ? Hg Hrest| | | | | |]; subst. clear Hm.
  inversion Hg as [| | | | | | | | |? ? ? ? ? ? Hg2|]; subst. clear Hg.
  inversion Hg2 as [| | | | | | | | |? ? ? ? ? ? Hplus|]; subst. clear Hg2.
  inversion Hplus as [| | | |? ? ? s0 ? ? cs0 ? Hc Hstar| | | | | |]; subst. clear Hplus.
  inversion Hc as [|? c ? ? Hp| | | | | | | | |]; subst. clear Hc.
  apply Star_all in Hstar as (u & -> & Hu).
  inversion Hrest as [| | | |? ? ? s2 ? ? cs2 ? Hsp Hrest2| | | | | |]; subst. clear Hrest.
  apply Star_all in Hsp as (u2 & -> & Hu2).
  inversion Hrest2 as [| | | |? ? ? s3 ? ? cs3 ? Heq _| | | | | |]; subst. clear Hrest2.
  inversion Heq as [|? c' ? ? Hc'| | | | | | | | |]; subst. clear Heq.
  unfold Js.is_char in Hc'. apply Ascii.eqb_eq in Hc' as <-.
  exists (String c (u ++ u2)), s3. split; [|split].
  - cbn [String.append]. now rewrite app_assoc_s.
  - discriminate.
  - cbn [all_chars]. rewrite Hp, all_chars_app, Hu. cbn [andb].
    apply (all_chars_impl Js.is_space); [apply space_not_eq_semi | exact Hu2].
Qed.

(** Where a greedy star stops when what follows it succeeds there. *)
Lemma star_point {A} (p : ascii -> bool) (s : string) :
  exists u r,
    s = (u ++ r)%string /\ all_chars p u = true
    /\ forall (k : string -> option A) (res : A),
         k r = Some res -> Re.star p s k = Some res.
Proof.
  induction s as [|c s (u & r & -> & Hu & Hk)].
  - exists EmptyString, EmptyString. repeat split. intros k res Hr. exact Hr.
  - destruct (p c) eqn:Hc.
    + exists (String c u), r. split; [reflexivity|]. split; [cbn [all_chars]; now rewrite Hc|].
      intros k res Hr. cbn [Re.star]. now rewrite Hc, (Hk k res Hr).
    + exists EmptyString, (String c (u ++ r)). repeat split.
      intros k res Hr. cbn [Re.star]. now rewrite Hc.
Qed.

Lemma consumed_head (c : ascii) (s r : string) :
  (String.length r <= String.length s)%nat ->
  exists t, Re.consumed (String c s) r = String c t.
Proof.
  intros Hl. unfold Re.consumed. cbn [String.length].
  rewrite Nat.sub_succ_l by exact Hl. cbn [String.substring]. eauto.
Qed.

(** Both patterns on a head of that shape. *)
Lemma pair_on_shape (a w : string) :
  a <> EmptyString -> all_chars not_eq_semi a = true ->
  exists g,
    parse_pair (a ++ String "=" w) false = Some (Js.trim a, Js.trim g)
    /\ parse_pair (a ++ String "=" w) true = Some (Js.trim a, Js.trim g).
Proof.
  intros Hne Ha. destruct a as [|c0 a]; [contradiction|].
  cbn [all_chars] in Ha. apply andb_true_iff in Ha as [Hc0 Ha].
  assert (Heq0 : Js.is_char "=" c0 = false).
  { unfold not_eq_semi in Hc0. apply andb_true_iff in Hc0 as [H1 _].
    now destruct (Js.is_char "=" c0). }
  destruct (star_point (A := Re.captures) Js.is_space w) as (u1 & r1 & -> & Hu1 & Hk1).
  destruct (star_point (A := Re.captures) not_terminator r1) as (u2 & r2 & Er1 & Hu2 & Hk2).
  exists (Re.consumed r1 r2).
  set (head := (String c0 a ++ String "=" (u1 ++ r1))%string).
  split.
  - unfold parse_pair, Re.exec, COOKIE_PAIR, Re.Plus, Re.Lit.
    cbn [Re.run]. unfold head. cbn [String.append]. rewrite Hc0. fold head.
    erewrite star_greedy; [| exact Ha |].
    2: { rewrite star_stops by reflexivity. cbn [Re.run Re.star].
         change (Js.is_space "=") with false. cbv iota.
         change (Js.is_char "=" "=") with true. cbv iota.
         apply Hk1. apply Hk2. reflexivity. }
    cbn [Re.get Nat.eqb default]. unfold id.
    change (String c0 (a ++ String "=" (u1 ++ r1)))
      with (String c0 a ++ String "=" (u1 ++ r1))%string.
    rewrite consumed_app. reflexivity.
  - unfold parse_pair, Re.exec, LOOSE_COOKIE_PAIR, Re.Lit.
    cbn [Re.run]. unfold head. cbn [String.append]. rewrite Heq0.
    change (String c0 (a ++ String "=" (u1 ++ r1))) with head.
    unfold head at 1.
    erewrite (star_greedy not_eq_semi (String c0 a));
      [| cbn [all_chars]; now rewrite Hc0, Ha |].
    2: { rewrite star_stops by reflexivity. cbn [Re.star].
         change (Js.is_space "=") with false. cbv iota.
         change (Js.is_char "=" "=") with true. cbv iota.
         apply Hk1.
         assert (Hlen : (String.length r1 =? String.length head)%nat = false).
         { apply Nat.eqb_neq. unfold head. cbn [String.append String.length].
           rewrite !app_length. cbn [String.length]. rewrite app_length. lia. }
         rewrite Hlen. apply Hk2. reflexivity. }
    cbn [Re.get Nat.eqb default]. unfold id.
    destruct (consumed_head c0 (a ++ String "=" (u1 ++ r1)) r1) as (t & Ht).
    { rewrite !app_length. cbn [String.length]. rewrite app_length. lia. }
    unfold head at 1. cbn [String.append]. rewrite Ht. cbn [Js.truthy].
    unfold head. rewrite consumed_app. reflexivity.
Qed.

Lemma parse_pair_loose (head : string) (kv : string * string) :
  parse_pair head false = Some kv -> parse_pair head true = Some kv.
Proof.
  intros Hs.
  assert (Hex : exists cs, Re.exec COOKIE_PAIR head = Some cs).
  { unfold parse_pair in Hs. destruct (Re.exec COOKIE_PAIR head) as [cs|]; [eauto|discriminate]. }
  destruct Hex as [cs Hex].
  destruct (COOKIE_PAIR_shape head cs Hex) as (a & w & -> & Hne & Ha).
  destruct (pair_on_shape a w Hne Ha) as (g & Hstrict & Hloose).
  rewrite Hstrict in Hs. injection Hs as <-. exact Hloose.
Qed.

(** X19.  Loose mode extends strict mode: a string that [parse] accepts in
    strict mode gives the same cookie in loose mode. *)
Theorem parse_loose_extends_strict (str : string) (rt : Runtime) (l : loc)
        (rt' : Runtime) :
  parse str false rt = (Some l, rt') -> parse str true rt = (Some l, rt').
Proof.
  unfold parse. cbv zeta.
  destruct (parse_pair _ false) as [[k v]|] eqn:Hs; [|discriminate].
  now rewrite (parse_pair_loose _ _ Hs).
Qed.

(** The loose reading of ["SID = 31d4 ; Path=/"] is the strict one. *)
Lemma parse_loose_extends_strict_witness :
  parse "SID = 31d4 ; Path=/" true start
  = (Some 0%nat, (parse "SID = 31d4 ; Path=/" false start).2).
Proof. apply parse_loose_extends_strict. vm_compute. reflexivity. Defined.

(** The group of the loose pattern that holds the key needs an [=]. *)
Lemma loose_key_needs_equals (head : string) (cs : Re.captures)
      (k : string -> Re.captures -> option Re.captures) :
  has_char "=" head = false ->
  Re.run (Re.Grp 1
            (Re.Seq (Re.Opt (Re.Lit "="))
            (Re.Seq (Re.Grp 2 (Re.Star not_eq_semi))
            (Re.Seq (Re.Star Js.is_space)
            (Re.Seq (Re.Lit "=") (Re.Star Js.is_space)))))) head cs k = None.
Proof.
  intros Hno. destruct (Re.run _ head cs k) as [res|] eqn:Hrun; [|reflexivity].
  exfalso. apply run_sound in Hrun as (s' & cs' & Hm & _).
  inversion Hm as [| | | | | | | | |? ? ? ? ? ? Hg|]; subst. clear Hm.
  inversion Hg as [| | | |? ? ? s1 ? ? cs1 ? Hopt Hrest| | | | | |]; subst. clear Hg.
  apply Matches_prefix in Hopt as (u0 & ->).
  inversion Hrest as [| | | |? ? ? s2 ? ? cs2 ? Hg2 Hrest2| | | | | |]; subst. clear Hrest.
  apply Matches_prefix in Hg2 as (u1 & ->).
  inversion Hrest2 as [| | | |? ? ? s3 ? ? cs3 ? Hsp Hrest3| | | | | |]; subst. clear Hrest2.
  apply Matches_prefix in Hsp as (u2 & ->).
  inversion Hrest3 as [| | | |? ? ? s4 ? ? cs4 ? Heq _| | | | | |]; subst. clear Hrest3.
  inversion Heq as [|? c' ? ? Hc'| | | | | | | | |]; subst. clear Heq.
  unfold Js.is_char in Hc'. apply Ascii.eqb_eq in Hc' as <-.
  rewrite <- !app_assoc_s in Hno. now rewrite has_char_here in Hno.
Qed.

Lemma run_Grp (n : nat) (r : Re.t) (s : string) (cs : Re.captures)
      (k : string -> Re.captures -> option Re.captures) :
  Re.run (Re.Grp n r) s cs k
  = Re.run r s cs (fun s' cs' => k s' ((n, Re.consumed s s') :: cs')).
Proof. reflexivity. Qed.

Lemma run_Seq (r1 r2 : Re.t) (s : string) (cs : Re.captures)
      (k : string -> Re.captures -> option Re.captures) :
  Re.run (Re.Seq r1 r2) s cs k = Re.run r1 s cs (fun s' cs' => Re.run r2 s' cs' k).
Proof. reflexivity. Qed.

Lemma run_Opt (r : Re.t) (s : string) (cs : Re.captures)
      (k : string -> Re.captures -> option Re.captures) :
  Re.run (Re.Opt r) s cs k
  = match Re.run r s cs (fun s' cs' =>
            if (String.length s' =? String.length s)%nat then None else k s' cs') with
    | Some res => Some res
    | None => k s cs
    end.
Proof. reflexivity. Qed.

Lemma has_no_equals (v : string) :
  has_char "=" v = false -> forall a w, v <> (a ++ String "=" w)%string.
Proof. intros Hno a w ->. now rewrite has_char_here in Hno. Qed.

(** X20.  A value without a key: in loose mode [parse] undoes
    [cookieString] for a cookie whose key is empty and whose value has no
    [=], while strict mode rejects the string. *)
Theorem parse_keyless_value (c : Cookie) (rt : Runtime) :
  key c = EmptyString -> Js.trim (value c) = value c ->
  all_chars value_char (value c) = true -> has_char "=" (value c) = false ->
  parse (cookieString c) false rt = (None, rt)
  /\ exists rt',
       parse (cookieString c) true rt = (Some (length (heap rt)), rt')
       /\ deref (heap rt') (length (heap rt)) = set_value (value c) (fresh_cookie rt).
Proof.
  intros Hk Ht Hv Hno. unfold cookieString. rewrite Hk.
  set (v := value c) in *.
  assert (Hsemi : Js.indexOf v ";" = -1).
  { apply indexOf_absent. apply (all_chars_impl value_char); [|exact Hv].
    intros a Ha. unfold value_char in Ha. now apply andb_true_iff in Ha as [? _]. }
  assert (Hvc : Re.test CONTROL_CHARS v = false).
  { apply not_control_test. apply (all_chars_impl value_char); [|exact Hv].
    intros a Ha. unfold value_char in Ha. now apply andb_true_iff in Ha as [_ ?]. }
  assert (Hnt : all_chars not_terminator v = true).
  { apply (all_chars_impl value_char); [|exact Hv]. intros a Ha.
    apply not_control_terminator. unfold value_char in Ha.
    now apply andb_true_iff in Ha as [_ ?]. }
  split.
  - unfold parse. cbv zeta. rewrite Ht, Hsemi. change (-1 =? -1) with true. cbv iota.
    unfold parse_pair.
    destruct (Re.exec COOKIE_PAIR v) as [cs|] eqn:Hex; [|reflexivity].
    destruct (COOKIE_PAIR_shape v cs Hex) as (a & w & Hshape & _).
    now destruct (has_no_equals v Hno a w).
  - assert (Hpair : parse_pair v true = Some (EmptyString, v)).
    { unfold parse_pair, Re.exec, LOOSE_COOKIE_PAIR.
      rewrite run_Grp, run_Seq, run_Opt, loose_key_needs_equals by exact Hno.
      cbn [Re.run].
      erewrite star_to_end; [| exact Hnt | reflexivity].
      cbn [Re.get Nat.eqb default Js.truthy]. unfold id.
      now rewrite consumed_all, Ht. }
    unfold parse. cbv zeta. rewrite Ht, Hsemi. change (-1 =? -1) with true. cbv iota.
    rewrite Hpair. unfold new_Cookie. cbv zeta. fold (fresh_cookie rt).
    assert (Hc : deref (heap rt ++ [fresh_cookie rt]) (length (heap rt)) = fresh_cookie rt).
    { unfold deref. rewrite lookup_app_r by lia. now rewrite Nat.sub_diag. }
    cbn [heap with_heap]. rewrite Hc, Hvc.
    change (Re.test CONTROL_CHARS EmptyString) with false. cbn [orb].
    eexists. split; [reflexivity|]. cbn [heap with_heap].
    rewrite deref_insert by (rewrite length_app; simpl; lia).
    reflexivity.
Qed.

(** The string ["31d4"] alone. *)
Lemma parse_keyless_value_witness :
  parse "31d4" false start = (None, start)
  /\ exists rt',
       parse "31d4" true start = (Some 0%nat, rt')
       /\ deref (heap rt') 0%nat = set_value "31d4" (fresh_cookie start).
Proof.
  apply (parse_keyless_value (set_value "31d4" Cookie_prototype) start); reflexivity.
Defined.
